(** * vCenterHoundGo: graph store, permission resolver, request signer

    A shallow embedding of the parts of vCenterHoundGo that decide the
    behaviour of the exported graph:

    - [GoStrings]: the functions of Go's [strings] and [sort] packages the
      code calls;
    - [Graph]: [graph/graph.go], the node and edge store;
    - [Collector]: [parsePrincipal], [isNoAccess] and [processPermission];
    - [Crypto]: SHA-256, HMAC and base64, which [signRequest] calls;
    - [Bloodhound]: [signRequest] and the domain map of [client.go];
    - [Output]: [WriteToFile] of [internal/output/writer.go];
    - [Postprocess]: [Run] of [processor.go] with its sync-edge loop;
    - [Main]: the merge loop and the writer of [main.go];
    - [Runs] and [Samples]: sequences of calls and sample values the
      statements below are about.

    Conventions.  A Go [string] is a Rocq [string] (a sequence of bytes).
    A Go [map[string]T] is a [gmap string T]; reading a missing key gives
    the zero value, and a nil map reads as the empty map.  The store is
    written only through the maps its callers hand over as fresh literals,
    so maps are values here and no two nodes share one.  A [range] loop
    over a map whose body does not depend on the visiting order is a
    [map_fold]; where the body does depend on it (the key list built in
    [propsToKey]) the visiting order is an explicit argument.  Calls to the
    inventory service, the clock and [encoding/json] are arguments of the
    functions that make them. *)

From Stdlib Require Import ZArith String Ascii List Lia.
From stdpp Require Import base strings gmap sorting list pretty.

(** ** Go's [strings] package *)

Module GoStrings.

(** [strings.HasPrefix]. *)
Fixpoint HasPrefix (s prefix : string) {struct prefix} : bool :=
  match prefix, s with
  | EmptyString, _ => true
  | String _ _, EmptyString => false
  | String p prefix', String c s' =>
      if decide (p = c) then HasPrefix s' prefix' else false
  end.

(** Drop the first [n] bytes: the slice [s[n:]]. *)
Fixpoint SliceFrom (n : nat) (s : string) : string :=
  match n, s with
  | O, _ => s
  | S _, EmptyString => EmptyString
  | S n', String _ s' => SliceFrom n' s'
  end.

(** Keep the first [n] bytes: the slice [s[:n]]. *)
Fixpoint SliceTo (n : nat) (s : string) : string :=
  match n, s with
  | O, _ => EmptyString
  | S _, EmptyString => EmptyString
  | S n', String c s' => String c (SliceTo n' s')
  end.

(** [strings.Cut]: the text before and after the first occurrence of
    [sep], or [None] when [sep] does not occur. *)
Fixpoint Cut (s sep : string) : option (string * string) :=
  if HasPrefix s sep then Some (EmptyString, SliceFrom (String.length sep) s)
  else match s with
       | EmptyString => None
       | String c s' =>
           match Cut s' sep with
           | Some (before, after) => Some (String c before, after)
           | None => None
           end
       end.

(** [strings.Contains]. *)
Definition Contains (s substr : string) : bool :=
  match Cut s substr with Some _ => true | None => false end.

(** [strings.SplitN(s, sep, 2)] for a non-empty [sep]: at most two
    pieces, split at the first occurrence of [sep]. *)
Definition SplitN2 (s sep : string) : list string :=
  match Cut s sep with
  | Some (before, after) => [before; after]
  | None => [s]
  end.

(** [strings.Split(s, sep)] for a non-empty [sep].  [skip] counts the
    bytes of a separator still to be passed over, [cur] is the piece
    being read. *)
Fixpoint Split_go (sep : string) (skip : nat) (cur s : string) : list string :=
  match s with
  | EmptyString => [cur]
  | String c s' =>
      match skip with
      | S k => Split_go sep k cur s'
      | O =>
          if HasPrefix s sep
          then cur :: Split_go sep (String.length sep - 1) EmptyString s'
          else Split_go sep 0 (cur +:+ String c EmptyString) s'
      end
  end.

Definition Split (s sep : string) : list string := Split_go sep 0 EmptyString s.

(** [strings.ReplaceAll(s, old, new)] for a non-empty [old]. *)
Fixpoint ReplaceAll_go (old new : string) (skip : nat) (s : string) : string :=
  match s with
  | EmptyString => EmptyString
  | String c s' =>
      match skip with
      | S k => ReplaceAll_go old new k s'
      | O =>
          if HasPrefix s old
          then new +:+ ReplaceAll_go old new (String.length old - 1) s'
          else String c (ReplaceAll_go old new 0 s')
      end
  end.

Definition ReplaceAll (s old new : string) : string := ReplaceAll_go old new 0 s.

(** [strings.Join]. *)
Definition Join (elems : list string) (sep : string) : string :=
  String.concat sep elems.



(** Case mapping.  Go maps runes; on the bytes of ASCII text that is the
    map below, and bytes outside [A-Z] / [a-z] are left alone. *)
Definition lowerByte (c : ascii) : ascii :=
  let n := nat_of_ascii c in
  if (65 <=? n)%nat && (n <=? 90)%nat then ascii_of_nat (n + 32) else c.

Definition upperByte (c : ascii) : ascii :=
  let n := nat_of_ascii c in
  if (97 <=? n)%nat && (n <=? 122)%nat then ascii_of_nat (n - 32) else c.

Fixpoint mapBytes (f : ascii → ascii) (s : string) : string :=
  match s with
  | EmptyString => EmptyString
  | String c s' => String (f c) (mapBytes f s')
  end.

Definition ToLower : string → string := mapBytes lowerByte.
Definition ToUpper : string → string := mapBytes upperByte.

(** [sort.Strings]: ascending byte-wise order. *)
Definition sortStrings : list string → list string := merge_sort String.le.

End GoStrings.

(** ** The graph store: [graph/graph.go] *)

Module Graph.

(** A property value, Go's [interface{}], restricted to the dynamic types
    the collectors store in a property map. *)
Inductive value : Type :=
  | VNil
  | VBool (b : bool)
  | VInt (z : Z)
  | VStr (s : string)
  | VStrs (l : list string).

#[global] Instance value_eq_dec : EqDecision value.
Proof. solve_decision. Defined.

(** [fmt.Sprintf("%v", v)]. *)
Definition fmtV (v : value) : string :=
  match v with
  | VNil => "<nil>"
  | VBool true => "true"
  | VBool false => "false"
  | VInt z => pretty z
  | VStr s => s
  | VStrs l => "[" +:+ GoStrings.Join l " " +:+ "]"
  end.

Record GraphNode : Type := {
  Kinds : list string;
  ID : string;
  Properties : gmap string value
}.

Record GraphEdge : Type := {
  Kind : string;
  StartID : gmap string string;
  EndID : gmap string string;
  EdgeProperties : gmap string value
}.

Record GraphBuilder : Type := {
  NodesByID : gmap string GraphNode;
  Edges : list GraphEdge;
  EdgeKeys : gmap string bool
}.

#[global] Instance GraphNode_eq_dec : EqDecision GraphNode.
Proof. solve_decision. Defined.

#[global] Instance GraphEdge_eq_dec : EqDecision GraphEdge.
Proof. solve_decision. Defined.

Definition NewGraphBuilder : GraphBuilder :=
  {| NodesByID := ∅; Edges := []; EdgeKeys := ∅ |}.

Definition NodePrefix : string := "vCenter_".
Definition EdgePrefix : string := "vCenter_".

Definition NodeTypeMap : gmap string string :=
  list_to_map
    [ ("vCenter", "vCenter"); ("RootFolder", "RootFolder");
      ("Datacenter", "Datacenter"); ("Cluster", "Cluster");
      ("ESXiHost", "ESXiHost"); ("ResourcePool", "ResourcePool");
      ("vApp", "vApp"); ("VM", "VM"); ("VMTemplate", "VMTemplate");
      ("Datastore", "Datastore"); ("DatastoreCluster", "DatastoreCluster");
      ("Network", "Network"); ("StandardPortgroup", "StandardPortgroup");
      ("DVSwitch", "DVSwitch"); ("DVPortgroup", "DVPortgroup");
      ("Principal", "Principal"); ("User", "User"); ("Group", "Group");
      ("Privilege", "Privilege"); ("Role", "Role"); ("Folder", "Folder");
      ("IdentityDomain", "IdentityDomain") ].

Definition EdgeTypeMap : gmap string string :=
  list_to_map
    [ ("CONTAINS", "Contains"); ("HOSTS", "Hosts");
      ("HAS_PERMISSION", "HasPermission"); ("MEMBER_OF", "MemberOf");
      ("USES_DATASTORE", "UsesDatastore"); ("USES_NETWORK", "UsesNetwork");
      ("HAS_DATASTORE", "HasDatastore"); ("HAS_NETWORK", "HasNetwork");
      ("MOUNTS", "Mounts"); ("HAS_PRIVILEGE", "HasPrivilege") ].

Definition FormatNodeKind (kind : string) : string :=
  let mapped := match NodeTypeMap !! kind with
                | Some m => m
                | None => kind
                end in
  let cleaned := GoStrings.ReplaceAll mapped "." "_" in
  let cleaned := GoStrings.ReplaceAll cleaned "-" "_" in
  let cleaned := GoStrings.ReplaceAll cleaned " " "_" in
  if decide (NodePrefix ≠ "") then NodePrefix +:+ cleaned else cleaned.

Definition FormatEdgeKind (kind : string) : string :=
  let mapped := match EdgeTypeMap !! kind with
                | Some m => m
                | None => kind
                end in
  if decide (EdgePrefix ≠ "") then EdgePrefix +:+ mapped else mapped.

(** The keys of a map in the order [map_fold] visits them. *)
Definition rangeKeys {V : Type} (m : gmap string V) : list string :=
  (map_to_list m).*1.

(** One element of [parts] in [propsToKey]:
    [fmt.Sprintf("%v:%v", k, props[k])]. *)
Definition propPart (props : gmap string value) (k : string) : string :=
  k +:+ ":" +:+ fmtV (default VNil (props !! k)).

(** [propsToKey], with the order in which [for k := range props] yields
    the keys as the argument [visit]. *)
Definition propsToKeyIn (visit : list string) (props : gmap string value) : string :=
  if decide (size props = 0) then ""
  else
    let keys := GoStrings.sortStrings visit in
    let parts := propPart props <$> keys in
    GoStrings.Join parts "|".

Definition propsToKey (props : gmap string value) : string :=
  propsToKeyIn (rangeKeys props) props.

(** The [edgeKey] line of [AddEdge]. *)
Definition edgeKeyIn (visit : list string) (kind startID endID : string)
    (properties : gmap string value) : string :=
  kind +:+ ":" +:+ startID +:+ ":" +:+ endID +:+ ":" +:+ propsToKeyIn visit properties.

Definition newEdge (kind startID endID : string) (properties : gmap string value)
    : GraphEdge :=
  {| Kind := FormatEdgeKind kind;
     StartID := {["value" := startID]};
     EndID := {["value" := endID]};
     EdgeProperties := properties |}.

(** The read [gb.EdgeKeys[key]]: false for a key never written. *)
Definition seen (gb : GraphBuilder) (key : string) : bool :=
  default false (EdgeKeys gb !! key).

(** [AddEdge]; a nil [properties] is the empty map. *)
Definition AddEdgeIn (visit : list string) (kind startID endID : string)
    (properties : gmap string value) (gb : GraphBuilder) : GraphBuilder :=
  let edgeKey := edgeKeyIn visit kind startID endID properties in
  if seen gb edgeKey then gb
  else
    {| NodesByID := NodesByID gb;
       Edges := Edges gb ++ [newEdge kind startID endID properties];
       EdgeKeys := <[edgeKey := true]> (EdgeKeys gb) |}.

Definition edgeKey (kind startID endID : string) (properties : gmap string value)
    : string :=
  edgeKeyIn (rangeKeys properties) kind startID endID properties.

Definition AddEdge (kind startID endID : string) (properties : gmap string value)
    (gb : GraphBuilder) : GraphBuilder :=
  AddEdgeIn (rangeKeys properties) kind startID endID properties gb.

(** One turn of the loop over the incoming kinds in [EnsureNode]: the
    state is [existing.Kinds] and [existingKindMap]. *)
Definition addKind (st : list string * gmap string bool) (k : string)
    : list string * gmap string bool :=
  let formatted := FormatNodeKind k in
  if default false (st.2 !! formatted) then st
  else (st.1 ++ [formatted], <[formatted := true]> st.2).

(** [existingKindMap] as first built from [existing.Kinds]. *)
Definition kindMapOf (kinds : list string) : gmap string bool :=
  foldl (λ m k, <[k := true]> m) ∅ kinds.

(** The invariant of the kinds loop: the kind map mirrors the kind list. *)
Definition mirrors (st : list string * gmap string bool) : Prop :=
  ∀ k, default false (st.2 !! k) = true ↔ k ∈ st.1.

Definition unionKinds (existing incoming : list string) : list string :=
  (foldl addKind (existing, kindMapOf existing) incoming).1.

Definition updateProperties (existing incoming : gmap string value)
    : gmap string value :=
  map_fold (λ k v acc, <[k := v]> acc) existing incoming.

(** [EnsureNode].  The returned node is the entry stored under [nodeID]. *)
Definition EnsureNode (kinds : list string) (nodeID : string)
    (properties : gmap string value) (gb : GraphBuilder) : GraphBuilder :=
  match NodesByID gb !! nodeID with
  | Some existing =>
      let existing' :=
        {| Kinds := unionKinds (Kinds existing) kinds;
           ID := ID existing;
           Properties := updateProperties (Properties existing) properties |} in
      {| NodesByID := <[nodeID := existing']> (NodesByID gb);
         Edges := Edges gb;
         EdgeKeys := EdgeKeys gb |}
  | None =>
      let node :=
        {| Kinds := FormatNodeKind <$> kinds;
           ID := nodeID;
           Properties := properties |} in
      {| NodesByID := <[nodeID := node]> (NodesByID gb);
         Edges := Edges gb;
         EdgeKeys := EdgeKeys gb |}
  end.

(** [ToOutput]: the nodes in no particular order, the edges in insertion
    order. *)
Definition ToOutput (gb : GraphBuilder) : list GraphNode * list GraphEdge :=
  ((map_to_list (NodesByID gb)).*2, Edges gb).

End Graph.

(** ** The permission resolver: [collector] *)

Module Collector.
Import Graph.

(** [types.ManagedObjectReference]. *)
Record ManagedObjectReference : Type := {
  RefType : string;
  Value : string
}.

(** [types.AuthorizationPrivilege]. *)
Record AuthorizationPrivilege : Type := {
  PrivId : string;
  PrivName : string;
  PrivGroupName : string
}.

(** [types.AuthorizationRole]; [RoleId] is an [int32]. *)
Record AuthorizationRole : Type := {
  RoleId : Z;
  Name : string;
  Privilege : list string
}.

(** [types.Permission]; a nil [Entity] is [None]. *)
Record Permission : Type := {
  Entity : option ManagedObjectReference;
  Principal : string;
  Group : bool;
  PermRoleId : Z;
  Propagate : bool
}.

Definition getID (ref : ManagedObjectReference) : string := Value ref.

(** [parsePrincipal] of the permission collector.  The index expressions
    [parts[0]] and [parts[1]] are guarded by the [Contains] tests. *)
Definition parsePrincipal (principal : string) : string * string :=
  if GoStrings.Contains principal "\" then
    let parts := GoStrings.SplitN2 principal "\" in
    (parts !!! 0%nat, parts !!! 1%nat)
  else if GoStrings.Contains principal "@" then
    let parts := GoStrings.SplitN2 principal "@" in
    (parts !!! 1%nat, parts !!! 0%nat)
  else ("", principal).

(** The method [(c *Collector) parsePrincipal] of [collector.go], used for
    group members. *)
Definition Collector_parsePrincipal (principal : string) : string * string :=
  if GoStrings.Contains principal "\" then
    let parts := GoStrings.SplitN2 principal "\" in
    (parts !!! 0%nat, parts !!! 1%nat)
  else if GoStrings.Contains principal "@" then
    let parts := GoStrings.SplitN2 principal "@" in
    (parts !!! 1%nat, parts !!! 0%nat)
  else ("", principal).

Definition isNoAccess (roleName : string) : bool :=
  let l := GoStrings.ToLower roleName in
  bool_decide (l = "no access") || bool_decide (l = "noaccess")
  || bool_decide (l = "no-access").

Section WithSource.

(** [c.Config.Host]. *)
Variable Host : string.

(** The answer of the inventory service to
    [RetrieveOne(ref, ["host"])]: the hosts of a compute resource, or
    [None] when the call fails. *)
Variable retrieveHosts : ManagedObjectReference → option (list ManagedObjectReference).

Definition getEntityKindAndID (ref : ManagedObjectReference) : string * string :=
  let moid := getID ref in
  if decide (RefType ref = "Datacenter") then
    ("Datacenter", "datacenter:" +:+ Host +:+ ":" +:+ moid)
  else if decide (RefType ref = "ClusterComputeResource") then
    ("Cluster", "cluster:" +:+ Host +:+ ":" +:+ moid)
  else if decide (RefType ref = "HostSystem") then
    ("ESXiHost", "esxi_host:" +:+ Host +:+ ":" +:+ moid)
  else if decide (RefType ref = "ComputeResource") then
    match retrieveHosts ref with
    | Some (h :: _) => ("ESXiHost", "esxi_host:" +:+ Host +:+ ":" +:+ Value h)
    | _ => ("ESXiHost", "esxi_host:" +:+ Host +:+ ":" +:+ moid)
    end
  else if decide (RefType ref = "VirtualMachine") then
    ("VM", "vm:" +:+ Host +:+ ":" +:+ moid)
  else if decide (RefType ref = "Folder") then
    ("Folder", "folder:" +:+ Host +:+ ":" +:+ moid)
  else
    let cleanType := RefType ref in
    (cleanType, GoStrings.ToLower cleanType +:+ ":" +:+ Host +:+ ":" +:+ moid).

Definition principalIDOf (perm : Permission) : string :=
  if Group perm then "group:" +:+ Host +:+ ":" +:+ Principal perm
  else "user:" +:+ Host +:+ ":" +:+ Principal perm.

Definition principalKinds (perm : Permission) : list string :=
  if Group perm then ["Group"] else ["User"].

Definition principalProps (perm : Permission) : gmap string value :=
  let '(domain, username) := parsePrincipal (Principal perm) in
  <["name" := VStr (Principal perm)]>
    (<["isGroup" := VBool (Group perm)]>
       (<["domain" := VStr domain]>
          (<["username" := VStr username]> ∅))).

(** The loop over [r.Privilege]: the display names in order, and the set
    of privilege groups. *)
Definition privilegeDetails (privMap : gmap string AuthorizationPrivilege)
    (privs : list string) : list string * gmap string bool :=
  foldl (λ '(privNames, groupSet) pid,
           match privMap !! pid with
           | Some p => (privNames ++ [PrivName p], <[PrivGroupName p := true]> groupSet)
           | None => (privNames ++ [pid], groupSet)
           end)
        ([], ∅) privs.

Definition processPermission (perm : Permission)
    (roles : gmap Z AuthorizationRole)
    (privMap : gmap string AuthorizationPrivilege)
    (gb : GraphBuilder) : GraphBuilder :=
  let principalID := principalIDOf perm in
  let gb := EnsureNode (principalKinds perm) principalID (principalProps perm) gb in
  let roleID := PermRoleId perm in
  let '(roleName, privIds, privNames, privGroups, privCount) :=
    match roles !! roleID with
    | Some r =>
        let '(privNames, groupSet) := privilegeDetails privMap (Privilege r) in
        (Name r, Privilege r, privNames,
         GoStrings.sortStrings (rangeKeys groupSet), length (Privilege r))
    | None => ("", [], [], [], 0%nat)
    end in
  if isNoAccess roleName then gb
  else
    match Entity perm with
    | None => gb
    | Some entityRef =>
        let '(entityKind, entityID) := getEntityKindAndID entityRef in
        let nodeProps : gmap string value :=
          match NodesByID gb !! entityID with
          | None =>
              <["name" := VStr (getID entityRef)]>
                (<["moid" := VStr (getID entityRef)]> ∅)
          | Some _ => <["moid" := VStr (getID entityRef)]> ∅
          end in
        let gb := EnsureNode [entityKind] entityID nodeProps gb in
        let props : gmap string value :=
          <["roleId" := VInt roleID]>
            (<["roleName" := VStr roleName]>
               (<["propagate" := VBool (Propagate perm)]>
                  (<["privilegeIds" := VStrs privIds]>
                     (<["privilegeNames" := VStrs privNames]>
                        (<["privilegeGroups" := VStrs privGroups]>
                           (<["privilegeCount" := VInt (Z.of_nat privCount)]> ∅)))))) in
        AddEdge "HAS_PERMISSION" principalID entityID props gb
    end.

End WithSource.

End Collector.
(** ** SHA-256, HMAC and base64: [crypto/sha256], [crypto/hmac],
    [encoding/base64]

    The three library functions [signRequest] calls, after FIPS 180-4,
    RFC 2104 and RFC 4648.  A byte is a [Z] in [0, 256), a word a [Z] in
    [0, 2^32). *)

Module Crypto.
Local Open Scope Z_scope.

Definition byteZ (c : ascii) : Z := Z.of_N (N_of_ascii c).
Definition zByte (z : Z) : ascii := ascii_of_N (Z.to_N (z mod 256)).
Definition bytesOf (s : string) : list Z := byteZ <$> list_ascii_of_string s.
Definition stringOf (l : list Z) : string := string_of_list_ascii (zByte <$> l).

Definition w32 (x : Z) : Z := x mod 2 ^ 32.
Definition rotr (n x : Z) : Z := Z.lor (Z.shiftr x n) (w32 (Z.shiftl x (32 - n))).
Definition xor3 (x y z : Z) : Z := Z.lxor (Z.lxor x y) z.

Definition Ch (x y z : Z) : Z :=
  Z.lxor (Z.land x y) (Z.land (Z.lxor x 0xffffffff) z).
Definition Maj (x y z : Z) : Z := xor3 (Z.land x y) (Z.land x z) (Z.land y z).
Definition Sigma0 (x : Z) : Z := xor3 (rotr 2 x) (rotr 13 x) (rotr 22 x).
Definition Sigma1 (x : Z) : Z := xor3 (rotr 6 x) (rotr 11 x) (rotr 25 x).
Definition sigma0 (x : Z) : Z := xor3 (rotr 7 x) (rotr 18 x) (Z.shiftr x 3).
Definition sigma1 (x : Z) : Z := xor3 (rotr 17 x) (rotr 19 x) (Z.shiftr x 10).

(** The round constants and the initial hash value are not tabulated but
    derived as the standard defines them: the first 32 bits of the
    fractional parts of the cube roots of the first 64 primes, and of the
    square roots of the first 8. *)
Definition isPrime (p : nat) : bool :=
  forallb (λ d, negb (p mod d =? 0)%nat) (seq 2 (p - 2)).

Definition primes : list Z := Z.of_nat <$> filter (λ p, isPrime p = true) (seq 2 310).

(** The integer [e]-th root of [n], built bit by bit from bit [bits - 1]
    down. *)
Fixpoint intRoot (e n : Z) (bits : nat) (r : Z) : Z :=
  match bits with
  | O => r
  | S b =>
      let r' := r + 2 ^ Z.of_nat b in
      intRoot e n b (if r' ^ e <=? n then r' else r)
  end.

Definition fracRootBits (e p : Z) : Z :=
  intRoot e (p * 2 ^ (32 * e)) 40 0 mod 2 ^ 32.

Definition K256 : list Z := fracRootBits 3 <$> primes.

Definition H256 : list Z := fracRootBits 2 <$> take 8 primes.

(** Big-endian bytes of a number, [n] of them. *)
Fixpoint bigEndian (n : nat) (x : Z) : list Z :=
  match n with
  | O => []
  | S n' => bigEndian n' (x / 256) ++ [x mod 256]
  end.

Fixpoint wordsOf (bs : list Z) : list Z :=
  match bs with
  | b0 :: b1 :: b2 :: b3 :: rest =>
      (((b0 * 256 + b1) * 256 + b2) * 256 + b3) :: wordsOf rest
  | _ => []
  end.

(** The message schedule, latest word first. *)
Fixpoint extendSchedule (n : nat) (w : list Z) : list Z :=
  match n with
  | O => w
  | S n' =>
      let wt := w32 (sigma1 (w !!! 1%nat) + w !!! 6%nat
                     + sigma0 (w !!! 14%nat) + w !!! 15%nat) in
      extendSchedule n' (wt :: w)
  end.

Definition round (st : list Z) (kw : Z * Z) : list Z :=
  match st with
  | [a; b; c; d; e; f; g; h] =>
      let t1 := h + Sigma1 e + Ch e f g + kw.1 + kw.2 in
      let t2 := Sigma0 a + Maj a b c in
      [w32 (t1 + t2); a; b; c; w32 (d + t1); e; f; g]
  | _ => st
  end.

Definition compress (h : list Z) (block : list Z) : list Z :=
  let w := rev (extendSchedule 48 (rev (wordsOf block))) in
  let st := foldl round h (zip K256 w) in
  zip_with (λ x y, w32 (x + y)) h st.

(** Feed bytes to the digest one at a time; a full 64-byte buffer is
    compressed into the chaining value. *)
Definition feed (st : list Z * list Z) (b : Z) : list Z * list Z :=
  let buf := st.2 ++ [b] in
  if decide (length buf = 64%nat) then (compress st.1 buf, []) else (st.1, buf).

Definition padding (len : Z) : list Z :=
  0x80 :: replicate (Z.to_nat ((55 - len) mod 64)) 0 ++ bigEndian 8 (8 * len).

Definition sha256 (msg : list Z) : list Z :=
  let st := foldl feed (H256, []) (msg ++ padding (Z.of_nat (length msg))) in
  st.1 ≫= bigEndian 4.

Definition blockKey (key : list Z) : list Z :=
  let k := if decide (64 < length key)%nat then sha256 key else key in
  k ++ replicate (64 - length k) 0.

(** [hmac.New(sha256.New, key)], [Write(msg)], [Sum(nil)]. *)
Definition hmacSHA256 (key msg : list Z) : list Z :=
  let k := blockKey key in
  let ipad := (λ b, Z.lxor b 0x36) <$> k in
  let opad := (λ b, Z.lxor b 0x5c) <$> k in
  sha256 (opad ++ sha256 (ipad ++ msg)).

Definition HMAC_SHA256 (key msg : string) : string :=
  stringOf (hmacSHA256 (bytesOf key) (bytesOf msg)).

Definition encodeStd : string :=
  "ABCDEFGHIJKLMNOPQRSTUVWXYZabcdefghijklmnopqrstuvwxyz0123456789+/".

Definition b64Char (n : Z) : ascii :=
  default "="%char (String.get (Z.to_nat n) encodeStd).

Fixpoint b64Groups (bs : list Z) : list ascii :=
  match bs with
  | [] => []
  | [b0] =>
      [b64Char (b0 / 4); b64Char (b0 mod 4 * 16); "="%char; "="%char]
  | [b0; b1] =>
      [b64Char (b0 / 4); b64Char (b0 mod 4 * 16 + b1 / 16);
       b64Char (b1 mod 16 * 4); "="%char]
  | b0 :: b1 :: b2 :: rest =>
      b64Char (b0 / 4) :: b64Char (b0 mod 4 * 16 + b1 / 16)
      :: b64Char (b1 mod 16 * 4 + b2 / 64) :: b64Char (b2 mod 64)
      :: b64Groups rest
  end.

(** [base64.StdEncoding.EncodeToString]. *)
Definition EncodeToString (s : string) : string :=
  string_of_list_ascii (b64Groups (bytesOf s)).

Definition hexOf (bs : list Z) : string :=
  string_of_list_ascii
    (bs ≫= λ b, [default "?"%char (String.get (Z.to_nat (b / 16)) "0123456789abcdef");
                 default "?"%char (String.get (Z.to_nat (b mod 16)) "0123456789abcdef")]).

End Crypto.
(** ** The signed-request client: [internal/bloodhound/client.go] *)

Module Bloodhound.
Import Crypto.

Record Client : Type := {
  URL : string;
  KeyID : string;
  KeySecret : string
}.

(** The parts of an [http.Request] that [signRequest] reads and writes.
    [Path] and [RawQuery] are [req.URL.Path] and [req.URL.RawQuery]; a nil
    [Body] is [None]; a header holds a list of values. *)
Record Request : Type := {
  Method : string;
  Path : string;
  RawQuery : string;
  Body : option string;
  Header : gmap string (list string)
}.

(** [textproto.CanonicalMIMEHeaderKey] on a key made of letters, digits
    and hyphens: upper case at the start and after a hyphen, lower case
    elsewhere. *)
Fixpoint canonicalGo (upper : bool) (s : string) : string :=
  match s with
  | EmptyString => EmptyString
  | String c s' =>
      String (if upper then GoStrings.upperByte c else GoStrings.lowerByte c)
             (canonicalGo (bool_decide (c = "-"%char)) s')
  end.

Definition CanonicalMIMEHeaderKey : string → string := canonicalGo true.

(** [req.Header.Set]. *)
Definition Header_Set (key value : string) (req : Request) : Request :=
  {| Method := Method req; Path := Path req; RawQuery := RawQuery req;
     Body := Body req;
     Header := <[CanonicalMIMEHeaderKey key := [value]]> (Header req) |}.

(** [req.Header.Get]. *)
Definition Header_Get (key : string) (req : Request) : string :=
  match Header req !! CanonicalMIMEHeaderKey key with
  | Some (v :: _) => v
  | _ => ""
  end.

Definition requestURI (req : Request) : string :=
  if decide (RawQuery req ≠ "") then Path req +:+ "?" +:+ RawQuery req
  else Path req.

Definition digest1 (c : Client) (req : Request) : string :=
  HMAC_SHA256 (KeySecret c) (Method req +:+ requestURI req).

Definition digest2 (c : Client) (ts : string) (req : Request) : string :=
  HMAC_SHA256 (digest1 c req) (GoStrings.SliceTo 13 ts).

Definition digest3 (c : Client) (ts : string) (req : Request) : string :=
  match Body req with
  | Some bodyBytes => HMAC_SHA256 (digest2 c ts req) bodyBytes
  | None => HMAC_SHA256 (digest2 c ts req) ""
  end.

(** [signRequest], with the reading [ts] of the clock, formatted, as an
    argument.  [inl] is the returned error, [inr] the request with its
    headers set.  The body is given by its bytes: reading it cannot fail
    here, and it is put back unchanged after it is read for signing. *)
Definition signRequest (c : Client) (ts : string) (req : Request)
    : string + Request :=
  if decide (String.length ts < 13)%nat then inl "timestamp format error"
  else
    let signature := EncodeToString (digest3 c ts req) in
    let req := Header_Set "Authorization" ("bhesignature " +:+ KeyID c) req in
    let req := Header_Set "RequestDate" ts req in
    let req := Header_Set "Signature" signature req in
    inr req.

(** The loop of [GetDomainMap] over the decoded [data[].name] fields. *)
Definition domainMapOf (names : list string) : gmap string string :=
  foldl (λ domainMap name,
           let fqdn := GoStrings.ToUpper name in
           let parts := GoStrings.Split fqdn "." in
           if decide (0 < length parts)%nat
           then <[parts !!! 0%nat := fqdn]> domainMap
           else domainMap)
        ∅ names.


End Bloodhound.

(** ** The writer of [internal/output/writer.go] *)

Module Output.

Definition LF : string := String (ascii_of_nat 10) EmptyString.
Definition DQ : string := String (ascii_of_nat 34) EmptyString.

(** [output.WriteToFile]: the bytes written to the file, given the
    rendering [graphJSON] of [data] by [encoding/json] at indent depth
    one.  Nothing is written before the encoder's output. *)
Definition WriteToFile (graphJSON : string) : string :=
  "{" +:+ LF +:+ "  " +:+ DQ +:+ "graph" +:+ DQ +:+ ": " +:+ graphJSON
  +:+ LF +:+ "}" +:+ LF.

End Output.

(** ** The sync-edge pass: [internal/postprocess/processor.go] *)

Module Postprocess.
Import Graph.

(** The arguments of one [AddRawEdgeWithMatch] call. *)
Record RawEdge : Type := {
  REKind : string;
  REStartID : string;
  REStartMatchBy : string;
  REEndID : string;
  REEndMatchBy : string;
  REProperties : gmap string value
}.

#[global] Instance RawEdge_eq_dec : EqDecision RawEdge.
Proof. solve_decision. Defined.

(** The type assertion [v.(string)] with the comma-ok form: the zero
    value when the key is missing or holds another type. *)
Definition asString (v : option value) : string :=
  match v with
  | Some (VStr s) => s
  | _ => ""
  end.

(** The flags set by the loop over [node.Kinds]. *)
Definition kindFlags (kinds : list string) : bool * bool :=
  foldl (λ '(isUser, isGroup) k,
           if decide (k = "vCenter_User") then (true, isGroup)
           else if decide (k = "vCenter_Group") then (isUser, true)
           else (isUser, isGroup))
        (false, false) kinds.

(** The body of the sync loop of [Run] for one node: the
    [AddRawEdgeWithMatch] call it makes, if any. *)
Definition syncEdgeFor (DomainMap : gmap string string) (node : GraphNode)
    : option RawEdge :=
  let '(isUser, isGroup) := kindFlags (Kinds node) in
  if negb isUser && negb isGroup then None
  else
    let name := asString (Properties node !! "name") in
    let username := asString (Properties node !! "username") in
    let domain := asString (Properties node !! "domain") in
    let id := ID node in
    if decide (name = "" ∨ domain = "") then None
    else
      match DomainMap !! GoStrings.ToUpper domain with
      | Some fqdn =>
          let adPrincipalID := GoStrings.ToUpper username +:+ "@" +:+ fqdn in
          if isUser then
            Some {| REKind := "SyncsTovCenterUser"; REStartID := adPrincipalID;
                    REStartMatchBy := "name"; REEndID := id; REEndMatchBy := "";
                    REProperties := ∅ |}
          else if isGroup then
            Some {| REKind := "SyncsTovCenterGroup"; REStartID := adPrincipalID;
                    REStartMatchBy := "name"; REEndID := id; REEndMatchBy := "";
                    REProperties := ∅ |}
          else None
      | None => None
      end.



Section WithBuilder.

(** The builder and the graph data of [internal/graph], which [Run] only
    calls, and [encoding/json]'s rendering of the graph data. *)
Variable Builder : Type.
Variable GraphData : Type.
Variable NewBuilder : Builder.
Variable AddRawNode : list string → string → gmap string value → Builder → Builder.
Variable AddRawEdgeWithMatch : RawEdge → Builder → Builder.
Variable Export : Builder → GraphData.
Variable encodeGraphData : GraphData → string.

(** Step 3 of [Run]: the loop over the nodes of the loaded graph. *)
Definition syncLoop (DomainMap : gmap string string) (nodes : list GraphNode)
    (gb : Builder) : Builder :=
  foldl (λ gb node,
           match syncEdgeFor DomainMap node with
           | Some e => AddRawEdgeWithMatch e gb
           | None => gb
           end)
        gb nodes.

(** [Run] from step 2 on, given the domain map of step 1 and the nodes
    and edges parsed from the input file: the bytes written to the output
    file. *)
Definition Run (DomainMap : gmap string string) (nodes : list GraphNode)
    (edges : list RawEdge) : string :=
  let gb := NewBuilder in
  let gb := foldl (λ gb n, AddRawNode (Kinds n) (ID n) (Properties n) gb) gb nodes in
  let gb := foldl (λ gb e, AddRawEdgeWithMatch e gb) gb edges in
  let gb := syncLoop DomainMap nodes gb in
  let finalData := Export gb in
  Output.WriteToFile (encodeGraphData finalData).

End WithBuilder.

(** The calls the loop makes, in order: the loop run on a builder that
    only records them. *)
Definition syncCalls (DomainMap : gmap string string) (nodes : list GraphNode)
    : list RawEdge :=
  syncLoop (list RawEdge) (λ e log, log ++ [e]) DomainMap nodes [].

End Postprocess.

(** ** The merge and the writer of [main.go] *)

Module Main.
Import Graph.

(** The inner loop of the merge: properties of a node already present. *)
Definition mergeProperties (existing incoming : gmap string value)
    : gmap string value :=
  map_fold (λ k v acc,
              match acc !! k with
              | None => <[k := v]> acc
              | Some _ => acc
              end)
           existing incoming.

(** One turn of [for _, node := range gb.NodesByID]. *)
Definition mergeNode (merged : gmap string GraphNode) (node : GraphNode)
    : gmap string GraphNode :=
  match merged !! ID node with
  | Some existing =>
      <[ID node := {| Kinds := Kinds existing;
                      ID := ID existing;
                      Properties := mergeProperties (Properties existing)
                                                    (Properties node) |}]> merged
  | None => <[ID node := node]> merged
  end.

(** What the merge stores for a node present on both sides. *)
Definition mergedNode (target other : GraphNode) : GraphNode :=
  {| Kinds := Kinds target;
     ID := ID target;
     Properties := mergeProperties (Properties target) (Properties other) |}.

(** Every node is stored under its own id, as [EnsureNode] stores it. *)
Definition keyedByID (nodes : gmap string GraphNode) : Prop :=
  ∀ id n, nodes !! id = Some n → ID n = id.

(** The merge of one collected graph [gb] into [mergedGraph]. *)
Definition mergeInto (mergedGraph gb : GraphBuilder) : GraphBuilder :=
  {| NodesByID := map_fold (λ _ node acc, mergeNode acc node)
                           (NodesByID mergedGraph) (NodesByID gb);
     Edges := foldl (λ edges edge, edges ++ [edge]) (Edges mergedGraph) (Edges gb);
     EdgeKeys := EdgeKeys mergedGraph |}.

(** The loop over the servers, given what each collection produced
    ([None]: the collection failed and the server is skipped). *)
Definition mergeAll (collected : list (option GraphBuilder)) : GraphBuilder :=
  foldl (λ mergedGraph r,
           match r with
           | Some gb => mergeInto mergedGraph gb
           | None => mergedGraph
           end)
        NewGraphBuilder collected.

Definition sanitizeValue (v : value) : value :=
  match v with
  | VNil => VStr ""
  | _ => v
  end.

Definition sanitizeProperties (props : gmap string value) : gmap string value :=
  sanitizeValue <$> props.

Definition sanitizeGraph (out : list GraphNode * list GraphEdge)
    : list GraphNode * list GraphEdge :=
  ((λ n, {| Kinds := Kinds n; ID := ID n;
            Properties := sanitizeProperties (Properties n) |}) <$> out.1,
   (λ e, {| Kind := Kind e; StartID := StartID e; EndID := EndID e;
            EdgeProperties := sanitizeProperties (EdgeProperties e) |}) <$> out.2).

Definition bom : string :=
  String (ascii_of_nat 239) (String (ascii_of_nat 187)
    (String (ascii_of_nat 191) EmptyString)).

Section WithEncoder.

(** [encoding/json]'s rendering of the output document. *)
Variable jsonEncode : list GraphNode * list GraphEdge → string.

(** The bytes [main] hands to [ioutil.WriteFile]. *)
Definition fullData (mergedGraph : GraphBuilder) : string :=
  let finalOutput := sanitizeGraph (ToOutput mergedGraph) in
  let data := jsonEncode finalOutput in
  bom +:+ data.

End WithEncoder.

End Main.

(** ** Sequences of calls on one node *)

Module Runs.
Import Graph.

(** The arguments of one [EnsureNode] call on a fixed node id. *)
Record EnsureCall : Type := {
  callKinds : list string;
  callProps : gmap string value
}.

(** The calls made one after the other. *)
Definition ensureAll (nodeID : string) (calls : list EnsureCall)
    (gb : GraphBuilder) : GraphBuilder :=
  foldl (λ gb c, EnsureNode (callKinds c) nodeID (callProps c) gb) gb calls.

Definition kindsOf (gb : GraphBuilder) (nodeID : string) : list string :=
  match NodesByID gb !! nodeID with
  | Some n => Kinds n
  | None => []
  end.

Definition propsOf (gb : GraphBuilder) (nodeID : string) : gmap string value :=
  match NodesByID gb !! nodeID with
  | Some n => Properties n
  | None => ∅
  end.

(** Every kind the calls supply, normalized. *)
Definition suppliedKinds (calls : list EnsureCall) : list string :=
  calls ≫= λ c, FormatNodeKind <$> callKinds c.

End Runs.

(** ** Sample values *)

Module Samples.
Import Graph Collector Bloodhound Postprocess.


Definition adminRole : AuthorizationRole :=
  {| RoleId := 1; Name := "Admin"; Privilege := ["System.View"; "VM.PowerOn"] |}.

Definition noAccessRole : AuthorizationRole :=
  {| RoleId := 5; Name := "No Access"; Privilege := [] |}.

Definition underscoreRole : AuthorizationRole :=
  {| RoleId := 6; Name := "No_Access"; Privilege := [] |}.

Definition demoRoles : gmap Z AuthorizationRole :=
  <[1%Z := adminRole]> (<[5%Z := noAccessRole]> {[ 6%Z := underscoreRole ]}).

Definition demoPrivileges : gmap string AuthorizationPrivilege :=
  {[ "System.View" := {| PrivId := "System.View"; PrivName := "View";
                         PrivGroupName := "System" |} ]}.

(** An assignment to the user CORP\jdoe on a folder. *)
Definition demoPerm (roleID : Z) (propagate : bool) : Permission :=
  {| Entity := Some {| RefType := "Folder"; Value := "group-d1" |};
     Principal := "CORP\jdoe"; Group := false; PermRoleId := roleID;
     Propagate := propagate |}.

(** [processPermission] against the sample source. *)
Definition process (perm : Permission) (gb : GraphBuilder) : GraphBuilder :=
  processPermission "vc" (λ _, None) perm demoRoles demoPrivileges gb.

Definition demoClient : Client :=
  {| URL := "https://bh.example"; KeyID := "kid"; KeySecret := "abc" |}.

Definition demoRequest : Request :=
  {| Method := "GET"; Path := "/api/v2/available-domains"; RawQuery := "";
     Body := None; Header := ∅ |}.

Definition principalNode (kind id name domain username : string) : GraphNode :=
  {| Kinds := [kind]; ID := id;
     Properties := <["name" := VStr name]>
                     (<["domain" := VStr domain]>
                        (<["username" := VStr username]> ∅)) |}.

(** The user of principal CORP\admin. *)
Definition adminNode : GraphNode :=
  principalNode "vCenter_User" "user:vc:CORP\admin" "CORP\admin" "CORP" "admin".


(** A user of another domain. *)
Definition otherNode : GraphNode :=
  principalNode "vCenter_User" "user:vc:OTHER\bob" "OTHER\bob" "OTHER" "bob".

(** Three calls on one node: the last one omits "name". *)
Definition demoCalls : list Runs.EnsureCall :=
  [ {| Runs.callKinds := ["User"];
       Runs.callProps := {[ "name" := VStr "first" ]} |};
    {| Runs.callKinds := ["User"];
       Runs.callProps := <["name" := VStr "second"]> {[ "domain" := VStr "CORP" ]} |};
    {| Runs.callKinds := ["Group"];
       Runs.callProps := {[ "moid" := VStr "m-1" ]} |} ].

Definition targetGraph : GraphBuilder :=
  AddEdge "CONTAINS" "x" "y" ∅
    (EnsureNode ["VM"] "x" {[ "name" := VStr "first" ]} NewGraphBuilder).

Definition otherGraph : GraphBuilder :=
  AddEdge "CONTAINS" "x" "y" ∅
    (EnsureNode ["Folder"] "y" {[ "name" := VStr "why" ]}
       (EnsureNode ["Folder"] "x"
          (<["name" := VStr "second"]> {[ "moid" := VStr "vm-1" ]})
          NewGraphBuilder)).

End Samples.

(** ** Sequences of store operations *)

Module Ops.
Import Graph.

(** One call on the store: [EnsureNode], or [AddEdge] with the order in
    which its [range] loop visits the property keys. *)
Inductive Op : Type :=
  | OpNode (kinds : list string) (nodeID : string) (properties : gmap string value)
  | OpEdge (visit : list string) (kind startID endID : string)
           (properties : gmap string value).

Definition applyOp (gb : GraphBuilder) (op : Op) : GraphBuilder :=
  match op with
  | OpNode kinds nodeID properties => EnsureNode kinds nodeID properties gb
  | OpEdge visit kind startID endID properties =>
      AddEdgeIn visit kind startID endID properties gb
  end.

Definition run (ops : list Op) (gb : GraphBuilder) : GraphBuilder :=
  foldl applyOp gb ops.

(** The visiting order of an [AddEdge] call enumerates the keys of its
    property map. *)
Definition validOp (op : Op) : Prop :=
  match op with
  | OpNode _ _ _ => True
  | OpEdge visit _ _ _ properties => visit ≡ₚ rangeKeys properties
  end.

(** The store invariant: one edge per key, every key written as [true],
    every node filed under its own id, every edge built by [AddEdge] and
    its key remembered. *)
Definition consistent (gb : GraphBuilder) : Prop :=
  length (Edges gb) = size (EdgeKeys gb)
  ∧ (∀ k b, EdgeKeys gb !! k = Some b → b = true)
  ∧ (∀ id n, NodesByID gb !! id = Some n → ID n = id)
  ∧ Forall (λ e, ∃ kind s t P,
                e = newEdge kind s t P ∧ seen gb (edgeKey kind s t P) = true)
           (Edges gb).

(** [gb'] holds all that [gb] holds: the edges of [gb] first and in
    order, every key [gb] has seen, and every node of [gb], with its id,
    its kinds first and in order, and all its property keys. *)
Definition grows (gb gb' : GraphBuilder) : Prop :=
  Edges gb `prefix_of` Edges gb'
  ∧ (∀ k, seen gb k = true → seen gb' k = true)
  ∧ (∀ id n, NodesByID gb !! id = Some n →
       ∃ n', NodesByID gb' !! id = Some n'
             ∧ ID n' = ID n
             ∧ Kinds n `prefix_of` Kinds n'
             ∧ ∀ k, is_Some (Properties n !! k) → is_Some (Properties n' !! k)).

(** What later merges leave of a node [t] the merged graph holds: the
    kinds, the id and every property of [t]. *)
Definition kept (t m : GraphNode) : Prop :=
  Kinds m = Kinds t ∧ ID m = ID t
  ∧ ∀ k v, Properties t !! k = Some v → Properties m !! k = Some v.

(** One [strings.ReplaceAll] of a single byte by a single byte. *)
Definition swapByte (a b c : ascii) : ascii := if decide (c = a) then b else c.

(** The three replacements of [FormatNodeKind] on one byte. *)
Definition cleanByte (c : ascii) : ascii :=
  if decide (c = "."%char) then "_"%char
  else if decide (c = "-"%char) then "_"%char
  else if decide (c = " "%char) then "_"%char
  else c.

End Ops.

(** ** The permission pass: [CollectPermissions] *)

Module Permissions.
Import Graph Collector.

(** What [processPermission] reads from the role of an assignment: the
    display name, the privilege ids, their names, the sorted privilege
    groups and the privilege count; all empty for an unknown role id. *)
Definition roleDetails (roles : gmap Z AuthorizationRole)
    (privMap : gmap string AuthorizationPrivilege) (roleID : Z)
    : string * list string * list string * list string * nat :=
  match roles !! roleID with
  | Some r =>
      let '(privNames, groupSet) := privilegeDetails privMap (Privilege r) in
      (Name r, Privilege r, privNames,
       GoStrings.sortStrings (rangeKeys groupSet), length (Privilege r))
  | None => ("", [], [], [], 0%nat)
  end.

(** The role name [processPermission] tests with [isNoAccess]: empty for
    an unknown role id. *)
Definition roleNameOf (roles : gmap Z AuthorizationRole) (roleID : Z) : string :=
  match roles !! roleID with
  | Some r => Name r
  | None => ""
  end.

(** The name one privilege id contributes to [privNames]. *)
Definition privNameOf (privMap : gmap string AuthorizationPrivilege)
    (pid : string) : string :=
  match privMap !! pid with
  | Some p => PrivName p
  | None => pid
  end.

(** The map literal [props] of [processPermission]. *)
Definition edgeProps (roleID : Z) (roleName : string) (propagate : bool)
    (privIds privNames privGroups : list string) (privCount : nat)
    : gmap string value :=
  <["roleId" := VInt roleID]>
    (<["roleName" := VStr roleName]>
       (<["propagate" := VBool propagate]>
          (<["privilegeIds" := VStrs privIds]>
             (<["privilegeNames" := VStrs privNames]>
                (<["privilegeGroups" := VStrs privGroups]>
                   (<["privilegeCount" := VInt (Z.of_nat privCount)]> ∅)))))).

(** The properties of the edge an assignment gets. *)
Definition grantProps (roles : gmap Z AuthorizationRole)
    (privMap : gmap string AuthorizationPrivilege) (perm : Permission)
    : gmap string value :=
  let '(roleName, privIds, privNames, privGroups, privCount) :=
    roleDetails roles privMap (PermRoleId perm) in
  edgeProps (PermRoleId perm) roleName (Propagate perm)
            privIds privNames privGroups privCount.

(** The map [nodeProps] of [processPermission]: the placeholder name only
    for an entity the store does not hold yet. *)
Definition entityProps (gb : GraphBuilder) (entityID : string)
    (entityRef : ManagedObjectReference) : gmap string value :=
  match NodesByID gb !! entityID with
  | None =>
      <["name" := VStr (getID entityRef)]>
        (<["moid" := VStr (getID entityRef)]> ∅)
  | Some _ => <["moid" := VStr (getID entityRef)]> ∅
  end.

(** The two ids an edge joins. *)
Definition startOf (e : GraphEdge) : string := default "" (StartID e !! "value").
Definition endOf (e : GraphEdge) : string := default "" (EndID e !! "value").

(** No edge of the store dangles: both its ends are stored nodes. *)
Definition closed (gb : GraphBuilder) : Prop :=
  ∀ e, e ∈ Edges gb →
    is_Some (NodesByID gb !! startOf e) ∧ is_Some (NodesByID gb !! endOf e).

(** As [closed], but edges may end at the id [X], stored or not. *)
Definition closedBut (X : string) (gb : GraphBuilder) : Prop :=
  ∀ e, e ∈ Edges gb →
    (is_Some (NodesByID gb !! startOf e) ∨ startOf e = X)
    ∧ (is_Some (NodesByID gb !! endOf e) ∨ endOf e = X).

End Permissions.

(** ** Privileges, roles and group members: [CollectPermissions],
    [CollectGroupMemberships], [Collect] *)

Module Identity.
Import Graph Collector Permissions.

(** [mo.AuthorizationManager]: the two properties that are read. *)
Record AuthorizationManager : Type := {
  PrivilegeList : list AuthorizationPrivilege;
  RoleList : list AuthorizationRole
}.

(** One element of the answer to [RetrieveUserGroups]: a
    [*types.UserSearchResult] with its principal, or a value of another
    dynamic type. *)
Inductive BaseUserSearchResult : Type :=
  | UserSearchResult (principal : string)
  | OtherSearchResult.

(** How a call ends: it returns, with its error value and the store as
    the call left it, or it panics. *)
Inductive Outcome : Type :=
  | Returns (err : option string) (gb : GraphBuilder)
  | Panics.

Section WithService.

(** [c.Config.Host]. *)
Variable Host : string.

(** [RetrieveOne(ref, ["host"])], as in [getEntityKindAndID]. *)
Variable retrieveHosts : ManagedObjectReference → option (list ManagedObjectReference).

(** [methods.RetrieveUserGroups] for a domain, a group ([BelongsToGroup])
    and the flag [FindUsers]: an error or the results. *)
Variable retrieveUserGroups : string → string → bool → string + list BaseUserSearchResult.

Definition privilegeNodeID (pid : string) : string :=
  "privilege:" +:+ Host +:+ ":" +:+ pid.

Definition roleNodeID (roleId : Z) : string :=
  "role:" +:+ Host +:+ ":" +:+ pretty roleId.

Definition groupNodeID (principal : string) : string :=
  "group:" +:+ Host +:+ ":" +:+ principal.

Definition privilegeProps (p : AuthorizationPrivilege) : gmap string value :=
  <["privId" := VStr (PrivId p)]>
    (<["name" := VStr (PrivName p)]>
       (<["group" := VStr (PrivGroupName p)]> ∅)).

(** One turn of the loop over [authManager.PrivilegeList]; the state is
    [privMap] and the store. *)
Definition collectPrivilege
    (st : gmap string AuthorizationPrivilege * GraphBuilder)
    (p : AuthorizationPrivilege)
    : gmap string AuthorizationPrivilege * GraphBuilder :=
  (<[PrivId p := p]> st.1,
   EnsureNode ["Privilege"] (privilegeNodeID (PrivId p)) (privilegeProps p) st.2).

(** One turn of the loop over [role.Privilege]; the state is [privGroups]
    and the store. *)
Definition rolePrivilege (privMap : gmap string AuthorizationPrivilege)
    (roleID : string) (st : gmap string bool * GraphBuilder) (pid : string)
    : gmap string bool * GraphBuilder :=
  match privMap !! pid with
  | Some p =>
      (<[PrivGroupName p := true]> st.1,
       AddEdge "HAS_PRIVILEGE" roleID (privilegeNodeID pid) ∅ st.2)
  | None => st
  end.

Definition roleProps (role : AuthorizationRole) (pgList : list string)
    : gmap string value :=
  <["roleId" := VInt (RoleId role)]>
    (<["name" := VStr (Name role)]>
       (<["privilegeCount" := VInt (Z.of_nat (length (Privilege role)))]>
          (<["privilegeGroups" := VStrs pgList]> ∅))).

(** One turn of the loop over [authManager.RoleList]; the state is
    [rolesByID] and the store.  [order] gives the order in which
    [for k := range privGroups] yields the keys at this turn. *)
Definition collectRole (privMap : gmap string AuthorizationPrivilege)
    (st : gmap Z AuthorizationRole * GraphBuilder)
    (turn : AuthorizationRole * (gmap string bool → list string))
    : gmap Z AuthorizationRole * GraphBuilder :=
  let role := turn.1 in
  let roleID := roleNodeID (RoleId role) in
  let loop := foldl (rolePrivilege privMap roleID) (∅, st.2) (Privilege role) in
  let pgList := turn.2 loop.1 in
  (<[RoleId role := role]> st.1,
   EnsureNode ["Role"] roleID (roleProps role pgList) loop.2).

(** The slice a caller of [retrieveAllPermissions] goes on with: nil when
    the call failed. *)
Definition permissionsOf (perms : string + list Permission) : list Permission :=
  match perms with
  | inl _ => []
  | inr l => l
  end.

(** [CollectPermissions].  [authManager] is [None] for a nil
    [ServiceContent.AuthorizationManager] and an error when [RetrieveOne]
    fails; [orders i] is the key order at the turn of the role at index
    [i]; [perms] is the answer of [retrieveAllPermissions]. *)
Definition CollectPermissions
    (authManager : option (string + AuthorizationManager))
    (orders : nat → gmap string bool → list string)
    (perms : string + list Permission)
    (gb : GraphBuilder) : option string * GraphBuilder :=
  match authManager with
  | None => (Some "no authorization manager found", gb)
  | Some (inl err) => (Some err, gb)
  | Some (inr am) =>
      let privs := foldl collectPrivilege (∅, gb) (PrivilegeList am) in
      let privMap := privs.1 in
      let roles := foldl (collectRole privMap) (∅, privs.2)
                         (imap (λ i role, (role, orders i)) (RoleList am)) in
      let rolesByID := roles.1 in
      (None,
       foldl (λ gb perm,
                processPermission Host retrieveHosts perm rolesByID privMap gb)
             roles.2 (permissionsOf perms))
  end.

Definition memberProps (principal : string) (isGroup : bool) : gmap string value :=
  let '(domain, username) := Collector_parsePrincipal principal in
  <["name" := VStr principal]>
    (<["domain" := VStr domain]>
       (<["username" := VStr username]>
          (<["isGroup" := VBool isGroup]> ∅))).

(** One turn of the loop over [res.Returnval] in [findMembers]. *)
Definition addMember (parentGID : string) (findUsers : bool)
    (gb : GraphBuilder) (baseResult : BaseUserSearchResult) : GraphBuilder :=
  match baseResult with
  | OtherSearchResult => gb
  | UserSearchResult principal =>
      let '(id, kinds, isGroup) :=
        if findUsers
        then ("user:" +:+ Host +:+ ":" +:+ principal, ["User"], false)
        else ("group:" +:+ Host +:+ ":" +:+ principal, ["Group"], true) in
      let gb := EnsureNode kinds id (memberProps principal isGroup) gb in
      AddEdge "MEMBER_OF" id parentGID ∅ gb
  end.

Definition findMembers (groupPrincipal domain parentGID : string)
    (findUsers : bool) (gb : GraphBuilder) : GraphBuilder :=
  match retrieveUserGroups domain groupPrincipal findUsers with
  | inl _ => gb
  | inr results => foldl (addMember parentGID findUsers) gb results
  end.

(** The map [groupsWithPermissions]. *)
Definition groupsWithPermissions (perms : list Permission) : gmap string bool :=
  foldl (λ m perm, if Group perm then <[Principal perm := true]> m else m) ∅ perms.

(** One loop over [domains]: users first, then nested groups. *)
Definition scanDomains (name parentGID : string) (domains : list string)
    (gb : GraphBuilder) : GraphBuilder :=
  foldl (λ gb domain,
           findMembers name domain parentGID false
             (findMembers name domain parentGID true gb))
        gb domains.

(** One turn of the loop over [groupsWithPermissions]. *)
Definition scanGroup (domains : list string) (gb : GraphBuilder)
    (groupPrincipal : string) : GraphBuilder :=
  let parentGID := groupNodeID groupPrincipal in
  let gb := scanDomains groupPrincipal parentGID domains gb in
  if GoStrings.Contains groupPrincipal "\" then
    let parts := GoStrings.SplitN2 groupPrincipal "\" in
    if decide (length parts = 2%nat)
    then scanDomains (parts !!! 1%nat) parentGID domains gb
    else gb
  else gb.

(** [CollectGroupMemberships].  [userDirectory] is [None] for a nil
    [ServiceContent.UserDirectory], else the domain list read (empty when
    the read fails); [authManagerRef] tells whether
    [ServiceContent.AuthorizationManager] is non-nil: the code
    dereferences it unchecked.  [visit] is the order in which the loop
    ranges over [groupsWithPermissions]. *)
Definition CollectGroupMemberships (userDirectory : option (list string))
    (authManagerRef : bool) (perms : string + list Permission)
    (visit : gmap string bool → list string) (gb : GraphBuilder) : Outcome :=
  match userDirectory with
  | None => Returns (Some "no user directory found") gb
  | Some domains =>
      if authManagerRef then
        Returns None
          (foldl (scanGroup domains) gb
                 (visit (groupsWithPermissions (permissionsOf perms))))
      else Panics
  end.

(** [Collect], after a call of [Connect] that gives [connect].
    [infrastructure] stands for [CollectInfrastructure], whose error is
    logged and dropped; [perms1] and [perms2] are the answers to the two
    calls of [retrieveAllPermissions]. *)
Definition Collect (connect : option string)
    (infrastructure : GraphBuilder → GraphBuilder)
    (authManager : option (string + AuthorizationManager))
    (orders : nat → gmap string bool → list string)
    (perms1 perms2 : string + list Permission)
    (userDirectory : option (list string))
    (visit : gmap string bool → list string)
    (gb : GraphBuilder) : Outcome :=
  match connect with
  | Some err => Returns (Some err) gb
  | None =>
      let gb := infrastructure gb in
      let gb := (CollectPermissions authManager orders perms1 gb).2 in
      match CollectGroupMemberships userDirectory
              (bool_decide (authManager ≠ None)) perms2 visit gb with
      | Returns _ gb => Returns None gb
      | Panics => Panics
      end
  end.

(** A [MEMBER_OF] edge into the node [parentGID]. *)
Definition memberEdge (parentGID : string) (e : GraphEdge) : Prop :=
  Kind e = "vCenter_MemberOf" ∧ endOf e = parentGID.

(** A [MEMBER_OF] edge into the node of one of [groups]. *)
Definition groupEdge (groups : list string) (e : GraphEdge) : Prop :=
  Kind e = "vCenter_MemberOf" ∧ ∃ g, g ∈ groups ∧ endOf e = groupNodeID g.

End WithService.

(** Every edge of [gb'] is an edge of [gb] or satisfies [Q]. *)
Definition addsOnly (Q : GraphEdge → Prop) (gb gb' : GraphBuilder) : Prop :=
  ∀ e, e ∈ Edges gb' → e ∈ Edges gb ∨ Q e.

(** What a membership query for the group node [parentGID] does to the
    store. *)
Definition keeps (parentGID : string) (gb gb' : GraphBuilder) : Prop :=
  Ops.grows gb gb' ∧ addsOnly (memberEdge parentGID) gb gb'
  ∧ (closed gb → is_Some (NodesByID gb !! parentGID) → closed gb').

(** A small service for examples: one privilege, one role, the group
    CORP\admins with one permission and one member. *)
Definition demoManager : AuthorizationManager :=
  {| PrivilegeList := [ {| PrivId := "System.View"; PrivName := "View";
                           PrivGroupName := "System" |} ];
     RoleList := [ {| RoleId := 7; Name := "Viewer";
                      Privilege := ["System.View"; "VM.PowerOn"] |} ] |}.

Definition demoGroupPerm : Permission :=
  {| Entity := Some {| RefType := "Datacenter"; Value := "datacenter-2" |};
     Principal := "CORP\admins"; Group := true; PermRoleId := 7;
     Propagate := true |}.

Definition demoDirectory (domain group : string) (findUsers : bool)
    : string + list BaseUserSearchResult :=
  if findUsers && bool_decide (group = "admins")
  then inr [UserSearchResult "CORP\alice"; OtherSearchResult]
  else if findUsers then inl "not found"
  else inr [].

Definition demoCollect : Outcome :=
  Collect "vc" (λ _, None) demoDirectory None (λ gb, gb) (Some (inr demoManager))
          (λ _, rangeKeys) (inr [demoGroupPerm]) (inr [demoGroupPerm])
          (Some ["CORP"]) rangeKeys NewGraphBuilder.

End Identity.

(** ** Setting up a client: [NewClient], [NewProcessor], [UploadSchema] *)

Module Setup.
Import Graph Bloodhound Postprocess.

(** Membership of a byte in a cutset of ASCII bytes. *)
Definition inCutset (c : ascii) (cutset : string) : bool :=
  bool_decide (c ∈ list_ascii_of_string cutset).

(** [strings.TrimRight] for a cutset of ASCII bytes: the trailing bytes
    that are in the cutset are removed. *)
Fixpoint TrimRight (s cutset : string) : string :=
  match s with
  | EmptyString => EmptyString
  | String c s' =>
      match TrimRight s' cutset with
      | EmptyString => if inCutset c cutset then EmptyString else String c EmptyString
      | t => String c t
      end
  end.

(** The last byte of a string. *)
Fixpoint lastByte (s : string) : option ascii :=
  match s with
  | EmptyString => None
  | String c EmptyString => Some c
  | String _ s' => lastByte s'
  end.

(** A run of [n] slashes. *)
Fixpoint slashes (n : nat) : string :=
  match n with
  | O => EmptyString
  | S n' => String "/"%char (slashes n')
  end.

(** [bloodhound.NewClient]; the [http.Client] with its timeout is left
    out. *)
Definition NewClient (url keyID keySecret : string) : Client :=
  let url := TrimRight url "/" in
  {| URL := url; KeyID := keyID; KeySecret := keySecret |}.

(** The URL [GetDomainMap] asks. *)
Definition domainsURL (c : Client) : string := URL c +:+ "/api/v2/available-domains".

(** The first lines of [UploadSchema]: the base URL the requests go to. *)
Definition uploadBaseURL (baseURL : string) : string :=
  let baseURL := if GoStrings.HasPrefix baseURL "http" then baseURL
                 else "http://" +:+ baseURL in
  TrimRight baseURL "/".

(** [login], given the outcome of the POST: a transport error, or the
    status, the body text and the decoding of the body, which is an error
    or the session token. *)
Definition login (resp : string + (Z * string * (string + string)))
    : string + string :=
  match resp with
  | inl err => inl err
  | inr (status, body, decoded) =>
      if decide (status ≠ 200%Z)
      then inl ("status " +:+ pretty status +:+ ": " +:+ body)
      else match decoded with
           | inl err => inl err
           | inr token =>
               if decide (token = "") then inl "no session token in response"
               else inr token
           end
  end.

(** [upload], given the outcome of building and sending the request: an
    error, or the status and the body text. *)
Definition upload (resp : string + (Z * string)) : option string :=
  match resp with
  | inl err => Some err
  | inr (status, body) =>
      if decide (status < 200 ∨ status >= 300)%Z
      then Some ("status " +:+ pretty status +:+ ": " +:+ body)
      else None
  end.

(** [UploadSchema]: the error returned.  [post] answers the login request
    to a URL, [readFile] is the outcome of reading the model file, [send]
    answers the upload to a URL with a token and the model data. *)
Definition UploadSchema
    (post : string → string + (Z * string * (string + string)))
    (readFile : string + string)
    (send : string → string → string → string + (Z * string))
    (baseURL : string) : option string :=
  let baseURL := uploadBaseURL baseURL in
  match login (post (baseURL +:+ "/api/v2/login")) with
  | inl err => Some ("login failed: " +:+ err)
  | inr token =>
      match readFile with
      | inl err => Some ("failed to read model file: " +:+ err)
      | inr modelData =>
          match upload (send (baseURL +:+ "/api/v2/custom-nodes") token modelData) with
          | Some err => Some ("upload failed: " +:+ err)
          | None => None
          end
      end
  end.




Section WithBuilder.

Variable Builder : Type.
Variable GraphData : Type.
Variable NewBuilder : Builder.
Variable AddRawNode : list string → string → gmap string value → Builder → Builder.
Variable AddRawEdgeWithMatch : RawEdge → Builder → Builder.
Variable Export : Builder → GraphData.
Variable encodeGraphData : GraphData → string.


End WithBuilder.

End Setup.

(** ** The sync of [vCenterNeo4j/main.go] *)

Module Neo4jSync.
Import Graph Postprocess.


(** The body of the loop of [syncNodes] up to [targetName]: the name of
    the directory principal a node is linked to, if any. *)
Definition targetName (domainMap : gmap string string)
    (props : gmap string value) : option string :=
  let username := asString (props !! "username") in
  let domain := asString (props !! "domain") in
  if decide (username = "" ∨ domain = "") then None
  else
    match domainMap !! GoStrings.ToUpper domain with
    | None => None
    | Some fqdn => Some (GoStrings.ToUpper username +:+ "@" +:+ fqdn)
    end.

(** One [MERGE] query of [syncNodes]: its labels, relationship type and
    parameters. *)
Record MergeQuery : Type := {
  queryAdLabel : string;
  queryVLabel : string;
  queryRelType : string;
  queryAdName : string;
  queryVID : Z
}.

(** [syncNodes]: the [MERGE] queries sent, in order.  [result] is the
    answer to the node query: an error, or one record per node with its id
    and properties, if the record has the value. *)
Definition syncNodes (domainMap : gmap string string) (vLabel relType adLabel : string)
    (result : string + list (option (Z * gmap string value))) : list MergeQuery :=
  match result with
  | inl _ => []
  | inr records =>
      foldl (λ sent record,
               match record with
               | None => sent
               | Some (id, props) =>
                   match targetName domainMap props with
                   | None => sent
                   | Some name =>
                       sent ++ [ {| queryAdLabel := adLabel; queryVLabel := vLabel;
                                    queryRelType := relType; queryAdName := name;
                                    queryVID := id |} ]
                   end
               end)
            [] records
  end.

End Neo4jSync.

(** ** Nested property values: [sanitizeValue] of [main.go] *)

Module Sanitize.
Import Graph.

(** A value of type [interface{}] as [sanitizeValue] tells them apart:
    nil, the scalar types it passes through, a string slice, a slice and a
    map of further values, and any other type, given by its rendering with
    the verb [%v].  A float is given by its bits. *)
#[local] Unset Elimination Schemes.
Inductive jvalue : Type :=
  | JNil
  | JBool (b : bool)
  | JInt (z : Z)
  | JFloat (bits : Z)
  | JStr (s : string)
  | JStrs (l : list string)
  | JList (l : list jvalue)
  | JMap (m : gmap string jvalue)
  | JOther (text : string).
#[local] Set Elimination Schemes.

Fixpoint sanitizeValue (v : jvalue) : jvalue :=
  match v with
  | JNil => JStr ""
  | JList val => JList (sanitizeValue <$> val)
  | JStrs val => JStrs val
  | JMap val => JMap (sanitizeValue <$> val)
  | JBool val => JBool val
  | JInt val => JInt val
  | JFloat val => JFloat val
  | JStr val => JStr val
  | JOther text => JStr text
  end.




End Sanitize.

(** ** Virtual machines, datastores and networks: [processVM],
    [processDatastore], [processNetwork], [getIPAddresses] *)

Module Inventory.
Import Graph Collector Permissions.

(** [types.GuestNicInfo]: the addresses of one adapter; a nil slice is the
    empty list. *)
Record GuestNicInfo : Type := {
  NicIpAddress : list string
}.

(** [types.GuestInfo]: the fields that are read. *)
Record GuestInfo : Type := {
  ToolsStatus : string;
  ToolsVersion : string;
  HostName : string;
  IpAddress : string;
  Net : list GuestNicInfo
}.

(** [types.VirtualMachineConfigInfo] with its hardware. *)
Record ConfigInfo : Type := {
  GuestFullName : string;
  GuestId : string;
  Version : string;
  Uuid : string;
  Template : bool;
  NumCPU : Z;
  NumCoresPerSocket : Z;
  MemoryMB : Z
}.

(** [mo.VirtualMachine] as [RetrieveOne] fills it.  [BootTime] is the
    text [BootTime.String()] gives, [Storage] holds the committed and the
    uncommitted bytes. *)
Record VirtualMachine : Type := {
  VmName : string;
  Config : option ConfigInfo;
  PowerState : string;
  ConnectionState : string;
  BootTime : option string;
  Guest : option GuestInfo;
  Storage : option (Z * Z);
  VmDatastore : list ManagedObjectReference;
  VmNetwork : list ManagedObjectReference
}.

(** [mo.Datastore]: the name and the summary. *)
Record Datastore : Type := {
  DsName : string;
  DsType : string;
  Capacity : Z;
  FreeSpace : Z;
  Accessible : bool;
  Url : string
}.

(** Addition on [int64]. *)
Definition addInt64 (a b : Z) : Z :=
  ((a + b + 2 ^ 63) mod 2 ^ 64 - 2 ^ 63)%Z.

(** The loop over [guest.Net] that fills [ipSet] in [processVM]. *)
Definition ipSetOf (guest : GuestInfo) : gmap string bool :=
  let ipSet : gmap string bool :=
    if decide (IpAddress guest ≠ "") then {[ IpAddress guest := true ]} else ∅ in
  foldl (λ ipSet net, foldl (λ ipSet ip, <[ip := true]> ipSet) ipSet (NicIpAddress net))
        ipSet (Net guest).

(** The slice [ips] of [getIPAddresses] before duplicates are removed. *)
Definition allIPs (guest : GuestInfo) : list string :=
  let ips := if decide (IpAddress guest ≠ "") then [IpAddress guest] else [] in
  foldl (λ ips nic, ips ++ NicIpAddress nic) ips (Net guest).

(** The loop of [getIPAddresses] that removes duplicates; the state is
    [seen] and [ret]. *)
Definition unique (ips : list string) : gmap string bool * list string :=
  foldl (λ st ip,
           if default false (st.1 !! ip) then st
           else (<[ip := true]> st.1, st.2 ++ [ip]))
        (∅, []) ips.

Definition getIPAddresses (guest : GuestInfo) : list string :=
  (unique (allIPs guest)).2.

Section WithService.

(** [c.Config.Host]. *)
Variable Host : string.

(** [bytesToHuman], which formats floating-point numbers, on the integer
    it is given. *)
Variable bytesToHuman : Z → string.

(** [RetrieveOne] for a datastore, a network (its name) and a virtual
    machine: [None] when the call fails.  [Reference()] of the object
    retrieved is the reference asked for. *)
Variable retrieveDatastore : ManagedObjectReference → option Datastore.
Variable retrieveNetwork : ManagedObjectReference → option string.
Variable retrieveVM : ManagedObjectReference → option VirtualMachine.

Definition datastoreID (ref : ManagedObjectReference) : string :=
  "datastore:" +:+ Host +:+ ":" +:+ getID ref.

Definition networkID (ref : ManagedObjectReference) : string :=
  "network:" +:+ Host +:+ ":" +:+ getID ref.

Definition vmNodeID (ref : ManagedObjectReference) : string :=
  "vm:" +:+ Host +:+ ":" +:+ getID ref.

(** [processDatastore]; [parentID] is not used. *)
Definition processDatastore (ref : ManagedObjectReference) (parentID : string)
    (gb : GraphBuilder) : GraphBuilder :=
  match retrieveDatastore ref with
  | None => gb
  | Some ds =>
      let props : gmap string value :=
        <["url" := VStr (Url ds)]>
          (<["accessible" := VBool (Accessible ds)]>
             (<["freeSpace" := VStr (pretty (FreeSpace ds))]>
                (<["capacity" := VStr (pretty (Capacity ds))]>
                   (<["type" := VStr (DsType ds)]>
                      (<["name" := VStr (DsName ds)]>
                         (<["moid" := VStr (getID ref)]> ∅)))))) in
      EnsureNode ["Datastore"] (datastoreID ref) props gb
  end.

(** [processNetwork]; the error of [RetrieveOne] is dropped, and the name
    is then empty.  [parentID] is not used. *)
Definition processNetwork (ref : ManagedObjectReference) (parentID : string)
    (gb : GraphBuilder) : GraphBuilder :=
  let name := default "" (retrieveNetwork ref) in
  let isDV := bool_decide (RefType ref = "DistributedVirtualPortgroup") in
  let kind := if isDV then "DVPortgroup" else "Network" in
  let props : gmap string value :=
    <["name" := VStr name]>
      (<["moid" := VStr (getID ref)]>
         (<["type" := VStr (RefType ref)]>
            (<["kind" := VStr kind]> ∅))) in
  EnsureNode [kind] (networkID ref) props gb.

Definition configProps (vm : VirtualMachine) (props : gmap string value)
    : gmap string value :=
  match Config vm with
  | None => props
  | Some cfg =>
      let props := <["guestFullName" := VStr (GuestFullName cfg)]> props in
      let props := <["guestId" := VStr (GuestId cfg)]> props in
      let props := <["version" := VStr (Version cfg)]> props in
      let props := <["uuid" := VStr (Uuid cfg)]> props in
      let props := <["isTemplate" := VBool (Template cfg)]> props in
      if decide (0 < NumCPU cfg)%Z then
        let props := <["numCPU" := VInt (NumCPU cfg)]> props in
        let props := <["numCoresPerSocket" := VInt (NumCoresPerSocket cfg)]> props in
        <["memoryMB" := VInt (MemoryMB cfg)]> props
      else props
  end.

Definition runtimeProps (vm : VirtualMachine) (props : gmap string value)
    : gmap string value :=
  if decide (PowerState vm ≠ "") then
    let props := <["powerState" := VStr (PowerState vm)]> props in
    let props := <["connectionState" := VStr (ConnectionState vm)]> props in
    match BootTime vm with
    | Some text => <["bootTime" := VStr text]> props
    | None => <["bootTime" := VStr "None"]> props
    end
  else props.

(** The guest block of [processVM]; [visit] is the order in which the
    loop ranges over [ipSet]. *)
Definition guestProps (visit : gmap string bool → list string)
    (vm : VirtualMachine) (props : gmap string value) : gmap string value :=
  match Guest vm with
  | None => props
  | Some guest =>
      let props := <["toolsStatus" := VStr (ToolsStatus guest)]> props in
      let props := <["toolsVersion" := VStr (ToolsVersion guest)]> props in
      let props := <["hostName" := VStr (HostName guest)]> props in
      let ipSet := ipSetOf guest in
      if decide (0 < size ipSet)%nat
      then <["ipAddresses" := VStrs (GoStrings.sortStrings (visit ipSet))]> props
      else props
  end.

Definition storageProps (vm : VirtualMachine) (props : gmap string value)
    : gmap string value :=
  match Storage vm with
  | None => props
  | Some (committed, uncommitted) =>
      let props := <["storageCommitted" := VStr (bytesToHuman committed)]> props in
      let props := <["storageUncommitted" := VStr (bytesToHuman uncommitted)]> props in
      <["storageTotalUsed" := VStr (bytesToHuman (addInt64 committed uncommitted))]> props
  end.

Definition vmProps (visit : gmap string bool → list string)
    (ref : ManagedObjectReference) (vm : VirtualMachine) : gmap string value :=
  let props : gmap string value :=
    <["name" := VStr (VmName vm)]> (<["moid" := VStr (getID ref)]> ∅) in
  storageProps vm (guestProps visit vm (runtimeProps vm (configProps vm props))).

(** One turn of the loop over [vm.Datastore]. *)
Definition datastoreTurn (vmID : string) (gb : GraphBuilder)
    (dsRef : ManagedObjectReference) : GraphBuilder :=
  let dsID := datastoreID dsRef in
  let gb := processDatastore dsRef "" gb in
  AddEdge "USES_DATASTORE" vmID dsID ∅ gb.

(** One turn of the loop over [vm.Network]. *)
Definition networkTurn (vmID : string) (gb : GraphBuilder)
    (netRef : ManagedObjectReference) : GraphBuilder :=
  let netID := networkID netRef in
  let gb := processNetwork netRef "" gb in
  AddEdge "USES_NETWORK" vmID netID ∅ gb.

(** [processVM]. *)
Definition processVM (visit : gmap string bool → list string)
    (ref : ManagedObjectReference) (parentID : string) (gb : GraphBuilder)
    : GraphBuilder :=
  match retrieveVM ref with
  | None => gb
  | Some vm =>
      let vmID := vmNodeID ref in
      let gb := EnsureNode ["VM"] vmID (vmProps visit ref vm) gb in
      let gb := AddEdge "HOSTS" parentID vmID ∅ gb in
      let gb := foldl (datastoreTurn vmID) gb (VmDatastore vm) in
      foldl (networkTurn vmID) gb (VmNetwork vm)
  end.

End WithService.

(** A guest with a primary address that one adapter repeats. *)
Definition demoGuest : GuestInfo :=
  {| ToolsStatus := "toolsOk"; ToolsVersion := "12352"; HostName := "web01";
     IpAddress := "10.0.0.7";
     Net := [ {| NicIpAddress := ["10.0.0.7"; "10.0.0.3"] |};
              {| NicIpAddress := [] |};
              {| NicIpAddress := ["fe80::1"; "10.0.0.3"] |} ] |}.

(** A machine on one datastore and one network. *)
Definition demoVM : VirtualMachine :=
  {| VmName := "web01"; Config := None; PowerState := "poweredOn";
     ConnectionState := "connected"; BootTime := None; Guest := Some demoGuest;
     Storage := None;
     VmDatastore := [ {| RefType := "Datastore"; Value := "datastore-11" |} ];
     VmNetwork := [ {| RefType := "Network"; Value := "network-5" |} ] |}.

End Inventory.

(** * Properties *)

(** ** Strings *)

Section StringFacts.
Import GoStrings.

Lemma string_app_cons c s t : String c s +:+ t = String c (s +:+ t).
Proof. reflexivity. Qed.

Lemma string_app_nil_l t : "" +:+ t = t.
Proof. reflexivity. Qed.

Lemma string_app_nil_r s : s +:+ "" = s.
Proof. induction s as [|c s IH]; [done|]. by rewrite string_app_cons, IH. Qed.

Lemma string_app_assoc s t u : (s +:+ t) +:+ u = s +:+ t +:+ u.
Proof. induction s as [|c s IH]; [done|]. by rewrite !string_app_cons, IH. Qed.

Lemma HasPrefix_app s prefix :
  HasPrefix s prefix = true ↔ s = prefix +:+ SliceFrom (String.length prefix) s.
Proof.
  revert s. induction prefix as [|p prefix IH]; intros s.
  - by destruct s.
  - destruct s as [|c s]; [done|]. rewrite string_app_cons. cbn [HasPrefix String.length SliceFrom].
    case_decide as Hpc.
    + subst. rewrite IH. split; [by intros <-|]. intros [= <-]. done.
    + split; [done|]. intros [= ? _]. done.
Qed.

Lemma HasPrefix_intro prefix rest : HasPrefix (prefix +:+ rest) prefix = true.
Proof.
  induction prefix as [|p prefix IH]; [by destruct rest|].
  rewrite string_app_cons. simpl. by rewrite decide_True.
Qed.

Lemma Cut_unfold s sep :
  Cut s sep =
  if HasPrefix s sep then Some ("", SliceFrom (String.length sep) s)
  else match s with
       | "" => None
       | String c s' =>
           match Cut s' sep with
           | Some (before, after) => Some (String c before, after)
           | None => None
           end
       end.
Proof. by destruct s. Qed.

Lemma Cut_Some s sep before after :
  Cut s sep = Some (before, after) → s = before +:+ sep +:+ after.
Proof.
  revert before after. induction s as [|c s IH]; intros before after;
    rewrite Cut_unfold; destruct (HasPrefix _ sep) eqn:Hp; try done.
  - intros [= <- <-]. by apply HasPrefix_app in Hp.
  - intros [= <- <-]. by apply HasPrefix_app in Hp.
  - destruct (Cut s sep) as [[b a]|] eqn:Hc; [|done].
    intros [= <- <-]. rewrite string_app_cons. f_equal. by apply IH.
Qed.

Lemma Cut_occurs before sep after : is_Some (Cut (before +:+ sep +:+ after) sep).
Proof.
  induction before as [|c before IH]; rewrite Cut_unfold.
  - rewrite string_app_nil_l, HasPrefix_intro. eauto.
  - destruct (HasPrefix _ sep); [eauto|].
    rewrite string_app_cons. destruct IH as [[b a] ->]. eauto.
Qed.

Lemma Contains_true s substr :
  Contains s substr = true ↔ ∃ before after, s = before +:+ substr +:+ after.
Proof.
  unfold Contains. split.
  - destruct (Cut s substr) as [[b a]|] eqn:Hc; [|done].
    intros _. exists b, a. by apply Cut_Some.
  - intros (b & a & ->). by destruct (Cut_occurs b substr a) as [? ->].
Qed.

(** Cutting at a one-byte separator leaves none of it in the first piece. *)
Lemma Cut_first c s before after :
  Cut s (String c "") = Some (before, after) → Contains before (String c "") = false.
Proof.
  revert before after. induction s as [|x s IH]; intros before after;
    rewrite Cut_unfold; cbn [HasPrefix]; [done|].
  case_decide.
  - by intros [= <- <-].
  - destruct (Cut s _) as [[b a]|] eqn:Hc; [|done].
    intros [= <- <-]. unfold Contains. rewrite Cut_unfold.
    cbn [HasPrefix]. rewrite decide_False by done.
    specialize (IH _ _ eq_refl). unfold Contains in IH.
    by destruct (Cut b _) as [[??]|].
Qed.

End StringFacts.

(** ** Principals *)

(** C5.  [parsePrincipal] has three forms.  A principal with a backslash
    is cut at its first backslash into (domain, username); otherwise a
    principal with an at-sign is cut at its first at-sign into (username,
    domain); otherwise the domain is empty and the username is the whole
    principal.  The method of the membership collector is the same
    function, and the three principals of the specification parse as it
    says. *)
Theorem parsePrincipal_forms (principal : string) :
  ((∃ domain username,
      GoStrings.Contains principal "\" = true
      ∧ principal = domain +:+ "\" +:+ username
      ∧ GoStrings.Contains domain "\" = false
      ∧ Collector.parsePrincipal principal = (domain, username))
   ∨ (∃ domain username,
      GoStrings.Contains principal "\" = false
      ∧ GoStrings.Contains principal "@" = true
      ∧ principal = username +:+ "@" +:+ domain
      ∧ GoStrings.Contains username "@" = false
      ∧ Collector.parsePrincipal principal = (domain, username))
   ∨ (GoStrings.Contains principal "\" = false
      ∧ GoStrings.Contains principal "@" = false
      ∧ Collector.parsePrincipal principal = ("", principal)))
  ∧ Collector.Collector_parsePrincipal principal = Collector.parsePrincipal principal
  ∧ Collector.parsePrincipal "CORP\jdoe" = ("CORP", "jdoe")
  ∧ Collector.parsePrincipal "jdoe@corp.local" = ("corp.local", "jdoe")
  ∧ Collector.parsePrincipal "jdoe" = ("", "jdoe").
Proof.
  split; [|by repeat split].
  unfold Collector.parsePrincipal, GoStrings.SplitN2.
  destruct (GoStrings.Contains principal "\") eqn:Hb.
  - left. unfold GoStrings.Contains in Hb.
    destruct (GoStrings.Cut principal "\") as [[d u]|] eqn:Hc; [|done].
    exists d, u. repeat split.
    + by apply Cut_Some.
    + by eapply Cut_first.
  - right. destruct (GoStrings.Contains principal "@") eqn:Ha.
    + left. unfold GoStrings.Contains in Ha.
      destruct (GoStrings.Cut principal "@") as [[u d]|] eqn:Hc; [|done].
      exists d, u. repeat split.
      * by apply Cut_Some.
      * by eapply Cut_first.
    + by right.
Qed.

(** ** Nodes: [EnsureNode] *)

Section EnsureNodeFacts.
Import Graph Runs.

Lemma updateProperties_union (existing incoming : gmap string value) :
  updateProperties existing incoming = incoming ∪ existing.
Proof.
  unfold updateProperties.
  apply (map_fold_weak_ind (λ r m, r = m ∪ existing)).
  - by rewrite (left_id_L ∅ (∪)).
  - intros i x m r _ ->. by rewrite insert_union_l.
Qed.

Lemma updateProperties_lookup (existing incoming : gmap string value) k :
  updateProperties existing incoming !! k =
  match incoming !! k with
  | Some v => Some v
  | None => existing !! k
  end.
Proof.
  rewrite updateProperties_union, lookup_union.
  destruct (incoming !! k), (existing !! k); done.
Qed.

Lemma kindMapOf_mirrors (kinds : list string) : mirrors (kinds, kindMapOf kinds).
Proof.
  unfold kindMapOf.
  assert (∀ (l : list string) (m0 : gmap string bool) (k : string),
            default false (foldl (λ m k', <[k' := true]> m) m0 l !! k) = true
            ↔ k ∈ l ∨ default false (m0 !! k) = true) as H.
  { induction l as [|x l IH]; intros m0 k; simpl.
    - rewrite elem_of_nil. tauto.
    - rewrite IH, elem_of_cons. destruct (decide (x = k)) as [->|Hne].
      + rewrite lookup_insert_eq. simpl. tauto.
      + rewrite lookup_insert_ne by done. split; [tauto|].
        intros [[->|?]|?]; [done|tauto..]. }
  intros k. simpl. rewrite H, lookup_empty. simpl. split; [|tauto].
  intros [?|?]; done.
Qed.

Lemma addKind_mirrors st k : mirrors st → mirrors (addKind st k).
Proof.
  intros Hm. unfold addKind.
  destruct (default false (st.2 !! FormatNodeKind k)) eqn:E; [done|].
  intros k'. simpl. rewrite elem_of_app, list_elem_of_singleton.
  specialize (Hm k').
  destruct (decide (FormatNodeKind k = k')) as [<-|Hne].
  - rewrite lookup_insert_eq. simpl. tauto.
  - rewrite lookup_insert_ne by done. split; [tauto|].
    intros [?|Heq]; [tauto|by subst].
Qed.

Lemma addKind_elem st k k' :
  mirrors st → k' ∈ (addKind st k).1 ↔ k' ∈ st.1 ∨ k' = FormatNodeKind k.
Proof.
  intros Hm. unfold addKind.
  destruct (default false (st.2 !! FormatNodeKind k)) eqn:E; simpl.
  - apply Hm in E. split; [tauto|]. intros [?|Heq]; [done|by subst].
  - by rewrite elem_of_app, list_elem_of_singleton.
Qed.

Lemma addKind_NoDup st k : mirrors st → NoDup st.1 → NoDup (addKind st k).1.
Proof.
  intros Hm Hnd. unfold addKind.
  destruct (default false (st.2 !! FormatNodeKind k)) eqn:E; simpl; [done|].
  apply NoDup_app. split_and!; [done| |apply NoDup_singleton].
  intros x Hx ->%list_elem_of_singleton. apply Hm in Hx. congruence.
Qed.

Lemma foldl_addKind st incoming :
  mirrors st →
  mirrors (foldl addKind st incoming)
  ∧ (∀ k', k' ∈ (foldl addKind st incoming).1 ↔
           k' ∈ st.1 ∨ k' ∈ FormatNodeKind <$> incoming)
  ∧ (NoDup st.1 → NoDup (foldl addKind st incoming).1).
Proof.
  revert st. induction incoming as [|k incoming IH]; intros st Hm; simpl.
  - split_and!; [done| |done]. intros k'. rewrite elem_of_nil. tauto.
  - destruct (IH (addKind st k) (addKind_mirrors _ _ Hm)) as (H1 & H2 & H3).
    split_and!; [done| |].
    + intros k'. rewrite H2, addKind_elem, elem_of_cons by done. tauto.
    + intros Hnd. apply H3. by apply addKind_NoDup.
Qed.

Lemma unionKinds_elem existing incoming k :
  k ∈ unionKinds existing incoming ↔ k ∈ existing ∨ k ∈ FormatNodeKind <$> incoming.
Proof.
  unfold unionKinds.
  destruct (foldl_addKind (existing, kindMapOf existing) incoming
              (kindMapOf_mirrors existing)) as (_ & H & _).
  apply H.
Qed.

Lemma unionKinds_NoDup existing incoming :
  NoDup existing → NoDup (unionKinds existing incoming).
Proof.
  unfold unionKinds.
  destruct (foldl_addKind (existing, kindMapOf existing) incoming
              (kindMapOf_mirrors existing)) as (_ & _ & H).
  apply H.
Qed.

(** The existing kinds stay in place, in order: new kinds are appended. *)
Lemma unionKinds_prefix existing incoming :
  existing `prefix_of` unionKinds existing incoming.
Proof.
  unfold unionKinds. generalize (kindMapOf existing) as m.
  revert existing. induction incoming as [|k incoming IH]; intros existing m; simpl.
  - done.
  - unfold addKind at 2. simpl. destruct (default false _); [apply IH|].
    etrans; [|apply IH]. by apply prefix_app_r.
Qed.

Lemma EnsureNode_props kinds X props gb k :
  propsOf (EnsureNode kinds X props gb) X !! k =
  match props !! k with
  | Some v => Some v
  | None => propsOf gb X !! k
  end.
Proof.
  unfold propsOf, EnsureNode.
  destruct (NodesByID gb !! X) as [existing|] eqn:E; simpl;
    rewrite lookup_insert_eq; simpl.
  - apply updateProperties_lookup.
  - by destruct (props !! k).
Qed.

Lemma EnsureNode_kinds kinds X props gb k :
  k ∈ kindsOf (EnsureNode kinds X props gb) X
  ↔ k ∈ kindsOf gb X ∨ k ∈ FormatNodeKind <$> kinds.
Proof.
  unfold kindsOf, EnsureNode.
  destruct (NodesByID gb !! X) as [existing|] eqn:E; simpl;
    rewrite lookup_insert_eq; simpl.
  - apply unionKinds_elem.
  - rewrite elem_of_nil. tauto.
Qed.

Lemma EnsureNode_present kinds X props gb :
  is_Some (NodesByID (EnsureNode kinds X props gb) !! X).
Proof.
  unfold EnsureNode. destruct (NodesByID gb !! X); simpl;
    rewrite lookup_insert_eq; eauto.
Qed.

Lemma EnsureNode_kinds_NoDup kinds X props gb :
  NoDup (kindsOf gb X) →
  (NodesByID gb !! X = None → NoDup (FormatNodeKind <$> kinds)) →
  NoDup (kindsOf (EnsureNode kinds X props gb) X).
Proof.
  unfold kindsOf, EnsureNode. intros Hnd Hnew.
  destruct (NodesByID gb !! X) as [existing|] eqn:E; simpl;
    rewrite lookup_insert_eq; simpl.
  - by apply unionKinds_NoDup.
  - by apply Hnew.
Qed.

Lemma ensureAll_cons X c calls gb :
  ensureAll X (c :: calls) gb
  = ensureAll X calls (EnsureNode (callKinds c) X (callProps c) gb).
Proof. reflexivity. Qed.



End EnsureNodeFacts.



Example ensureAll_sample :
  Runs.kindsOf (Runs.ensureAll "x" Samples.demoCalls Graph.NewGraphBuilder) "x"
  = ["vCenter_User"; "vCenter_Group"]
  ∧ Runs.propsOf (Runs.ensureAll "x" Samples.demoCalls Graph.NewGraphBuilder) "x"
    = <["name" := Graph.VStr "second"]>
        (<["domain" := Graph.VStr "CORP"]> {[ "moid" := Graph.VStr "m-1" ]}).
Proof. split; vm_compute; reflexivity. Qed.

(** The kinds of a node after a sequence of calls are, as a set, the kinds
    it had before together with every normalized kind supplied. *)
Lemma ensureAll_kinds_union (gb : Graph.GraphBuilder) (X : string)
    (calls : list Runs.EnsureCall) (k : string) :
  k ∈ Runs.kindsOf (Runs.ensureAll X calls gb) X
  ↔ k ∈ Runs.kindsOf gb X ∨ k ∈ Runs.suppliedKinds calls.
Proof.
  revert gb. induction calls as [|c calls IH]; intros gb.
  - unfold Runs.suppliedKinds. simpl. rewrite elem_of_nil. tauto.
  - rewrite ensureAll_cons, IH, EnsureNode_kinds. unfold Runs.suppliedKinds.
    rewrite bind_cons, elem_of_app. tauto.
Qed.

(** A node whose kinds hold no duplicate keeps none: the update path
    compares before it appends. *)
Lemma ensureAll_kinds_NoDup (gb : Graph.GraphBuilder) (X : string)
    (calls : list Runs.EnsureCall) :
  is_Some (Graph.NodesByID gb !! X) →
  NoDup (Runs.kindsOf gb X) →
  NoDup (Runs.kindsOf (Runs.ensureAll X calls gb) X).
Proof.
  revert gb. induction calls as [|c calls IH]; intros gb [n Hn] Hnd; [done|].
  rewrite ensureAll_cons. apply IH; [apply EnsureNode_present|].
  apply EnsureNode_kinds_NoDup; [done|]. by rewrite Hn.
Qed.

(** So does a node created by a call whose normalized kinds hold no
    duplicate. *)
Lemma ensureAll_kinds_NoDup_fresh (gb : Graph.GraphBuilder) (X : string)
    (c : Runs.EnsureCall) (calls : list Runs.EnsureCall) :
  Graph.NodesByID gb !! X = None →
  NoDup (Graph.FormatNodeKind <$> Runs.callKinds c) →
  NoDup (Runs.kindsOf (Runs.ensureAll X (c :: calls) gb) X).
Proof.
  intros Hnew Hnd. rewrite ensureAll_cons.
  apply ensureAll_kinds_NoDup; [apply EnsureNode_present|].
  apply EnsureNode_kinds_NoDup; [|done].
  unfold Runs.kindsOf. rewrite Hnew. apply NoDup_nil_2.
Qed.

(** C2, the create path.  A first call that names a kind twice creates the
    node with that kind twice: only the update path compares kinds. *)
Theorem EnsureNode_create_keeps_duplicates :
  Runs.kindsOf
    (Runs.ensureAll "x"
       [ {| Runs.callKinds := ["User"; "User"]; Runs.callProps := ∅ |} ]
       Graph.NewGraphBuilder) "x"
  = ["vCenter_User"; "vCenter_User"]
  ∧ ¬ NoDup
        (Runs.kindsOf
           (Runs.ensureAll "x"
              [ {| Runs.callKinds := ["User"; "User"]; Runs.callProps := ∅ |} ]
              Graph.NewGraphBuilder) "x").
Proof.
  assert (Runs.kindsOf
            (Runs.ensureAll "x"
               [ {| Runs.callKinds := ["User"; "User"]; Runs.callProps := ∅ |} ]
               Graph.NewGraphBuilder) "x"
          = ["vCenter_User"; "vCenter_User"]) as E by (vm_compute; reflexivity).
  split; [exact E|]. rewrite E. intros H. apply NoDup_cons in H as [H _].
  apply H. apply list_elem_of_here.
Qed.

(** ** Edges: [propsToKey] and [AddEdge] *)

Section AddEdgeFacts.
Import GoStrings Graph Runs Samples.

Lemma sortStrings_perm (l1 l2 : list string) :
  l1 ≡ₚ l2 → sortStrings l1 = sortStrings l2.
Proof.
  intros Hp. unfold sortStrings.
  apply (Sorted_unique String.le); [apply Sorted_merge_sort, _..|].
  by rewrite !merge_sort_Permutation.
Qed.

Lemma sortStrings_elem (l : list string) k : k ∈ sortStrings l ↔ k ∈ l.
Proof. unfold sortStrings. by rewrite merge_sort_Permutation. Qed.

Lemma sortStrings_NoDup (l : list string) : NoDup l → NoDup (sortStrings l).
Proof. unfold sortStrings. by rewrite merge_sort_Permutation. Qed.

Lemma string_length_app s t : String.length (s +:+ t) = String.length s + String.length t.
Proof. induction s as [|c s IH]; [done|]. rewrite string_app_cons. simpl. by rewrite IH. Qed.

Lemma string_app_inv_tail s1 s2 t : s1 +:+ t = s2 +:+ t → s1 = s2.
Proof.
  revert s2. induction s1 as [|c s1 IH]; intros [|c2 s2] H.
  - done.
  - apply (f_equal String.length) in H.
    rewrite string_app_nil_l, string_length_app in H. simpl in H. lia.
  - apply (f_equal String.length) in H.
    rewrite string_app_nil_l, string_length_app in H. simpl in H. lia.
  - rewrite !string_app_cons in H. injection H as -> H. f_equal. by apply IH.
Qed.






Lemma propsToKeyIn_nonempty visit props :
  size props ≠ 0 →
  propsToKeyIn visit props = Join (propPart props <$> sortStrings visit) "|".
Proof. intros H. unfold propsToKeyIn. by rewrite decide_False. Qed.

Lemma propsToKeyIn_perm visit1 visit2 props :
  visit1 ≡ₚ visit2 → propsToKeyIn visit1 props = propsToKeyIn visit2 props.
Proof. intros H. unfold propsToKeyIn. by rewrite (sortStrings_perm _ _ H). Qed.


Lemma AddEdgeIn_seen visit kind startID endID P gb :
  seen gb (edgeKeyIn visit kind startID endID P) = true →
  AddEdgeIn visit kind startID endID P gb = gb.
Proof. unfold AddEdgeIn. by intros ->. Qed.

Lemma AddEdgeIn_fresh visit kind startID endID P gb :
  seen gb (edgeKeyIn visit kind startID endID P) = false →
  AddEdgeIn visit kind startID endID P gb =
  {| NodesByID := NodesByID gb;
     Edges := Edges gb ++ [newEdge kind startID endID P];
     EdgeKeys := <[edgeKeyIn visit kind startID endID P := true]> (EdgeKeys gb) |}.
Proof. unfold AddEdgeIn. by intros ->. Qed.

Lemma seen_AddEdgeIn visit kind startID endID P gb key :
  seen (AddEdgeIn visit kind startID endID P gb) key =
  bool_decide (key = edgeKeyIn visit kind startID endID P) || seen gb key.
Proof.
  destruct (seen gb (edgeKeyIn visit kind startID endID P)) eqn:E.
  - rewrite AddEdgeIn_seen by done. case_bool_decide; [by subst|done].
  - rewrite AddEdgeIn_fresh by done. unfold seen at 1. simpl.
    case_bool_decide as Hk.
    + subst. by rewrite lookup_insert_eq.
    + by rewrite lookup_insert_ne.
Qed.

Lemma AddEdgeIn_nodes visit kind startID endID P gb :
  NodesByID (AddEdgeIn visit kind startID endID P gb) = NodesByID gb.
Proof. unfold AddEdgeIn. by destruct (seen _ _). Qed.

Lemma edgeKeyIn_perm visit1 visit2 kind startID endID P :
  visit1 ≡ₚ visit2 →
  edgeKeyIn visit1 kind startID endID P = edgeKeyIn visit2 kind startID endID P.
Proof. intros H. unfold edgeKeyIn. by rewrite (propsToKeyIn_perm _ _ _ H). Qed.




(** C10.  The dedup key is the flat string
    kind:start:end:propsKey, where propsKey joins the key:value parts with
    a bar.  A later call is dropped when its key equals an earlier one and
    appended when its key is new.  Colons in ids and bars in values make
    different calls share a key: the second call of each pair below is
    dropped although its (kind, start, end, properties) differs from the
    first. *)
Theorem AddEdge_flat_key_collisions :
  (∀ kind startID endID P,
      edgeKey kind startID endID P
      = kind +:+ ":" +:+ startID +:+ ":" +:+ endID +:+ ":" +:+ propsToKey P)
  ∧ (∀ P, size P ≠ 0 →
      propsToKey P = Join (propPart P <$> sortStrings (rangeKeys P)) "|")
  ∧ (∀ gb k1 s1 e1 P1 k2 s2 e2 P2,
      edgeKey k1 s1 e1 P1 = edgeKey k2 s2 e2 P2 →
      AddEdge k2 s2 e2 P2 (AddEdge k1 s1 e1 P1 gb) = AddEdge k1 s1 e1 P1 gb)
  ∧ (∀ gb k1 s1 e1 P1 k2 s2 e2 P2,
      edgeKey k1 s1 e1 P1 ≠ edgeKey k2 s2 e2 P2 →
      seen gb (edgeKey k2 s2 e2 P2) = false →
      Edges (AddEdge k2 s2 e2 P2 (AddEdge k1 s1 e1 P1 gb))
      = Edges (AddEdge k1 s1 e1 P1 gb) ++ [newEdge k2 s2 e2 P2])
  ∧ (("Contains", "a:b", "c", (∅ : gmap string value)) ≠ ("Contains", "a", "b:c", ∅)
     ∧ edgeKey "Contains" "a:b" "c" ∅ = edgeKey "Contains" "a" "b:c" ∅
     ∧ Edges (AddEdge "Contains" "a" "b:c" ∅
                (AddEdge "Contains" "a:b" "c" ∅ NewGraphBuilder))
       = [newEdge "Contains" "a:b" "c" ∅])
  ∧ (({[ "x" := VStr "1|y:2" ]} : gmap string value)
       ≠ <["y" := VStr "2"]> {[ "x" := VStr "1" ]}
     ∧ edgeKey "Contains" "a" "b" {[ "x" := VStr "1|y:2" ]}
       = edgeKey "Contains" "a" "b" (<["y" := VStr "2"]> {[ "x" := VStr "1" ]})
     ∧ Edges (AddEdge "Contains" "a" "b" (<["y" := VStr "2"]> {[ "x" := VStr "1" ]})
                (AddEdge "Contains" "a" "b" {[ "x" := VStr "1|y:2" ]} NewGraphBuilder))
       = [newEdge "Contains" "a" "b" {[ "x" := VStr "1|y:2" ]}]).
Proof.
  split; [done|]. split.
  { intros P HP. unfold propsToKey. by apply propsToKeyIn_nonempty. }
  split.
  { intros gb k1 s1 e1 P1 k2 s2 e2 P2 Hk. unfold AddEdge.
    apply AddEdgeIn_seen. rewrite seen_AddEdgeIn.
    fold (edgeKey k1 s1 e1 P1) (edgeKey k2 s2 e2 P2).
    by rewrite bool_decide_true. }
  split.
  { intros gb k1 s1 e1 P1 k2 s2 e2 P2 Hk Hs. unfold AddEdge at 1.
    rewrite AddEdgeIn_fresh; [done|].
    unfold AddEdge. rewrite seen_AddEdgeIn.
    fold (edgeKey k1 s1 e1 P1) (edgeKey k2 s2 e2 P2).
    rewrite Hs, bool_decide_false; [done|]. by intros ?. }
  split.
  { split; [by intros [=]|]. split; vm_compute; reflexivity. }
  split; [|split; vm_compute; reflexivity].
  intros E. apply (f_equal (.!! "y")) in E. by vm_compute in E.
Qed.

End AddEdgeFacts.

(** ** Permissions: [processPermission] *)

Section PermissionFacts.
Import GoStrings Graph Runs Collector Samples.

Lemma EnsureNode_edges kinds X props gb :
  Edges (EnsureNode kinds X props gb) = Edges gb
  ∧ EdgeKeys (EnsureNode kinds X props gb) = EdgeKeys gb.
Proof. unfold EnsureNode. by destruct (NodesByID gb !! X). Qed.

Lemma EnsureNode_other kinds X props gb id :
  id ≠ X → NodesByID (EnsureNode kinds X props gb) !! id = NodesByID gb !! id.
Proof.
  intros Hne. unfold EnsureNode.
  destruct (NodesByID gb !! X); simpl; by rewrite lookup_insert_ne.
Qed.

Lemma isNoAccess_true roleName :
  isNoAccess roleName = true
  ↔ ToLower roleName = "no access" ∨ ToLower roleName = "noaccess"
    ∨ ToLower roleName = "no-access".
Proof.
  unfold isNoAccess. rewrite !orb_true_iff, !bool_decide_eq_true. tauto.
Qed.

Example isNoAccess_variants :
  isNoAccess "No Access" = true ∧ isNoAccess "NOACCESS" = true
  ∧ isNoAccess "no-access" = true ∧ isNoAccess "NoAccess" = true
  ∧ isNoAccess "No_Access" = false ∧ isNoAccess "no.access" = false
  ∧ isNoAccess "" = false.
Proof. repeat split. Qed.

(** C4, as the code has it.  For an assignment whose role name, in lower
    case, is one of "no access", "noaccess" and "no-access",
    [processPermission] does what its [EnsureNode] call on the principal
    does and nothing more: no edge and no edge key is added, and no node
    other than the principal's is created or changed. *)
Theorem processPermission_no_access (Host : string)
    (retrieveHosts : ManagedObjectReference → option (list ManagedObjectReference))
    (perm : Permission) (roles : gmap Z AuthorizationRole)
    (privMap : gmap string AuthorizationPrivilege) (gb : GraphBuilder)
    (r : AuthorizationRole) :
  roles !! PermRoleId perm = Some r →
  ToLower (Name r) = "no access" ∨ ToLower (Name r) = "noaccess"
    ∨ ToLower (Name r) = "no-access" →
  processPermission Host retrieveHosts perm roles privMap gb
  = EnsureNode (principalKinds perm) (principalIDOf Host perm)
               (principalProps perm) gb
  ∧ Edges (processPermission Host retrieveHosts perm roles privMap gb) = Edges gb
  ∧ EdgeKeys (processPermission Host retrieveHosts perm roles privMap gb)
    = EdgeKeys gb
  ∧ (∀ id, id ≠ principalIDOf Host perm →
       NodesByID (processPermission Host retrieveHosts perm roles privMap gb) !! id
       = NodesByID gb !! id).
Proof.
  intros Hr Hno%isNoAccess_true.
  assert (processPermission Host retrieveHosts perm roles privMap gb
          = EnsureNode (principalKinds perm) (principalIDOf Host perm)
                       (principalProps perm) gb) as ->.
  { unfold processPermission. rewrite Hr.
    destruct (privilegeDetails privMap (Privilege r)) as [privNames groupSet].
    by rewrite Hno. }
  split; [done|]. split; [apply EnsureNode_edges|].
  split; [apply EnsureNode_edges|]. intros id Hid. by apply EnsureNode_other.
Qed.

(** C4 as stated fails twice.  The principal's node is ensured before the
    role is looked at, so an assignment with the role "No Access" on an
    empty store leaves a node behind; and [isNoAccess] strips no
    punctuation, so the variant "No_Access" is processed in full and gets
    its edge. *)
Lemma processPermission_no_access_touches_principal :
  isNoAccess (Name noAccessRole) = true
  ∧ demoRoles !! PermRoleId (demoPerm 5 true) = Some noAccessRole
  ∧ NodesByID NewGraphBuilder !! "user:vc:CORP\jdoe" = None
  ∧ Kinds <$> (NodesByID (process (demoPerm 5 true) NewGraphBuilder)
                 !! "user:vc:CORP\jdoe")
    = Some ["vCenter_User"]
  ∧ NodesByID (process (demoPerm 5 true) NewGraphBuilder)
    ≠ NodesByID NewGraphBuilder
  ∧ demoRoles !! PermRoleId (demoPerm 6 true) = Some underscoreRole
  ∧ length (Edges (process (demoPerm 6 true) NewGraphBuilder)) = 1.
Proof.
  assert (Kinds <$> (NodesByID (process (demoPerm 5 true) NewGraphBuilder)
                       !! "user:vc:CORP\jdoe")
          = Some ["vCenter_User"]) as E by (vm_compute; reflexivity).
  split; [done|]. split; [done|]. split; [done|]. split; [exact E|].
  split; [|split; vm_compute; reflexivity].
  intros H. rewrite H in E. done.
Qed.

(** The theorem at the sample assignment with the role "No Access". *)
Lemma processPermission_no_access_witness :
  Edges (process (demoPerm 5 true) NewGraphBuilder) = []
  ∧ EdgeKeys (process (demoPerm 5 true) NewGraphBuilder) = ∅.
Proof.
  destruct (processPermission_no_access "vc" (λ _, None) (demoPerm 5 true)
              demoRoles demoPrivileges NewGraphBuilder noAccessRole)
    as (_ & H1 & H2 & _).
  - reflexivity.
  - left. reflexivity.
  - split; [exact H1|exact H2].
Defined.

(** Two assignments that differ only in the propagate flag give two
    edges; the same assignment twice gives one. *)
Example processPermission_propagate :
  edgeKey "HAS_PERMISSION" "user:vc:CORP\jdoe" "folder:vc:group-d1"
    <$> (EdgeProperties
           <$> head (Edges (process (demoPerm 1 true) NewGraphBuilder)))
  = Some ("HAS_PERMISSION:user:vc:CORP\jdoe:folder:vc:group-d1:"
          +:+ "privilegeCount:2|privilegeGroups:[System]|"
          +:+ "privilegeIds:[System.View VM.PowerOn]|"
          +:+ "privilegeNames:[View VM.PowerOn]|"
          +:+ "propagate:true|roleId:1|roleName:Admin")
  ∧ length (Edges (process (demoPerm 1 false)
                     (process (demoPerm 1 true) NewGraphBuilder))) = 2
  ∧ length (Edges (process (demoPerm 1 true)
                     (process (demoPerm 1 true) NewGraphBuilder))) = 1.
Proof. repeat split; vm_compute; reflexivity. Qed.

End PermissionFacts.

(** ** Sync edges: [GetDomainMap] and [Run] *)

Section SyncFacts.
Import GoStrings Graph Runs Bloodhound Postprocess Samples.









Lemma kindFlags_spec kinds :
  ((kindFlags kinds).1 = true ↔ "vCenter_User" ∈ kinds)
  ∧ ((kindFlags kinds).2 = true ↔ "vCenter_Group" ∈ kinds).
Proof.
  unfold kindFlags.
  assert (∀ (l : list string) u g,
            let r := foldl (λ '(isUser, isGroup) k,
                     if decide (k = "vCenter_User") then (true, isGroup)
                     else if decide (k = "vCenter_Group") then (isUser, true)
                     else (isUser, isGroup)) (u, g) l in
            (r.1 = true ↔ u = true ∨ "vCenter_User" ∈ l)
            ∧ (r.2 = true ↔ g = true ∨ "vCenter_Group" ∈ l)) as H.
  { induction l as [|k l IH]; intros u g; cbn [foldl].
    - cbn. rewrite !elem_of_nil. tauto.
    - rewrite !elem_of_cons.
      destruct (decide (k = "vCenter_User")) as [->|Hu];
        [|destruct (decide (k = "vCenter_Group")) as [->|Hg]].
      + destruct (IH true g) as [-> ->]. split; [tauto|].
        split; [tauto|]. intros [?|[?|?]]; [tauto|done|tauto].
      + destruct (IH u true) as [-> ->]. split; [|tauto].
        split; [tauto|]. intros [?|[?|?]]; [tauto|done|tauto].
      + destruct (IH u g) as [-> ->].
        split; (split; [tauto|]); (intros [?|[?|?]]; [tauto|congruence|tauto]). }
  destruct (H kinds false false) as [H1 H2]. cbn zeta in H1, H2.
  rewrite H1, H2. split; (split; [intros [?|?]; [done|tauto]|tauto]).
Qed.




Example syncEdgeFor_admin :
  syncEdgeFor (domainMapOf ["CORP.LOCAL"]) adminNode
  = Some {| REKind := "SyncsTovCenterUser"; REStartID := "ADMIN@CORP.LOCAL";
            REStartMatchBy := "name"; REEndID := "user:vc:CORP\admin";
            REEndMatchBy := ""; REProperties := ∅ |}
  ∧ syncEdgeFor (domainMapOf ["CORP.LOCAL"]) otherNode = None
  ∧ syncCalls (domainMapOf ["CORP.LOCAL"]) [otherNode; adminNode; otherNode]
    = [ {| REKind := "SyncsTovCenterUser"; REStartID := "ADMIN@CORP.LOCAL";
           REStartMatchBy := "name"; REEndID := "user:vc:CORP\admin";
           REEndMatchBy := ""; REProperties := ∅ |} ].
Proof. repeat split; vm_compute; reflexivity. Qed.

Lemma syncCalls_omap DomainMap nodes :
  syncCalls DomainMap nodes = omap (syncEdgeFor DomainMap) nodes.
Proof.
  unfold syncCalls, syncLoop.
  assert (∀ log, foldl (λ gb node,
                    match syncEdgeFor DomainMap node with
                    | Some e => gb ++ [e]
                    | None => gb
                    end) log nodes
                 = log ++ omap (syncEdgeFor DomainMap) nodes) as H.
  { induction nodes as [|n nodes IH]; intros log; simpl.
    - by rewrite app_nil_r.
    - rewrite IH. destruct (syncEdgeFor DomainMap n); [|done].
      by rewrite <- (assoc_L (++)). }
  apply H.
Qed.

End SyncFacts.

(** ** Signing: [signRequest] *)

Section SigningFacts.
Import GoStrings Bloodhound Crypto Samples.

(** The digest functions agree with the published test vectors (FIPS 180-4
    examples, RFC 4231 test cases 2 and 6, RFC 4648 section 10). *)
Example sha256_vectors :
  hexOf (sha256 (bytesOf "abc"))
  = "ba7816bf8f01cfea414140de5dae2223b00361a396177a9cb410ff61f20015ad"
  ∧ hexOf (sha256 [])
    = "e3b0c44298fc1c149afbf4c8996fb92427ae41e4649b934ca495991b7852b855"
  ∧ hexOf (sha256 (bytesOf "abcdbcdecdefdefgefghfghighijhijkijkljklmklmnlmnomnopnopq"))
    = "248d6a61d20638b8e5c026930c3e6039a33ce45964ff2167f6ecedd419db06c1".
Proof. repeat split; vm_compute; reflexivity. Qed.

Example hmacSHA256_vectors :
  hexOf (hmacSHA256 (bytesOf "Jefe") (bytesOf "what do ya want for nothing?"))
  = "5bdcc146bf60754e6a042426089575c75a003f089d2739839dec58b964ec3843"
  ∧ hexOf (hmacSHA256 (replicate 131 0xaa%Z)
             (bytesOf "Test Using Larger Than Block-Size Key - Hash Key First"))
    = "60e431591ee0b67f0d8a26aacbf5b77f8e0bc6213728c5140546040f0ee37f54".
Proof. repeat split; vm_compute; reflexivity. Qed.

Example EncodeToString_vectors :
  EncodeToString "f" = "Zg==" ∧ EncodeToString "fo" = "Zm8="
  ∧ EncodeToString "foo" = "Zm9v" ∧ EncodeToString "foobar" = "Zm9vYmFy".
Proof. repeat split. Qed.

Lemma Header_Get_Set key value req :
  Header_Get key (Header_Set key value req) = value.
Proof. unfold Header_Get, Header_Set. simpl. by rewrite lookup_insert_eq. Qed.

Lemma signRequest_ok c ts req :
  (13 ≤ String.length ts)%nat →
  ∃ signed, signRequest c ts req = inr signed
    ∧ Header_Get "Signature" signed = EncodeToString (digest3 c ts req)
    ∧ Header_Get "RequestDate" signed = ts
    ∧ Header_Get "Authorization" signed = "bhesignature " +:+ KeyID c
    ∧ Body signed = Body req.
Proof.
  intros Hlen. unfold signRequest. rewrite decide_False by lia.
  eexists. split; [done|]. split; [apply Header_Get_Set|].
  unfold Header_Get, Header_Set. simpl.
  change (CanonicalMIMEHeaderKey "Signature") with "Signature".
  change (CanonicalMIMEHeaderKey "RequestDate") with "Requestdate".
  change (CanonicalMIMEHeaderKey "Authorization") with "Authorization".
  rewrite lookup_insert_ne by done. rewrite lookup_insert_eq.
  rewrite !lookup_insert_ne by done. rewrite lookup_insert_eq. done.
Qed.

Lemma digest3_body c ts req :
  digest3 c ts req = HMAC_SHA256 (digest2 c ts req) (default "" (Body req)).
Proof. unfold digest3. by destruct (Body req). Qed.

(** C6.  The signature depends only on the key secret, the method, the
    path with its query, the body bytes and the first 13 bytes of the
    timestamp: two signings that agree on these have the same second
    digest, both succeed, and set the same Signature header, which is the
    base64 text of the third digest.  With no body the third digest is the
    HMAC, keyed by the second digest, of the empty byte string. *)
Theorem signRequest_hour_deterministic
    (c1 c2 : Client) (req1 req2 : Request) (ts1 ts2 : string) :
  KeySecret c1 = KeySecret c2 →
  Method req1 = Method req2 →
  requestURI req1 = requestURI req2 →
  default "" (Body req1) = default "" (Body req2) →
  (13 ≤ String.length ts1)%nat →
  (13 ≤ String.length ts2)%nat →
  SliceTo 13 ts1 = SliceTo 13 ts2 →
  digest2 c1 ts1 req1 = digest2 c2 ts2 req2
  ∧ (∃ signed1 signed2,
       signRequest c1 ts1 req1 = inr signed1
       ∧ signRequest c2 ts2 req2 = inr signed2
       ∧ Header_Get "Signature" signed1 = Header_Get "Signature" signed2
       ∧ Header_Get "Signature" signed1 = EncodeToString (digest3 c1 ts1 req1))
  ∧ (Body req1 = None →
       digest3 c1 ts1 req1 = HMAC_SHA256 (digest2 c1 ts1 req1) "").
Proof.
  intros Hk Hm Hu Hb Hl1 Hl2 Hts.
  assert (digest2 c1 ts1 req1 = digest2 c2 ts2 req2) as Hd2.
  { unfold digest2, digest1. by rewrite Hk, Hm, Hu, Hts. }
  split; [done|]. split.
  - destruct (signRequest_ok c1 ts1 req1 Hl1) as (s1 & -> & Hs1 & _).
    destruct (signRequest_ok c2 ts2 req2 Hl2) as (s2 & -> & Hs2 & _).
    exists s1, s2. split; [done|]. split; [done|]. split; [|done].
    by rewrite Hs1, Hs2, !digest3_body, Hd2, Hb.
  - intros Hnone. unfold digest3. by rewrite Hnone.
Qed.

(** The theorem at the request for the domain list, signed with the
    secret abc at two times of the same hour. *)
Lemma signRequest_hour_deterministic_witness :
  digest2 demoClient "2020-12-01T23:00:00Z" demoRequest
  = digest2 demoClient "2020-12-01T23:45:10Z" demoRequest
  ∧ (∃ signed1 signed2,
       signRequest demoClient "2020-12-01T23:00:00Z" demoRequest = inr signed1
       ∧ signRequest demoClient "2020-12-01T23:45:10Z" demoRequest = inr signed2
       ∧ Header_Get "Signature" signed1 = Header_Get "Signature" signed2
       ∧ Header_Get "Signature" signed1
         = EncodeToString (digest3 demoClient "2020-12-01T23:00:00Z" demoRequest))
  ∧ (Body demoRequest = None →
       digest3 demoClient "2020-12-01T23:00:00Z" demoRequest
       = HMAC_SHA256 (digest2 demoClient "2020-12-01T23:00:00Z" demoRequest) "").
Proof.
  apply (signRequest_hour_deterministic demoClient demoClient demoRequest demoRequest
           "2020-12-01T23:00:00Z" "2020-12-01T23:45:10Z");
    first [reflexivity | simpl; lia].
Defined.

Example signRequest_spec_example :
  Header_Get "Signature"
    <$> (match signRequest demoClient "2020-12-01T23:00:00Z" demoRequest with
         | inr r => Some r
         | inl _ => None
         end)
  = Some "4uLpMzjsLxHXO1JZI9vT+VZfy4HXCfXVIeZYbrAltPo=".
Proof. vm_compute. reflexivity. Qed.

Example signRequest_short_timestamp :
  signRequest demoClient "2020-12-01" demoRequest = inl "timestamp format error".
Proof. reflexivity. Qed.

End SigningFacts.

(** ** The merge of [main.go] *)

Section MergeFacts.
Import GoStrings Graph Runs Main Samples.

Lemma mergeProperties_union (existing incoming : gmap string value) :
  mergeProperties existing incoming = existing ∪ incoming.
Proof.
  unfold mergeProperties.
  apply (map_fold_weak_ind (λ r m, r = existing ∪ m)).
  - by rewrite (right_id_L ∅ (∪)).
  - intros i x m r Hi ->. rewrite lookup_union, Hi.
    destruct (existing !! i) as [y|] eqn:He; simpl.
    + apply map_eq. intros k. rewrite !lookup_union.
      destruct (decide (i = k)) as [<-|Hne].
      * by rewrite lookup_insert_eq, He, Hi.
      * by rewrite lookup_insert_ne.
    + by rewrite insert_union_r.
Qed.

Lemma mergeProperties_lookup (existing incoming : gmap string value) k :
  mergeProperties existing incoming !! k =
  match existing !! k with
  | Some v => Some v
  | None => incoming !! k
  end.
Proof.
  rewrite mergeProperties_union, lookup_union.
  destruct (existing !! k), (incoming !! k); done.
Qed.

Lemma mergeNodes_lookup (target other : gmap string GraphNode) id :
  keyedByID other →
  map_fold (λ _ node acc, mergeNode acc node) target other !! id =
  match other !! id, target !! id with
  | Some n, Some t => Some (mergedNode t n)
  | Some n, None => Some n
  | None, t => t
  end.
Proof.
  revert id.
  apply (map_fold_weak_ind
           (λ r m, ∀ id, keyedByID m →
              r !! id = match m !! id, target !! id with
                        | Some n, Some t => Some (mergedNode t n)
                        | Some n, None => Some n
                        | None, t => t
                        end)).
  - intros id _. by rewrite lookup_empty.
  - intros i n m r Hi IH id Hkeyed.
    assert (keyedByID m) as Hm.
    { intros j x Hj. apply Hkeyed. rewrite lookup_insert_ne; [done|].
      intros ->. congruence. }
    assert (ID n = i) as Hn by (apply Hkeyed; apply lookup_insert_eq).
    unfold mergeNode. rewrite Hn.
    pose proof (IH i Hm) as Hri. rewrite Hi in Hri.
    destruct (decide (i = id)) as [<-|Hne].
    + rewrite lookup_insert_eq. rewrite Hri.
      destruct (target !! i); by rewrite lookup_insert_eq.
    + rewrite (lookup_insert_ne m) by done. rewrite <- (IH id Hm).
      destruct (r !! i); by rewrite lookup_insert_ne.
Qed.

Lemma EnsureNode_keyedByID kinds X props gb :
  keyedByID (NodesByID gb) → keyedByID (NodesByID (EnsureNode kinds X props gb)).
Proof.
  intros Hk id n. unfold EnsureNode.
  destruct (NodesByID gb !! X) as [existing|] eqn:E; simpl;
    (destruct (decide (X = id)) as [<-|Hne];
     [rewrite lookup_insert_eq; intros [= <-]; simpl; eauto
     |rewrite lookup_insert_ne by done; apply Hk]).
Qed.

Lemma AddEdge_keyedByID kind startID endID P gb :
  keyedByID (NodesByID gb) →
  keyedByID (NodesByID (AddEdge kind startID endID P gb)).
Proof. unfold AddEdge. by rewrite AddEdgeIn_nodes. Qed.

Lemma NewGraphBuilder_keyedByID : keyedByID (NodesByID NewGraphBuilder).
Proof. intros id n. cbn. by rewrite lookup_empty. Qed.

(** C8.  The merge of a collected graph into the combined graph: a node
    only the collected graph has is stored as it is; for a node both have,
    the combined graph keeps its kinds and every property it already has
    and takes from the collected node only the keys it lacks; nodes the
    collected graph lacks are untouched; every edge of the collected graph
    is appended after the existing edges, and the edge keys are neither
    read nor written. *)
Theorem mergeInto_first_source_wins (mergedGraph gb : GraphBuilder) :
  keyedByID (NodesByID gb) →
  (∀ id n,
      NodesByID gb !! id = Some n →
      NodesByID mergedGraph !! id = None →
      NodesByID (mergeInto mergedGraph gb) !! id = Some n)
  ∧ (∀ id n t,
      NodesByID gb !! id = Some n →
      NodesByID mergedGraph !! id = Some t →
      ∃ m, NodesByID (mergeInto mergedGraph gb) !! id = Some m
           ∧ Kinds m = Kinds t
           ∧ ID m = ID t
           ∧ ∀ k, Properties m !! k =
                  match Properties t !! k with
                  | Some v => Some v
                  | None => Properties n !! k
                  end)
  ∧ (∀ id,
      NodesByID gb !! id = None →
      NodesByID (mergeInto mergedGraph gb) !! id = NodesByID mergedGraph !! id)
  ∧ Edges (mergeInto mergedGraph gb) = Edges mergedGraph ++ Edges gb
  ∧ EdgeKeys (mergeInto mergedGraph gb) = EdgeKeys mergedGraph.
Proof.
  intros Hk. unfold mergeInto. simpl. split_and!.
  - intros id n Hn Ht. by rewrite mergeNodes_lookup, Hn, Ht.
  - intros id n t Hn Ht. rewrite mergeNodes_lookup, Hn, Ht by done.
    eexists. split; [done|]. split; [done|]. split; [done|].
    intros k. apply mergeProperties_lookup.
  - intros id Hn. by rewrite mergeNodes_lookup, Hn.
  - generalize (Edges mergedGraph) as es.
    induction (Edges gb) as [|e l IH]; intros es; simpl.
    + by rewrite app_nil_r.
    + by rewrite IH, <- (assoc_L (++)).
  - done.
Qed.

(** The theorem at two sample graphs that share a node and an edge. *)
Lemma mergeInto_first_source_wins_witness :
  Edges (mergeInto targetGraph otherGraph) = Edges targetGraph ++ Edges otherGraph
  ∧ EdgeKeys (mergeInto targetGraph otherGraph) = EdgeKeys targetGraph.
Proof.
  destruct (mergeInto_first_source_wins targetGraph otherGraph) as (_ & _ & _ & H).
  - apply AddEdge_keyedByID. do 2 apply EnsureNode_keyedByID.
    apply NewGraphBuilder_keyedByID.
  - exact H.
Defined.

Example mergeInto_sample :
  Properties <$> (NodesByID (mergeInto targetGraph otherGraph) !! "x")
  = Some (<["name" := VStr "first"]> {[ "moid" := VStr "vm-1" ]})
  ∧ Kinds <$> (NodesByID (mergeInto targetGraph otherGraph) !! "x")
    = Some ["vCenter_VM"]
  ∧ Kinds <$> (NodesByID (mergeInto targetGraph otherGraph) !! "y")
    = Some ["vCenter_Folder"]
  ∧ Edges (mergeInto targetGraph otherGraph)
    = [newEdge "CONTAINS" "x" "y" ∅; newEdge "CONTAINS" "x" "y" ∅].
Proof. repeat split; vm_compute; reflexivity. Qed.

End MergeFacts.

(** ** The output document *)

Section OutputFacts.
Import GoStrings Graph Main.

Lemma HasPrefix_SliceTo s prefix :
  HasPrefix s prefix = true → SliceTo (String.length prefix) s = prefix.
Proof.
  revert s. induction prefix as [|p prefix IH]; intros s; [by destruct s|].
  destruct s as [|c s]; [done|]. cbn [HasPrefix String.length SliceTo].
  case_decide; [|done]. subst. intros H. by rewrite IH.
Qed.

(** C9.  [main.go] writes the byte-order mark EF BB BF before the JSON
    text; [output.WriteToFile], which the process mode and the collector
    of the [internal] layout write through, puts nothing before the
    encoder's output, so its file starts with an opening brace. *)
Theorem WriteToFile_writes_no_bom :
  Crypto.bytesOf bom = [0xEF; 0xBB; 0xBF]%Z
  ∧ (∀ jsonEncode mergedGraph,
       SliceTo 3 (fullData jsonEncode mergedGraph) = bom)
  ∧ (∀ graphJSON,
       SliceTo 1 (Output.WriteToFile graphJSON) = "{"
       ∧ HasPrefix (Output.WriteToFile graphJSON) bom = false)
  ∧ (∀ Builder GraphData NewBuilder AddRawNode AddRawEdgeWithMatch Export
       encodeGraphData DomainMap nodes edges,
       HasPrefix
         (Postprocess.Run Builder GraphData NewBuilder AddRawNode
            AddRawEdgeWithMatch Export encodeGraphData DomainMap nodes edges)
         bom = false).
Proof.
  split; [by vm_compute|]. split; [|split].
  - intros jsonEncode mergedGraph. unfold fullData.
    apply (HasPrefix_SliceTo _ bom), HasPrefix_intro.
  - done.
  - done.
Qed.

End OutputFacts.

(** * Further properties *)

(** ** The store as a whole *)

Section StoreFacts.
Import GoStrings Graph Runs Ops Main.

Lemma run_app ops1 ops2 gb : run (ops1 ++ ops2) gb = run ops2 (run ops1 gb).
Proof. apply foldl_app. Qed.

Lemma run_snoc ops op gb : run (ops ++ [op]) gb = applyOp (run ops gb) op.
Proof. by rewrite run_app. Qed.

Lemma consistent_new : consistent NewGraphBuilder.
Proof.
  split_and!; [done| |apply NewGraphBuilder_keyedByID|constructor].
  intros k b. cbn. by rewrite lookup_empty.
Qed.

Lemma consistent_step gb op :
  validOp op → consistent gb → consistent (applyOp gb op).
Proof.
  intros Hv (Hlen & Htrue & Hkey & Hedges).
  destruct op as [kinds id P|visit kind s t P]; cbn [applyOp].
  - destruct (EnsureNode_edges kinds id P gb) as [He Hk].
    split_and!.
    + by rewrite He, Hk.
    + by rewrite Hk.
    + by apply EnsureNode_keyedByID.
    + rewrite He. eapply Forall_impl; [exact Hedges|].
      intros e (k & s & t & Q & -> & Hs). exists k, s, t, Q. split; [done|].
      unfold seen in *. by rewrite Hk.
  - cbn in Hv.
    assert (edgeKeyIn visit kind s t P = edgeKey kind s t P) as Hkeyeq
      by (by apply edgeKeyIn_perm).
    destruct (seen gb (edgeKeyIn visit kind s t P)) eqn:Hseen.
    + rewrite AddEdgeIn_seen by done. by split_and!.
    + assert (EdgeKeys gb !! edgeKeyIn visit kind s t P = None) as Hnone.
      { unfold seen in Hseen.
        destruct (EdgeKeys gb !! edgeKeyIn visit kind s t P) as [b|] eqn:E; [|done].
        apply Htrue in E. subst. done. }
      pose proof (seen_AddEdgeIn visit kind s t P gb) as Hs'.
      rewrite AddEdgeIn_fresh in * by done. split_and!; cbn.
      * rewrite length_app, map_size_insert_None by done. cbn. lia.
      * intros k b. destruct (decide (edgeKeyIn visit kind s t P = k)) as [<-|Hne].
        -- rewrite lookup_insert_eq. congruence.
        -- rewrite lookup_insert_ne by done. apply Htrue.
      * done.
      * apply Forall_app. split.
        -- eapply Forall_impl; [exact Hedges|].
           intros e (k & s' & t' & Q & -> & Hs). exists k, s', t', Q. split; [done|].
           rewrite Hs'. by rewrite Hs, orb_true_r.
        -- constructor; [|constructor]. exists kind, s, t, P. split; [done|].
           rewrite Hs', <- Hkeyeq. by rewrite bool_decide_true.
Qed.

(** X1.  Whatever sequence of [EnsureNode] and [AddEdge] calls is made on
    a new store, the store stays consistent: there are exactly as many
    edges as remembered keys, every remembered key is stored as [true],
    every node is filed under its own id, and every edge is the one some
    [AddEdge] call built, with that call's key remembered. *)
Theorem run_consistent (ops : list Op) :
  Forall validOp ops →
  length (Edges (run ops NewGraphBuilder)) = size (EdgeKeys (run ops NewGraphBuilder))
  ∧ (∀ k b, EdgeKeys (run ops NewGraphBuilder) !! k = Some b → b = true)
  ∧ (∀ id n, NodesByID (run ops NewGraphBuilder) !! id = Some n → ID n = id)
  ∧ Forall (λ e, ∃ kind s t P,
                e = newEdge kind s t P
                ∧ seen (run ops NewGraphBuilder) (edgeKey kind s t P) = true)
           (Edges (run ops NewGraphBuilder)).
Proof.
  intros Hv. change (consistent (run ops NewGraphBuilder)).
  induction ops as [|op ops IH] using rev_ind; [apply consistent_new|].
  apply Forall_app in Hv as [Hops Hop]. rewrite run_snoc.
  apply consistent_step; [by inversion Hop|by apply IH].
Qed.

(** The theorem at three calls, the last one a repeat. *)
Lemma run_consistent_witness :
  Forall validOp [OpNode ["User"] "u" ∅; OpEdge [] "CONTAINS" "a" "b" ∅;
                  OpEdge [] "CONTAINS" "a" "b" ∅]
  ∧ length (Edges (run [OpNode ["User"] "u" ∅; OpEdge [] "CONTAINS" "a" "b" ∅;
                        OpEdge [] "CONTAINS" "a" "b" ∅] NewGraphBuilder))
    = size (EdgeKeys (run [OpNode ["User"] "u" ∅; OpEdge [] "CONTAINS" "a" "b" ∅;
                           OpEdge [] "CONTAINS" "a" "b" ∅] NewGraphBuilder)).
Proof.
  assert (Forall validOp [OpNode ["User"] "u" ∅; OpEdge [] "CONTAINS" "a" "b" ∅;
                          OpEdge [] "CONTAINS" "a" "b" ∅]) as H.
  { repeat constructor. }
  split; [exact H|]. exact (proj1 (run_consistent _ H)).
Defined.

Lemma grows_refl gb : grows gb gb.
Proof.
  split_and!; [done|done|]. intros id n Hn. exists n. by split_and!.
Qed.

Lemma grows_trans a b c : grows a b → grows b c → grows a c.
Proof.
  intros (He1 & Hs1 & Hn1) (He2 & Hs2 & Hn2). split_and!.
  - by etrans.
  - auto.
  - intros id n Hn. destruct (Hn1 _ _ Hn) as (n1 & H1 & Hid1 & Hk1 & Hp1).
    destruct (Hn2 _ _ H1) as (n2 & H2 & Hid2 & Hk2 & Hp2).
    exists n2. split_and!; [done|congruence|by etrans|auto].
Qed.

Lemma grows_step gb op : grows gb (applyOp gb op).
Proof.
  destruct op as [kinds id P|visit kind s t P]; cbn [applyOp].
  - destruct (EnsureNode_edges kinds id P gb) as [He Hk]. split_and!.
    + by rewrite He.
    + intros k. unfold seen. by rewrite Hk.
    + intros id' n Hn. destruct (decide (id' = id)) as [->|Hne].
      * unfold EnsureNode. rewrite Hn. cbn. rewrite lookup_insert_eq.
        eexists. split; [done|]. cbn. split_and!; [done|apply unionKinds_prefix|].
        intros k Hk'. rewrite updateProperties_lookup.
        destruct (P !! k); [by eexists|done].
      * exists n. rewrite EnsureNode_other by done. by split_and!.
  - split_and!.
    + unfold AddEdgeIn. destruct (seen gb _); [done|]. cbn. by apply prefix_app_r.
    + intros k Hk. rewrite seen_AddEdgeIn, Hk. apply orb_true_r.
    + intros id n Hn. exists n. rewrite AddEdgeIn_nodes. by split_and!.
Qed.

(** X2.  The store only grows.  After any further calls, from any store:
    the earlier edges are still there, first and in order; every key seen
    before is still seen; every earlier node is still stored under its
    id, with the same [ID], its earlier kinds first and in order, and a
    value under every property key it had. *)
Theorem run_grows (ops : list Op) (gb : GraphBuilder) :
  Edges gb `prefix_of` Edges (run ops gb)
  ∧ (∀ k, seen gb k = true → seen (run ops gb) k = true)
  ∧ (∀ id n, NodesByID gb !! id = Some n →
       ∃ n', NodesByID (run ops gb) !! id = Some n'
             ∧ ID n' = ID n
             ∧ Kinds n `prefix_of` Kinds n'
             ∧ ∀ k, is_Some (Properties n !! k) → is_Some (Properties n' !! k)).
Proof.
  change (grows gb (run ops gb)).
  induction ops as [|op ops IH] using rev_ind; [apply grows_refl|].
  rewrite run_snoc. eapply grows_trans; [exact IH|apply grows_step].
Qed.

Lemma string_app_inv_head s t1 t2 : s +:+ t1 = s +:+ t2 → t1 = t2.
Proof.
  induction s as [|c s IH]; [by rewrite !string_app_nil_l|].
  rewrite !string_app_cons. intros [= H]. auto.
Qed.

Lemma ReplaceAll_byte (a b : ascii) (s : string) :
  ReplaceAll s (String a "") (String b "") = mapBytes (swapByte a b) s.
Proof.
  unfold ReplaceAll. induction s as [|c s IH]; [done|].
  cbn [ReplaceAll_go mapBytes HasPrefix]. unfold swapByte at 1.
  destruct (decide (a = c)) as [->|Hne].
  - rewrite decide_True by done. cbn [String.length Nat.sub].
    rewrite string_app_cons, string_app_nil_l. by rewrite IH.
  - rewrite decide_False by congruence. by rewrite IH.
Qed.

Lemma mapBytes_compose (f g : ascii → ascii) s :
  mapBytes f (mapBytes g s) = mapBytes (f ∘ g) s.
Proof. induction s as [|c s IH]; [done|]. cbn. by rewrite IH. Qed.

Lemma mapBytes_ext (f g : ascii → ascii) s :
  (∀ c, f c = g c) → mapBytes f s = mapBytes g s.
Proof. intros H. induction s as [|c s IH]; [done|]. cbn. by rewrite H, IH. Qed.

Lemma mapBytes_app f s t : mapBytes f (s +:+ t) = mapBytes f s +:+ mapBytes f t.
Proof.
  induction s as [|c s IH]; [by rewrite !string_app_nil_l|].
  cbn [mapBytes]. rewrite !string_app_cons. cbn [mapBytes]. by rewrite IH.
Qed.

Lemma mapBytes_length f s : String.length (mapBytes f s) = String.length s.
Proof. induction s as [|c s IH]; [done|]. cbn. by rewrite IH. Qed.

Lemma NodeTypeMap_identity k m : NodeTypeMap !! k = Some m → m = k.
Proof.
  intros H. apply elem_of_list_to_map_2 in H.
  repeat (apply elem_of_cons in H as [H|H]; [by inversion H|]).
  by apply elem_of_nil in H.
Qed.

Lemma cleaned_shape kind :
  FormatNodeKind kind = NodePrefix +:+ mapBytes cleanByte kind.
Proof.
  unfold FormatNodeKind.
  assert (match NodeTypeMap !! kind with Some m => m | None => kind end = kind) as ->.
  { destruct (NodeTypeMap !! kind) eqn:E; [by apply NodeTypeMap_identity in E|done]. }
  rewrite decide_True by done. f_equal.
  change "."%string with (String "."%char ""). change "_"%string with (String "_"%char "").
  change "-"%string with (String "-"%char ""). change " "%string with (String " "%char "").
  rewrite !ReplaceAll_byte, !mapBytes_compose. apply mapBytes_ext.
  intros c. unfold compose, swapByte, cleanByte.
  repeat case_decide; subst; try done.
Qed.

Lemma Contains_byte (a : ascii) (s : string) :
  Contains s (String a "") = true ↔ ∃ s1 s2, s = s1 +:+ String a s2.
Proof.
  split.
  - intros H. apply Contains_true in H as (x & y & H). exists x, y. by rewrite H.
  - intros (s1 & s2 & ->). apply Contains_true. by exists s1, s2.
Qed.

Lemma cleanByte_idem c : cleanByte (cleanByte c) = cleanByte c.
Proof. unfold cleanByte. repeat case_decide; subst; done. Qed.

Lemma cleanByte_not c :
  cleanByte c ≠ "."%char ∧ cleanByte c ≠ "-"%char ∧ cleanByte c ≠ " "%char.
Proof. unfold cleanByte. repeat case_decide; subst; done. Qed.

Lemma mapBytes_byte f s s1 a s2 :
  mapBytes f s = s1 +:+ String a s2 → ∃ c, a = f c.
Proof.
  revert s. induction s1 as [|x s1 IH]; intros [|c s]; cbn [mapBytes];
    rewrite ?string_app_nil_l, ?string_app_cons; try done.
  - intros [= <- _]. by exists c.
  - intros [= _ H]. by apply IH in H.
Qed.

Lemma app_byte_split p m s1 a s2 :
  p +:+ m = s1 +:+ String a s2 →
  (∃ p1 p2, p = p1 +:+ String a p2) ∨ (∃ m1, m = m1 +:+ String a s2).
Proof.
  revert s1. induction p as [|c p IH]; intros s1.
  - rewrite string_app_nil_l. intros ->. right. by exists s1.
  - rewrite string_app_cons. destruct s1 as [|x s1].
    + rewrite string_app_nil_l. intros [= -> _]. left. exists "", p.
      by rewrite string_app_nil_l.
    + rewrite string_app_cons. intros [= -> H]. apply IH in H as [(p1 & p2 & ->)|H].
      * left. exists (String x p1), p2. by rewrite string_app_cons.
      * by right.
Qed.

Lemma FormatNodeKind_no_byte kind a :
  a = "."%char ∨ a = "-"%char ∨ a = " "%char →
  Contains (FormatNodeKind kind) (String a "") = false.
Proof.
  intros Ha. apply not_true_is_false. intros H.
  apply Contains_byte in H as (s1 & s2 & H). rewrite cleaned_shape in H.
  apply app_byte_split in H as [(p1 & p2 & Hp)|(m1 & Hm)].
  - assert (Contains NodePrefix (String a "") = true) as Hc
      by (apply Contains_byte; eauto).
    destruct Ha as [-> | [-> | ->]]; vm_compute in Hc; done.
  - apply mapBytes_byte in Hm as (c & ->).
    destruct (cleanByte_not c) as (N1 & N2 & N3).
    destruct Ha as [Ha | [Ha | Ha]]; congruence.
Qed.

(** X3.  [FormatNodeKind] turns every kind into the prefix [vCenter_]
    followed by the kind with each dot, hyphen and space replaced by an
    underscore: the type table changes no name, the result is eight bytes
    longer than the kind and holds no dot, hyphen or space.  It is not
    idempotent: formatting a formatted kind puts the prefix in front a
    second time. *)
Theorem FormatNodeKind_shape (kind : string) :
  FormatNodeKind kind = "vCenter_" +:+ mapBytes cleanByte kind
  ∧ String.length (FormatNodeKind kind) = 8 + String.length kind
  ∧ Contains (FormatNodeKind kind) "." = false
  ∧ Contains (FormatNodeKind kind) "-" = false
  ∧ Contains (FormatNodeKind kind) " " = false
  ∧ FormatNodeKind (FormatNodeKind kind) = "vCenter_" +:+ FormatNodeKind kind.
Proof.
  split_and!.
  - apply cleaned_shape.
  - rewrite cleaned_shape, string_length_app, mapBytes_length. done.
  - apply FormatNodeKind_no_byte. auto.
  - apply FormatNodeKind_no_byte. auto.
  - apply FormatNodeKind_no_byte. auto.
  - rewrite (cleaned_shape (FormatNodeKind kind)). f_equal.
    rewrite cleaned_shape at 1. rewrite mapBytes_app, mapBytes_compose.
    rewrite cleaned_shape. f_equal. apply mapBytes_ext. intros c. apply cleanByte_idem.
Qed.

Lemma edgeKey_kind k1 k2 s t P : edgeKey k1 s t P = edgeKey k2 s t P → k1 = k2.
Proof.
  unfold edgeKey, edgeKeyIn. intros H.
  rewrite <- !string_app_assoc in H.
  repeat (apply string_app_inv_tail in H). done.
Qed.

(** X4.  [AddEdge] remembers an edge under its raw kind but stores the
    formatted kind.  Two different raw kinds that format alike (the table
    key [CONTAINS] and its value [Contains]) therefore pass the duplicate
    check separately, and the store ends up with the same edge twice. *)
Theorem AddEdge_formatted_kind_duplicates (gb : GraphBuilder) (k1 k2 s t : string)
    (P : gmap string value) :
  k1 ≠ k2 →
  FormatEdgeKind k1 = FormatEdgeKind k2 →
  seen gb (edgeKey k1 s t P) = false →
  seen gb (edgeKey k2 s t P) = false →
  Edges (AddEdge k2 s t P (AddEdge k1 s t P gb))
  = Edges gb ++ [newEdge k1 s t P; newEdge k1 s t P].
Proof.
  intros Hne Hfmt H1 H2. unfold AddEdge.
  rewrite (AddEdgeIn_fresh _ k1) by done.
  rewrite AddEdgeIn_fresh.
  - cbn. rewrite <- (assoc_L (++)). cbn. do 3 f_equal.
    unfold newEdge. by rewrite Hfmt.
  - unfold seen. cbn. rewrite lookup_insert_ne; [exact H2|].
    intros E. apply Hne. by apply (edgeKey_kind _ _ s t P).
Qed.

(** The theorem at the table key [CONTAINS] and its value [Contains]. *)
Lemma AddEdge_formatted_kind_duplicates_witness :
  Edges (AddEdge "Contains" "a" "b" ∅ (AddEdge "CONTAINS" "a" "b" ∅ NewGraphBuilder))
  = [newEdge "CONTAINS" "a" "b" ∅; newEdge "CONTAINS" "a" "b" ∅].
Proof.
  apply (AddEdge_formatted_kind_duplicates NewGraphBuilder "CONTAINS" "Contains"
           "a" "b" ∅); [done|by vm_compute|by vm_compute|by vm_compute].
Defined.

Lemma run_keyedByID ops gb :
  keyedByID (NodesByID gb) → keyedByID (NodesByID (run ops gb)).
Proof.
  induction ops as [|op ops IH] using rev_ind; [done|].
  intros H. rewrite run_snoc. destruct op as [kinds id P|visit kind s t P]; cbn [applyOp].
  - apply EnsureNode_keyedByID. auto.
  - rewrite AddEdgeIn_nodes. auto.
Qed.

Lemma keyed_ids (nodes : gmap string GraphNode) :
  keyedByID nodes → ID <$> (map_to_list nodes).*2 = (map_to_list nodes).*1.
Proof.
  intros Hk.
  assert (∀ l : list (string * GraphNode),
            (∀ id n, (id, n) ∈ l → ID n = id) → ID <$> l.*2 = l.*1) as Hl.
  { induction l as [|[id n] l IH]; [done|]. intros H. cbn.
    rewrite (H id n) by left. f_equal. apply IH. intros ???. apply H. by right. }
  apply Hl. intros id n Hin. apply elem_of_map_to_list in Hin. by apply Hk.
Qed.

(** X5.  [ToOutput] of a store built by any calls lists every stored
    node exactly once: no two listed nodes share an id, there are as many
    as the store holds, a node is listed exactly when it is the one
    stored under its id; the edges come out as stored, in insertion
    order. *)
Theorem ToOutput_run (ops : list Op) :
  NoDup (ID <$> (ToOutput (run ops NewGraphBuilder)).1)
  ∧ length (ToOutput (run ops NewGraphBuilder)).1
    = size (NodesByID (run ops NewGraphBuilder))
  ∧ (∀ n, n ∈ (ToOutput (run ops NewGraphBuilder)).1
          ↔ NodesByID (run ops NewGraphBuilder) !! ID n = Some n)
  ∧ (ToOutput (run ops NewGraphBuilder)).2 = Edges (run ops NewGraphBuilder).
Proof.
  pose proof (run_keyedByID ops NewGraphBuilder NewGraphBuilder_keyedByID) as Hk.
  unfold ToOutput. cbn [fst snd]. split_and!.
  - rewrite keyed_ids by done. apply NoDup_fst_map_to_list.
  - rewrite length_fmap. by rewrite length_map_to_list.
  - intros n. rewrite list_elem_of_fmap. split.
    + intros ([id n'] & -> & Hin). apply elem_of_map_to_list in Hin. cbn.
      by rewrite (Hk _ _ Hin).
    + intros H. exists (ID n, n). split; [done|]. by apply elem_of_map_to_list.
  - done.
Qed.

End StoreFacts.

(** ** One permission assignment: [processPermission] *)

Section PermissionPass.
Import GoStrings Graph Runs Ops Main Collector Permissions Samples.

Variable Host : string.
Variable retrieveHosts : ManagedObjectReference → option (list ManagedObjectReference).

(** [processPermission] as the calls it makes on the store. *)
Lemma processPermission_steps perm roles privMap gb :
  processPermission Host retrieveHosts perm roles privMap gb
  = let gb1 := EnsureNode (principalKinds perm) (principalIDOf Host perm)
                          (principalProps perm) gb in
    if isNoAccess (roleNameOf roles (PermRoleId perm)) then gb1
    else match Entity perm with
         | None => gb1
         | Some ref =>
             let kid := getEntityKindAndID Host retrieveHosts ref in
             AddEdge "HAS_PERMISSION" (principalIDOf Host perm) kid.2
               (grantProps roles privMap perm)
               (EnsureNode [kid.1] kid.2 (entityProps gb1 kid.2 ref) gb1)
         end.
Proof.
  unfold processPermission, grantProps, roleDetails, entityProps, roleNameOf.
  destruct (roles !! PermRoleId perm) as [r|].
  - destruct (privilegeDetails privMap (Privilege r)) as [privNames groupSet].
    destruct (isNoAccess (Name r)); [done|]. destruct (Entity perm) as [ref|]; [|done].
    by destruct (getEntityKindAndID Host retrieveHosts ref) as [k i].
  - destruct (isNoAccess ""); [done|]. destruct (Entity perm) as [ref|]; [|done].
    by destruct (getEntityKindAndID Host retrieveHosts ref) as [k i].
Qed.

Lemma grantProps_lookup roles privMap perm :
  grantProps roles privMap perm !! "roleId" = Some (VInt (PermRoleId perm))
  ∧ grantProps roles privMap perm !! "roleName"
    = Some (VStr (roleNameOf roles (PermRoleId perm)))
  ∧ grantProps roles privMap perm !! "propagate" = Some (VBool (Propagate perm)).
Proof.
  unfold grantProps, roleDetails, roleNameOf.
  destruct (roles !! PermRoleId perm) as [r|].
  - by destruct (privilegeDetails privMap (Privilege r)) as [privNames groupSet].
  - done.
Qed.

(** X6.  An assignment on an entity whose role is not a no-access role
    always leaves its mark: afterwards the edge key of the permission edge
    from the principal to the entity is remembered, the edge was appended
    unless that key had been seen before, the principal's node exists, the
    entity's node carries the entity kind, and the edge properties hold
    the role id, the role name and the propagate flag of the
    assignment. *)
Theorem processPermission_grant (perm : Permission) (roles : gmap Z AuthorizationRole)
    (privMap : gmap string AuthorizationPrivilege) (gb : GraphBuilder)
    (ref : ManagedObjectReference) :
  Entity perm = Some ref →
  isNoAccess (roleNameOf roles (PermRoleId perm)) = false →
  Edges (processPermission Host retrieveHosts perm roles privMap gb)
  = (if seen gb (edgeKey "HAS_PERMISSION" (principalIDOf Host perm)
                   (getEntityKindAndID Host retrieveHosts ref).2
                   (grantProps roles privMap perm))
     then Edges gb
     else Edges gb ++ [newEdge "HAS_PERMISSION" (principalIDOf Host perm)
                         (getEntityKindAndID Host retrieveHosts ref).2
                         (grantProps roles privMap perm)])
  ∧ seen (processPermission Host retrieveHosts perm roles privMap gb)
         (edgeKey "HAS_PERMISSION" (principalIDOf Host perm)
            (getEntityKindAndID Host retrieveHosts ref).2
            (grantProps roles privMap perm)) = true
  ∧ is_Some (NodesByID (processPermission Host retrieveHosts perm roles privMap gb)
             !! principalIDOf Host perm)
  ∧ FormatNodeKind (getEntityKindAndID Host retrieveHosts ref).1
    ∈ kindsOf (processPermission Host retrieveHosts perm roles privMap gb)
              (getEntityKindAndID Host retrieveHosts ref).2
  ∧ grantProps roles privMap perm !! "roleId" = Some (VInt (PermRoleId perm))
  ∧ grantProps roles privMap perm !! "roleName"
    = Some (VStr (roleNameOf roles (PermRoleId perm)))
  ∧ grantProps roles privMap perm !! "propagate" = Some (VBool (Propagate perm)).
Proof.
  intros Hent Hno. rewrite processPermission_steps, Hent, Hno. cbn zeta.
  set (gb1 := EnsureNode (principalKinds perm) (principalIDOf Host perm)
                (principalProps perm) gb).
  set (kid := getEntityKindAndID Host retrieveHosts ref).
  set (gb2 := EnsureNode [kid.1] kid.2 (entityProps gb1 kid.2 ref) gb1).
  set (P := grantProps roles privMap perm).
  assert (Edges gb2 = Edges gb ∧ EdgeKeys gb2 = EdgeKeys gb) as [He Hk].
  { destruct (EnsureNode_edges [kid.1] kid.2 (entityProps gb1 kid.2 ref) gb1) as [E1 E2].
    destruct (EnsureNode_edges (principalKinds perm) (principalIDOf Host perm)
                (principalProps perm) gb) as [E3 E4].
    unfold gb2. rewrite E1, E2. unfold gb1. by rewrite E3, E4. }
  assert (seen gb2 (edgeKey "HAS_PERMISSION" (principalIDOf Host perm) kid.2 P)
          = seen gb (edgeKey "HAS_PERMISSION" (principalIDOf Host perm) kid.2 P)) as Hs.
  { unfold seen. by rewrite Hk. }
  split_and!.
  - unfold AddEdge, AddEdgeIn.
    fold (edgeKey "HAS_PERMISSION" (principalIDOf Host perm) kid.2 P).
    rewrite Hs. destruct (seen gb _); cbn; by rewrite He.
  - unfold AddEdge. rewrite seen_AddEdgeIn.
    fold (edgeKey "HAS_PERMISSION" (principalIDOf Host perm) kid.2 P).
    by rewrite bool_decide_true.
  - unfold AddEdge. rewrite AddEdgeIn_nodes. unfold gb2.
    destruct (decide (principalIDOf Host perm = kid.2)) as [->|Hne].
    + apply EnsureNode_present.
    + rewrite EnsureNode_other by done. apply EnsureNode_present.
  - unfold kindsOf, AddEdge. rewrite AddEdgeIn_nodes.
    apply (EnsureNode_kinds [kid.1] kid.2 (entityProps gb1 kid.2 ref) gb1).
    right. cbn. left.
  - apply grantProps_lookup.
  - apply grantProps_lookup.
  - apply grantProps_lookup.
Qed.

(** X7.  An assignment whose role id is not in the role list is not
    dropped: the empty role name is no no-access name, so the assignment
    gets its edge, with an empty role name, no privileges and a privilege
    count of 0. *)
Theorem processPermission_unknown_role (perm : Permission)
    (roles : gmap Z AuthorizationRole) (privMap : gmap string AuthorizationPrivilege)
    (gb : GraphBuilder) (ref : ManagedObjectReference) :
  roles !! PermRoleId perm = None →
  Entity perm = Some ref →
  grantProps roles privMap perm
  = edgeProps (PermRoleId perm) "" (Propagate perm) [] [] [] 0
  ∧ seen (processPermission Host retrieveHosts perm roles privMap gb)
         (edgeKey "HAS_PERMISSION" (principalIDOf Host perm)
            (getEntityKindAndID Host retrieveHosts ref).2
            (edgeProps (PermRoleId perm) "" (Propagate perm) [] [] [] 0)) = true
  ∧ (seen gb (edgeKey "HAS_PERMISSION" (principalIDOf Host perm)
                (getEntityKindAndID Host retrieveHosts ref).2
                (edgeProps (PermRoleId perm) "" (Propagate perm) [] [] [] 0)) = false →
     Edges (processPermission Host retrieveHosts perm roles privMap gb)
     = Edges gb ++ [newEdge "HAS_PERMISSION" (principalIDOf Host perm)
                      (getEntityKindAndID Host retrieveHosts ref).2
                      (edgeProps (PermRoleId perm) "" (Propagate perm) [] [] [] 0)]).
Proof.
  intros Hr Hent.
  assert (grantProps roles privMap perm
          = edgeProps (PermRoleId perm) "" (Propagate perm) [] [] [] 0) as HP.
  { unfold grantProps, roleDetails. by rewrite Hr. }
  assert (isNoAccess (roleNameOf roles (PermRoleId perm)) = false) as Hno.
  { unfold roleNameOf. by rewrite Hr. }
  rewrite processPermission_steps, Hent, Hno, HP. cbn zeta.
  set (gb1 := EnsureNode (principalKinds perm) (principalIDOf Host perm)
                (principalProps perm) gb).
  set (kid := getEntityKindAndID Host retrieveHosts ref).
  set (gb2 := EnsureNode [kid.1] kid.2 (entityProps gb1 kid.2 ref) gb1).
  set (P := edgeProps (PermRoleId perm) "" (Propagate perm) [] [] [] 0).
  assert (Edges gb2 = Edges gb ∧ EdgeKeys gb2 = EdgeKeys gb) as [He Hk].
  { destruct (EnsureNode_edges [kid.1] kid.2 (entityProps gb1 kid.2 ref) gb1) as [E1 E2].
    destruct (EnsureNode_edges (principalKinds perm) (principalIDOf Host perm)
                (principalProps perm) gb) as [E3 E4].
    unfold gb2. rewrite E1, E2. unfold gb1. by rewrite E3, E4. }
  split_and!; [done| |].
  - unfold AddEdge. rewrite seen_AddEdgeIn.
    fold (edgeKey "HAS_PERMISSION" (principalIDOf Host perm) kid.2 P).
    by rewrite bool_decide_true.
  - intros Hf. unfold AddEdge. rewrite AddEdgeIn_fresh; [cbn; by rewrite He|].
    fold (edgeKey "HAS_PERMISSION" (principalIDOf Host perm) kid.2 P).
    unfold seen in *. by rewrite Hk.
Qed.

(** X8.  The placeholder rule.  For an assignment that gets an edge, on an
    entity whose id differs from the principal's: an entity the store
    already held keeps the name it had (also when it had none); an entity
    the store did not hold gets its managed-object id as name.  In both
    cases [moid] is set to the managed-object id and every other property
    of the entity's node is left as it was. *)
Theorem processPermission_placeholder (perm : Permission)
    (roles : gmap Z AuthorizationRole) (privMap : gmap string AuthorizationPrivilege)
    (gb : GraphBuilder) (ref : ManagedObjectReference) :
  Entity perm = Some ref →
  isNoAccess (roleNameOf roles (PermRoleId perm)) = false →
  (getEntityKindAndID Host retrieveHosts ref).2 ≠ principalIDOf Host perm →
  propsOf (processPermission Host retrieveHosts perm roles privMap gb)
          (getEntityKindAndID Host retrieveHosts ref).2 !! "name"
  = match NodesByID gb !! (getEntityKindAndID Host retrieveHosts ref).2 with
    | Some n => Properties n !! "name"
    | None => Some (VStr (Value ref))
    end
  ∧ propsOf (processPermission Host retrieveHosts perm roles privMap gb)
            (getEntityKindAndID Host retrieveHosts ref).2 !! "moid"
    = Some (VStr (Value ref))
  ∧ (∀ k, k ≠ "name" → k ≠ "moid" →
       propsOf (processPermission Host retrieveHosts perm roles privMap gb)
               (getEntityKindAndID Host retrieveHosts ref).2 !! k
       = propsOf gb (getEntityKindAndID Host retrieveHosts ref).2 !! k).
Proof.
  intros Hent Hno Hne. rewrite processPermission_steps, Hent, Hno. cbn zeta.
  set (gb1 := EnsureNode (principalKinds perm) (principalIDOf Host perm)
                (principalProps perm) gb).
  set (eid := (getEntityKindAndID Host retrieveHosts ref).2) in *.
  assert (NodesByID gb1 !! eid = NodesByID gb !! eid) as H1
    by (by apply EnsureNode_other).
  assert (propsOf gb1 eid = propsOf gb eid) as Hp1 by (unfold propsOf; by rewrite H1).
  assert (∀ k, propsOf (AddEdge "HAS_PERMISSION" (principalIDOf Host perm) eid
                          (grantProps roles privMap perm)
                          (EnsureNode [(getEntityKindAndID Host retrieveHosts ref).1] eid
                             (entityProps gb1 eid ref) gb1)) eid !! k
               = match entityProps gb1 eid ref !! k with
                 | Some v => Some v
                 | None => propsOf gb eid !! k
                 end) as Hk.
  { intros k. unfold propsOf at 1, AddEdge. rewrite AddEdgeIn_nodes.
    fold (propsOf (EnsureNode [(getEntityKindAndID Host retrieveHosts ref).1] eid
                     (entityProps gb1 eid ref) gb1) eid).
    by rewrite EnsureNode_props, Hp1. }
  assert (entityProps gb1 eid ref
          = match NodesByID gb !! eid with
            | None => <["name" := VStr (Value ref)]> (<["moid" := VStr (Value ref)]> ∅)
            | Some _ => <["moid" := VStr (Value ref)]> ∅
            end) as HeP.
  { unfold entityProps. by rewrite H1. }
  split_and!.
  - rewrite Hk, HeP. unfold propsOf.
    destruct (NodesByID gb !! eid) as [n|] eqn:E; by simplify_map_eq.
  - rewrite Hk, HeP. destruct (NodesByID gb !! eid) as [n|]; by simplify_map_eq.
  - intros k Hn Hm. rewrite Hk, HeP.
    destruct (NodesByID gb !! eid) as [n|]; by simplify_map_eq.
Qed.

(** X9.  What one assignment can do to the store at most: it appends at
    most one edge and removes none; without an entity it does only what
    the [EnsureNode] call on the principal does; and it leaves every node
    alone that is neither the principal's nor the entity's. *)
Theorem processPermission_frame (perm : Permission)
    (roles : gmap Z AuthorizationRole) (privMap : gmap string AuthorizationPrivilege)
    (gb : GraphBuilder) :
  Edges gb `prefix_of` Edges (processPermission Host retrieveHosts perm roles privMap gb)
  ∧ length (Edges (processPermission Host retrieveHosts perm roles privMap gb))
    ≤ S (length (Edges gb))
  ∧ (Entity perm = None →
     processPermission Host retrieveHosts perm roles privMap gb
     = EnsureNode (principalKinds perm) (principalIDOf Host perm)
                  (principalProps perm) gb)
  ∧ (∀ id, id ≠ principalIDOf Host perm →
       (∀ ref, Entity perm = Some ref →
               id ≠ (getEntityKindAndID Host retrieveHosts ref).2) →
       NodesByID (processPermission Host retrieveHosts perm roles privMap gb) !! id
       = NodesByID gb !! id).
Proof.
  rewrite processPermission_steps. cbn zeta.
  set (gb1 := EnsureNode (principalKinds perm) (principalIDOf Host perm)
                (principalProps perm) gb).
  destruct (EnsureNode_edges (principalKinds perm) (principalIDOf Host perm)
              (principalProps perm) gb) as [E1 _]. fold gb1 in E1.
  destruct (isNoAccess _).
  { rewrite E1. split_and!; [done|lia|done|]. intros id Hid _. by apply EnsureNode_other. }
  destruct (Entity perm) as [ref|].
  2:{ rewrite E1. split_and!; [done|lia|done|]. intros id Hid _. by apply EnsureNode_other. }
  set (kid := getEntityKindAndID Host retrieveHosts ref).
  destruct (EnsureNode_edges [kid.1] kid.2 (entityProps gb1 kid.2 ref) gb1) as [E2 _].
  split_and!.
  - unfold AddEdge, AddEdgeIn. destruct (seen _ _); cbn; rewrite E2, E1; [done|].
    by apply prefix_app_r.
  - unfold AddEdge, AddEdgeIn.
    destruct (seen _ _); cbn; rewrite ?length_app, E2, E1; cbn; lia.
  - done.
  - intros id Hid Href. unfold AddEdge. rewrite AddEdgeIn_nodes.
    rewrite EnsureNode_other by (by apply Href). by apply EnsureNode_other.
Qed.

(** X10.  The entity ids of [getEntityKindAndID].  A permission on a compute
    resource lands on the node of a host: its kind and id are those of a
    [HostSystem] reference to the first host of the resource, or to the
    resource's own id when the host query fails or finds no host.  For
    every other type, two references of the same type get the same kind,
    and the same id only when they have the same managed-object id.  A
    type the switch does not list is its own kind, with the lower-cased
    type name in front of the id. *)
Theorem getEntityKindAndID_ids (ref : ManagedObjectReference) :
  (RefType ref = "ComputeResource" →
   getEntityKindAndID Host retrieveHosts ref
   = getEntityKindAndID Host retrieveHosts
       {| RefType := "HostSystem";
          Value := match retrieveHosts ref with
                   | Some (h :: _) => Value h
                   | _ => Value ref
                   end |})
  ∧ (∀ other, RefType other = RefType ref → RefType ref ≠ "ComputeResource" →
       (getEntityKindAndID Host retrieveHosts other).1
       = (getEntityKindAndID Host retrieveHosts ref).1
       ∧ ((getEntityKindAndID Host retrieveHosts other).2
          = (getEntityKindAndID Host retrieveHosts ref).2 →
          Value other = Value ref))
  ∧ (RefType ref ∉ ["Datacenter"; "ClusterComputeResource"; "HostSystem";
                    "ComputeResource"; "VirtualMachine"; "Folder"] →
     getEntityKindAndID Host retrieveHosts ref
     = (RefType ref, ToLower (RefType ref) +:+ ":" +:+ Host +:+ ":" +:+ Value ref)).
Proof.
  split_and!.
  - intros Ht. unfold getEntityKindAndID, getID. rewrite Ht. cbn.
    by destruct (retrieveHosts ref) as [[|h l]|].
  - intros other Ho Hne. unfold getEntityKindAndID, getID. rewrite Ho.
    repeat case_decide; try done; cbn [fst snd]; (split; [done|]); intros Heq;
      repeat (apply string_app_inv_head in Heq); done.
  - intros Hn. unfold getEntityKindAndID, getID.
    repeat (destruct (decide _) as [Hd|_];
            [exfalso; apply Hn; rewrite Hd;
             repeat first [apply list_elem_of_here | apply list_elem_of_further]|]).
    done.
Qed.
End PermissionPass.

(** The theorems at the sample assignments. *)
Lemma processPermission_grant_witness :
  Collector.Entity (Samples.demoPerm 1 true)
  = Some {| Collector.RefType := "Folder"; Collector.Value := "group-d1" |}
  ∧ Graph.seen (Samples.process (Samples.demoPerm 1 true) Graph.NewGraphBuilder)
      (Graph.edgeKey "HAS_PERMISSION" "user:vc:CORP\jdoe" "folder:vc:group-d1"
         (Permissions.grantProps Samples.demoRoles Samples.demoPrivileges
            (Samples.demoPerm 1 true))) = true.
Proof.
  split; [reflexivity|].
  exact (proj1 (proj2 (processPermission_grant "vc" (λ _, None) (Samples.demoPerm 1 true)
                         Samples.demoRoles Samples.demoPrivileges Graph.NewGraphBuilder
                         _ eq_refl eq_refl))).
Defined.

Lemma processPermission_unknown_role_witness :
  Samples.demoRoles !! 9%Z = None
  ∧ Permissions.grantProps Samples.demoRoles Samples.demoPrivileges
      (Samples.demoPerm 9 true)
    = Permissions.edgeProps 9 "" true [] [] [] 0.
Proof.
  split; [reflexivity|].
  exact (proj1 (processPermission_unknown_role "vc" (λ _, None) (Samples.demoPerm 9 true)
                  Samples.demoRoles Samples.demoPrivileges Graph.NewGraphBuilder
                  _ eq_refl eq_refl)).
Defined.

Lemma processPermission_placeholder_witness :
  Runs.propsOf (Samples.process (Samples.demoPerm 1 true) Graph.NewGraphBuilder)
    "folder:vc:group-d1" !! "name" = Some (Graph.VStr "group-d1").
Proof.
  refine (proj1 (processPermission_placeholder "vc" (λ _, None) (Samples.demoPerm 1 true)
                   Samples.demoRoles Samples.demoPrivileges Graph.NewGraphBuilder
                   _ eq_refl eq_refl _)).
  vm_compute. discriminate.
Defined.

Section PrivilegeFacts.
Import GoStrings Graph Collector Permissions.

Lemma privilegeDetails_snoc privMap privs pid :
  privilegeDetails privMap (privs ++ [pid])
  = match privMap !! pid with
    | Some p => ((privilegeDetails privMap privs).1 ++ [PrivName p],
                 <[PrivGroupName p := true]> (privilegeDetails privMap privs).2)
    | None => ((privilegeDetails privMap privs).1 ++ [pid],
               (privilegeDetails privMap privs).2)
    end.
Proof.
  unfold privilegeDetails. rewrite foldl_app. cbn [foldl].
  destruct (foldl _ _ privs) as [names groups]. done.
Qed.

Lemma rangeKeys_elem_of {V} (m : gmap string V) k :
  k ∈ rangeKeys m ↔ is_Some (m !! k).
Proof.
  unfold rangeKeys. rewrite list_elem_of_fmap. split.
  - intros ([k' v] & -> & H%elem_of_map_to_list). eauto.
  - intros [v Hv]. exists (k, v). split; [done|]. by apply elem_of_map_to_list.
Qed.

Lemma rangeKeys_NoDup_of {V} (m : gmap string V) : NoDup (rangeKeys m).
Proof. apply NoDup_fst_map_to_list. Qed.

Lemma privilegeDetails_groups privMap privs g :
  is_Some ((privilegeDetails privMap privs).2 !! g)
  ↔ ∃ pid p, pid ∈ privs ∧ privMap !! pid = Some p ∧ PrivGroupName p = g.
Proof.
  induction privs as [|pid privs IH] using rev_ind.
  - cbn. rewrite lookup_empty. split; [by intros [? ?]|].
    intros (pid & p & Hin & _). by apply elem_of_nil in Hin.
  - rewrite privilegeDetails_snoc. destruct (privMap !! pid) as [p|] eqn:E; cbn.
    + destruct (decide (PrivGroupName p = g)) as [<-|Hne].
      * rewrite lookup_insert_eq. split; [|eauto]. intros _. exists pid, p.
        split_and!; [|done|done]. apply elem_of_app. right. left.
      * rewrite lookup_insert_ne by done. rewrite IH. split.
        -- intros (q & p' & Hin & ? & ?). exists q, p'. split_and!; [|done|done].
           apply elem_of_app. by left.
        -- intros (q & p' & Hin & Hq & Hg). apply elem_of_app in Hin as [Hin|Hin].
           ++ eauto.
           ++ apply list_elem_of_singleton in Hin. subst q. congruence.
    + rewrite IH. split.
      * intros (q & p' & Hin & ? & ?). exists q, p'. split_and!; [|done|done].
        apply elem_of_app. by left.
      * intros (q & p' & Hin & Hq & Hg). apply elem_of_app in Hin as [Hin|Hin].
        -- eauto.
        -- apply list_elem_of_singleton in Hin. subst q. congruence.
Qed.

(** X11.  What a permission edge says about the privileges of its role:
    [privilegeNames] has one entry per privilege id of the role, in order,
    the display name of a known privilege and the bare id of an unknown
    one; [privilegeGroups] holds exactly the groups of the role's known
    privileges, each once, in ascending order. *)
Theorem privilegeDetails_spec (privMap : gmap string AuthorizationPrivilege)
    (privs : list string) :
  (privilegeDetails privMap privs).1 = privNameOf privMap <$> privs
  ∧ (∀ g, g ∈ sortStrings (rangeKeys (privilegeDetails privMap privs).2)
          ↔ ∃ pid p, pid ∈ privs ∧ privMap !! pid = Some p ∧ PrivGroupName p = g)
  ∧ NoDup (sortStrings (rangeKeys (privilegeDetails privMap privs).2))
  ∧ Sorted String.le (sortStrings (rangeKeys (privilegeDetails privMap privs).2)).
Proof.
  split_and!.
  - induction privs as [|pid privs IH] using rev_ind; [done|].
    rewrite privilegeDetails_snoc, fmap_app. cbn. unfold privNameOf at 2.
    destruct (privMap !! pid); cbn; by rewrite IH.
  - intros g. rewrite sortStrings_elem, rangeKeys_elem_of.
    apply privilegeDetails_groups.
  - apply sortStrings_NoDup, rangeKeys_NoDup_of.
  - apply Sorted_merge_sort. apply _.
Qed.

End PrivilegeFacts.

(** ** The identity passes: [CollectPermissions],
    [CollectGroupMemberships], [Collect] *)

Section IdentityFacts.
Import GoStrings Graph Runs Ops Main Collector Permissions Identity Samples.

Lemma grows_EnsureNode kinds id P gb : grows gb (EnsureNode kinds id P gb).
Proof. apply (grows_step gb (OpNode kinds id P)). Qed.

Lemma grows_AddEdge kind s t P gb : grows gb (AddEdge kind s t P gb).
Proof. apply (grows_step gb (OpEdge (rangeKeys P) kind s t P)). Qed.

Lemma grows_foldl {A} (f : GraphBuilder → A → GraphBuilder) l gb :
  (∀ g a, grows g (f g a)) → grows gb (foldl f gb l).
Proof.
  intros Hf. induction l as [|a l IH] using rev_ind; [apply grows_refl|].
  rewrite foldl_app. cbn. eapply grows_trans; [exact IH|apply Hf].
Qed.

Lemma grows_foldl_snd {A S} (f : S * GraphBuilder → A → S * GraphBuilder) l st :
  (∀ st a, grows st.2 (f st a).2) → grows st.2 (foldl f st l).2.
Proof.
  intros Hf. induction l as [|a l IH] using rev_ind; [apply grows_refl|].
  rewrite foldl_app. cbn. eapply grows_trans; [exact IH|apply Hf].
Qed.

Lemma grows_present gb gb' id :
  grows gb gb' → is_Some (NodesByID gb !! id) → is_Some (NodesByID gb' !! id).
Proof. intros (_ & _ & Hn) [n Hid]. destruct (Hn _ _ Hid) as (n' & -> & _). eauto. Qed.

Lemma startOf_newEdge k s t P : startOf (newEdge k s t P) = s ∧ endOf (newEdge k s t P) = t.
Proof. done. Qed.

Lemma closed_EnsureNode kinds id P gb : closed gb → closed (EnsureNode kinds id P gb).
Proof.
  intros Hc e He. destruct (EnsureNode_edges kinds id P gb) as [E _]. rewrite E in He.
  destruct (Hc e He) as [H1 H2].
  split; eapply grows_present; eauto using grows_EnsureNode.
Qed.

Lemma closedBut_closed X gb : closed gb → closedBut X gb.
Proof. intros Hc e He. destruct (Hc e He). auto. Qed.

Lemma closedBut_EnsureNode kinds X P gb : closedBut X gb → closed (EnsureNode kinds X P gb).
Proof.
  intros Hc e He. destruct (EnsureNode_edges kinds X P gb) as [E _]. rewrite E in He.
  destruct (Hc e He) as [[H1| ->] [H2| ->]]; split;
    solve [apply EnsureNode_present
          | eapply grows_present; eauto using grows_EnsureNode].
Qed.

Lemma closedBut_AddEdge X kind s t P gb :
  closedBut X gb →
  is_Some (NodesByID gb !! s) ∨ s = X →
  is_Some (NodesByID gb !! t) ∨ t = X →
  closedBut X (AddEdge kind s t P gb).
Proof.
  intros Hc Hs Ht e He. unfold AddEdge in *. rewrite AddEdgeIn_nodes.
  unfold AddEdgeIn in He. destruct (seen gb _); [by apply Hc|].
  cbn in He. apply elem_of_app in He as [He|He]; [by apply Hc|].
  apply list_elem_of_singleton in He. subst e.
  by destruct (startOf_newEdge kind s t P) as [-> ->].
Qed.

Lemma closed_AddEdge kind s t P gb :
  closed gb → is_Some (NodesByID gb !! s) → is_Some (NodesByID gb !! t) →
  closed (AddEdge kind s t P gb).
Proof.
  intros Hc Hs Ht e He. unfold AddEdge in *. rewrite AddEdgeIn_nodes.
  unfold AddEdgeIn in He. destruct (seen gb _); [by apply Hc|].
  cbn in He. apply elem_of_app in He as [He|He]; [by apply Hc|].
  apply list_elem_of_singleton in He. subst e.
  by destruct (startOf_newEdge kind s t P) as [-> ->].
Qed.

Section PermissionsLoop.
Variable Host : string.
Variable retrieveHosts : ManagedObjectReference → option (list ManagedObjectReference).

Lemma grows_processPermission perm roles privMap gb :
  grows gb (processPermission Host retrieveHosts perm roles privMap gb).
Proof.
  rewrite processPermission_steps. cbn zeta.
  destruct (isNoAccess _); [apply grows_EnsureNode|].
  destruct (Entity perm) as [ref|]; [|apply grows_EnsureNode].
  eapply grows_trans; [apply grows_EnsureNode|].
  eapply grows_trans; [apply grows_EnsureNode|]. apply grows_AddEdge.
Qed.

Lemma processPermission_principal perm roles privMap gb :
  is_Some (NodesByID (processPermission Host retrieveHosts perm roles privMap gb)
           !! principalIDOf Host perm).
Proof.
  rewrite processPermission_steps. cbn zeta.
  destruct (isNoAccess _); [apply EnsureNode_present|].
  destruct (Entity perm) as [ref|]; [|apply EnsureNode_present].
  eapply grows_present; [|apply EnsureNode_present].
  eapply grows_trans; [apply grows_EnsureNode|]. apply grows_AddEdge.
Qed.

Lemma closed_processPermission perm roles privMap gb :
  closed gb → closed (processPermission Host retrieveHosts perm roles privMap gb).
Proof.
  intros Hc. rewrite processPermission_steps. cbn zeta.
  destruct (isNoAccess _); [by apply closed_EnsureNode|].
  destruct (Entity perm) as [ref|]; [|by apply closed_EnsureNode].
  apply closed_AddEdge.
  - by do 2 apply closed_EnsureNode.
  - eapply grows_present; [apply grows_EnsureNode|apply EnsureNode_present].
  - apply EnsureNode_present.
Qed.

Lemma closed_collectPrivilege st p : closed st.2 → closed (collectPrivilege Host st p).2.
Proof. intros Hc. by apply closed_EnsureNode. Qed.

Lemma grows_collectPrivilege st p : grows st.2 (collectPrivilege Host st p).2.
Proof. apply grows_EnsureNode. Qed.

Lemma privileges_loop l gb :
  closed gb →
  closed (foldl (collectPrivilege Host) (∅, gb) l).2
  ∧ (∀ pid, is_Some ((foldl (collectPrivilege Host) (∅, gb) l).1 !! pid) →
        is_Some (NodesByID (foldl (collectPrivilege Host) (∅, gb) l).2
                 !! privilegeNodeID Host pid))
  ∧ (∀ pid, is_Some ((foldl (collectPrivilege Host) (∅, gb) l).1 !! pid)
            ↔ ∃ p, p ∈ l ∧ PrivId p = pid).
Proof.
  intros Hc. induction l as [|p l IH] using rev_ind.
  - cbn. split_and!; [done| |].
    + intros pid. rewrite lookup_empty. by intros [? ?].
    + intros pid. rewrite lookup_empty. split; [by intros [? ?]|].
      intros (p & Hin & _). by apply elem_of_nil in Hin.
  - rewrite foldl_app. cbn [foldl]. destruct IH as (IH1 & IH2 & IH3).
    set (st := foldl (collectPrivilege Host) (∅, gb) l) in *.
    split_and!.
    + by apply closed_collectPrivilege.
    + intros pid. cbn. destruct (decide (PrivId p = pid)) as [<-|Hne].
      * intros _. apply EnsureNode_present.
      * rewrite lookup_insert_ne by done. intros H.
        eapply grows_present; [apply grows_EnsureNode|]. by apply IH2.
    + intros pid. cbn. destruct (decide (PrivId p = pid)) as [<-|Hne].
      * rewrite lookup_insert_eq. split; [|eauto]. intros _. exists p.
        split; [|done]. apply elem_of_app. right. left.
      * rewrite lookup_insert_ne by done. rewrite IH3. split.
        -- intros (q & Hin & Hq). exists q. split; [|done]. apply elem_of_app. by left.
        -- intros (q & Hin & Hq). apply elem_of_app in Hin as [Hin|Hin]; [eauto|].
           apply list_elem_of_singleton in Hin. by subst q.
Qed.

Lemma grows_rolePrivilege privMap roleID st pid :
  grows st.2 (rolePrivilege Host privMap roleID st pid).2.
Proof.
  unfold rolePrivilege. destruct (privMap !! pid); [apply grows_AddEdge|apply grows_refl].
Qed.

Lemma grows_collectRole privMap st turn : grows st.2 (collectRole Host privMap st turn).2.
Proof.
  unfold collectRole. cbn [snd].
  eapply grows_trans; [|apply grows_EnsureNode].
  apply (grows_foldl_snd (rolePrivilege Host privMap _) _ (∅, st.2)).
  intros. apply grows_rolePrivilege.
Qed.

Lemma closed_collectRole privMap st turn :
  (∀ pid, is_Some (privMap !! pid) → is_Some (NodesByID st.2 !! privilegeNodeID Host pid)) →
  closed st.2 → closed (collectRole Host privMap st turn).2.
Proof.
  intros Hp Hc. unfold collectRole. cbn [snd].
  apply closedBut_EnsureNode.
  set (X := roleNodeID Host (RoleId turn.1)).
  assert (∀ l, closedBut X (foldl (rolePrivilege Host privMap X) (∅, st.2) l).2
               ∧ grows st.2 (foldl (rolePrivilege Host privMap X) (∅, st.2) l).2) as H.
  { induction l as [|pid l [IH1 IH2]] using rev_ind.
    - split; [by apply closedBut_closed|apply grows_refl].
    - rewrite foldl_app. cbn [foldl]. split.
      + unfold rolePrivilege at 1. destruct (privMap !! pid) eqn:E; [|done].
        cbn [snd]. apply closedBut_AddEdge; [done|by right|left].
        eapply grows_present; [exact IH2|]. apply Hp. eauto.
      + eapply grows_trans; [exact IH2|apply grows_rolePrivilege]. }
  apply H.
Qed.

Lemma roles_loop privMap l st :
  (∀ pid, is_Some (privMap !! pid) → is_Some (NodesByID st.2 !! privilegeNodeID Host pid)) →
  closed st.2 →
  closed (foldl (collectRole Host privMap) st l).2
  ∧ grows st.2 (foldl (collectRole Host privMap) st l).2.
Proof.
  intros Hp Hc. induction l as [|turn l [IH1 IH2]] using rev_ind.
  - split; [done|apply grows_refl].
  - rewrite foldl_app. cbn [foldl]. split.
    + apply closed_collectRole; [|done]. intros pid Hpid.
      eapply grows_present; [exact IH2|]. by apply Hp.
    + eapply grows_trans; [exact IH2|apply grows_collectRole].
Qed.

Lemma perms_loop roles privMap l gb :
  closed gb →
  closed (foldl (λ gb perm, processPermission Host retrieveHosts perm roles privMap gb) gb l)
  ∧ grows gb (foldl (λ gb perm, processPermission Host retrieveHosts perm roles privMap gb) gb l)
  ∧ (∀ perm, perm ∈ l →
       is_Some (NodesByID (foldl (λ gb perm, processPermission Host retrieveHosts perm roles privMap gb) gb l)
                !! principalIDOf Host perm)).
Proof.
  intros Hc. induction l as [|perm l (IH1 & IH2 & IH3)] using rev_ind.
  - split_and!; [done|apply grows_refl|]. intros perm Hin. by apply elem_of_nil in Hin.
  - rewrite foldl_app. cbn [foldl]. split_and!.
    + by apply closed_processPermission.
    + eapply grows_trans; [exact IH2|apply grows_processPermission].
    + intros q Hin. apply elem_of_app in Hin as [Hin|Hin].
      * eapply grows_present; [apply grows_processPermission|]. by apply IH3.
      * apply list_elem_of_singleton in Hin. subst q. apply processPermission_principal.
Qed.

End PermissionsLoop.

Lemma addsOnly_refl Q gb : addsOnly Q gb gb.
Proof. intros e He. by left. Qed.

Lemma addsOnly_trans Q a b c : addsOnly Q a b → addsOnly Q b c → addsOnly Q a c.
Proof. intros H1 H2 e He. destruct (H2 e He) as [H|H]; [by apply H1|by right]. Qed.

Lemma addsOnly_EnsureNode Q kinds id P gb : addsOnly Q gb (EnsureNode kinds id P gb).
Proof.
  intros e He. destruct (EnsureNode_edges kinds id P gb) as [E _]. rewrite E in He. by left.
Qed.

Lemma addsOnly_AddEdge (Q : GraphEdge → Prop) kind s t P gb :
  Q (newEdge kind s t P) → addsOnly Q gb (AddEdge kind s t P gb).
Proof.
  intros HQ e He. unfold AddEdge, AddEdgeIn in He. destruct (seen gb _); [by left|].
  cbn in He. apply elem_of_app in He as [He|He]; [by left|].
  apply list_elem_of_singleton in He. subst e. by right.
Qed.

Section Members.
Variable Host : string.
Variable retrieveUserGroups : string → string → bool → string + list BaseUserSearchResult.

Lemma keeps_refl p gb : keeps p gb gb.
Proof. split_and!; [apply grows_refl|apply addsOnly_refl|done]. Qed.

Lemma keeps_trans p a b c : keeps p a b → keeps p b c → keeps p a c.
Proof.
  intros (G1 & A1 & C1) (G2 & A2 & C2). split_and!.
  - by eapply grows_trans.
  - by eapply addsOnly_trans.
  - intros Hc Hp. apply C2; [by apply C1|]. by eapply grows_present.
Qed.

Lemma keeps_foldl {A} (f : GraphBuilder → A → GraphBuilder) p l gb :
  (∀ g a, keeps p g (f g a)) → keeps p gb (foldl f gb l).
Proof.
  intros Hf. induction l as [|a l IH] using rev_ind; [apply keeps_refl|].
  rewrite foldl_app. cbn. eapply keeps_trans; [exact IH|apply Hf].
Qed.

Lemma keeps_addMember parentGID findUsers gb r :
  keeps parentGID gb (addMember Host parentGID findUsers gb r).
Proof.
  destruct r as [principal|]; [|apply keeps_refl]. unfold addMember.
  destruct findUsers.
  - split_and!.
    + eapply grows_trans; [apply grows_EnsureNode|apply grows_AddEdge].
    + eapply addsOnly_trans; [apply addsOnly_EnsureNode|]. by apply addsOnly_AddEdge.
    + intros Hc Hp. apply closed_AddEdge.
      * by apply closed_EnsureNode.
      * apply EnsureNode_present.
      * eapply grows_present; [apply grows_EnsureNode|done].
  - split_and!.
    + eapply grows_trans; [apply grows_EnsureNode|apply grows_AddEdge].
    + eapply addsOnly_trans; [apply addsOnly_EnsureNode|]. by apply addsOnly_AddEdge.
    + intros Hc Hp. apply closed_AddEdge.
      * by apply closed_EnsureNode.
      * apply EnsureNode_present.
      * eapply grows_present; [apply grows_EnsureNode|done].
Qed.

Lemma keeps_findMembers name domain parentGID findUsers gb :
  keeps parentGID gb (findMembers Host retrieveUserGroups name domain parentGID findUsers gb).
Proof.
  unfold findMembers. destruct (retrieveUserGroups _ _ _); [apply keeps_refl|].
  apply keeps_foldl. intros. apply keeps_addMember.
Qed.

Lemma keeps_scanDomains name parentGID domains gb :
  keeps parentGID gb (scanDomains Host retrieveUserGroups name parentGID domains gb).
Proof.
  unfold scanDomains. apply keeps_foldl. intros g d.
  eapply keeps_trans; apply keeps_findMembers.
Qed.

Lemma keeps_scanGroup domains gb g :
  keeps (groupNodeID Host g) gb (scanGroup Host retrieveUserGroups domains gb g).
Proof.
  unfold scanGroup. cbn zeta. destruct (Contains g "\").
  - case_decide; [|apply keeps_scanDomains].
    eapply keeps_trans; apply keeps_scanDomains.
  - apply keeps_scanDomains.
Qed.

Lemma scanDomains_nil name parentGID gb :
  scanDomains Host retrieveUserGroups name parentGID [] gb = gb.
Proof. done. Qed.

Lemma scanGroup_nil gb g : scanGroup Host retrieveUserGroups [] gb g = gb.
Proof. unfold scanGroup. cbn. destruct (Contains g "\"); [by case_decide|done]. Qed.

Lemma groupsWithPermissions_spec perms g :
  is_Some (groupsWithPermissions perms !! g)
  ↔ ∃ perm, perm ∈ perms ∧ Group perm = true ∧ Principal perm = g.
Proof.
  unfold groupsWithPermissions. induction perms as [|perm perms IH] using rev_ind.
  - cbn. rewrite lookup_empty. split; [by intros [? ?]|].
    intros (p & Hin & _). by apply elem_of_nil in Hin.
  - rewrite foldl_app. cbn [foldl]. destruct (Group perm) eqn:E.
    + destruct (decide (Principal perm = g)) as [<-|Hne].
      * rewrite lookup_insert_eq. split; [|eauto]. intros _. exists perm.
        split_and!; [|done|done]. apply elem_of_app. right. left.
      * rewrite lookup_insert_ne by done. rewrite IH. split.
        -- intros (q & Hin & ? & ?). exists q. split_and!; [|done|done].
           apply elem_of_app. by left.
        -- intros (q & Hin & Hq & Hg). apply elem_of_app in Hin as [Hin|Hin]; [eauto|].
           apply list_elem_of_singleton in Hin. by subst q.
    + rewrite IH. split.
      * intros (q & Hin & ? & ?). exists q. split_and!; [|done|done].
        apply elem_of_app. by left.
      * intros (q & Hin & Hq & Hg). apply elem_of_app in Hin as [Hin|Hin]; [eauto|].
        apply list_elem_of_singleton in Hin. subst q. congruence.
Qed.

Lemma groups_loop domains (groups : list string) gb :
  grows gb (foldl (scanGroup Host retrieveUserGroups domains) gb groups)
  ∧ addsOnly (groupEdge Host groups) gb (foldl (scanGroup Host retrieveUserGroups domains) gb groups)
  ∧ (closed gb → (∀ g, g ∈ groups → is_Some (NodesByID gb !! groupNodeID Host g)) →
     closed (foldl (scanGroup Host retrieveUserGroups domains) gb groups)).
Proof.
  induction groups as [|g groups (IH1 & IH2 & IH3)] using rev_ind.
  - split_and!; [apply grows_refl|apply addsOnly_refl|done].
  - rewrite foldl_app. cbn [foldl].
    destruct (keeps_scanGroup domains
                (foldl (scanGroup Host retrieveUserGroups domains) gb groups) g)
      as (K1 & K2 & K3).
    split_and!.
    + by eapply grows_trans.
    + intros e He. destruct (K2 e He) as [H|[Hk Hend]].
      * destruct (IH2 e H) as [?|(Hk & g' & Hin & Hend)]; [by left|right].
        split; [done|]. exists g'. split; [|done]. apply elem_of_app. by left.
      * right. split; [done|]. exists g. split; [|done]. apply elem_of_app. right. left.
    + intros Hc Hg. apply K3.
      * apply IH3; [done|]. intros g' Hin. apply Hg. apply elem_of_app. by left.
      * eapply grows_present; [exact IH1|]. apply Hg. apply elem_of_app. right. left.
Qed.
End Members.

Lemma grows_kinds gb gb' id k :
  grows gb gb' → k ∈ kindsOf gb id → k ∈ kindsOf gb' id.
Proof.
  intros (_ & _ & Hn). unfold kindsOf.
  destruct (NodesByID gb !! id) as [n|] eqn:E; [|by intros H%elem_of_nil].
  destruct (Hn _ _ E) as (n' & -> & _ & [rest ->] & _). intros H.
  apply elem_of_app. by left.
Qed.

Section PermissionsResult.
Variable Host : string.
Variable retrieveHosts : ManagedObjectReference → option (list ManagedObjectReference).
Variable retrieveUserGroups : string → string → bool → string + list BaseUserSearchResult.

Lemma privileges_kinds l gb p :
  p ∈ l →
  "vCenter_Privilege"
  ∈ kindsOf (foldl (collectPrivilege Host) (∅, gb) l).2 (privilegeNodeID Host (PrivId p)).
Proof.
  induction l as [|q l IH] using rev_ind; [by intros H%elem_of_nil|].
  rewrite foldl_app. cbn [foldl]. intros Hin. apply elem_of_app in Hin as [Hin|Hin].
  - eapply grows_kinds; [apply grows_collectPrivilege|]. by apply IH.
  - apply list_elem_of_singleton in Hin. subst q. unfold collectPrivilege. cbn [snd].
    apply EnsureNode_kinds. right. cbn. left.
Qed.

Lemma roles_kinds privMap (l : list (AuthorizationRole * (gmap string bool → list string)))
    st turn :
  turn ∈ l →
  "vCenter_Role"
  ∈ kindsOf (foldl (collectRole Host privMap) st l).2 (roleNodeID Host (RoleId turn.1)).
Proof.
  induction l as [|q l IH] using rev_ind; [by intros H%elem_of_nil|].
  rewrite foldl_app. cbn [foldl]. intros Hin. apply elem_of_app in Hin as [Hin|Hin].
  - eapply grows_kinds; [apply grows_collectRole|]. by apply IH.
  - apply list_elem_of_singleton in Hin. subst q. unfold collectRole. cbn [snd].
    apply EnsureNode_kinds. right. cbn. left.
Qed.

Lemma turns_elem (orders : nat → gmap string bool → list string)
    (l : list AuthorizationRole) role :
  role ∈ l → ∃ i, (role, orders i) ∈ imap (λ i role, (role, orders i)) l.
Proof.
  intros Hin. apply list_elem_of_lookup in Hin as [i Hi]. exists i.
  apply list_elem_of_lookup. exists i. by rewrite list_lookup_imap, Hi.
Qed.

Lemma CollectPermissions_ok am orders perms gb :
  (CollectPermissions Host retrieveHosts (Some (inr am)) orders perms gb).1 = None
  ∧ grows gb (CollectPermissions Host retrieveHosts (Some (inr am)) orders perms gb).2
  ∧ (closed gb →
     closed (CollectPermissions Host retrieveHosts (Some (inr am)) orders perms gb).2)
  ∧ (∀ p, p ∈ PrivilegeList am →
       "vCenter_Privilege"
       ∈ kindsOf (CollectPermissions Host retrieveHosts (Some (inr am)) orders perms gb).2
                 (privilegeNodeID Host (PrivId p)))
  ∧ (∀ role, role ∈ RoleList am →
       "vCenter_Role"
       ∈ kindsOf (CollectPermissions Host retrieveHosts (Some (inr am)) orders perms gb).2
                 (roleNodeID Host (RoleId role)))
  ∧ (∀ perm, perm ∈ permissionsOf perms →
       is_Some (NodesByID (CollectPermissions Host retrieveHosts (Some (inr am)) orders
                             perms gb).2 !! principalIDOf Host perm)).
Proof.
  unfold CollectPermissions. cbn [fst snd].
  set (privs := foldl (collectPrivilege Host) (∅, gb) (PrivilegeList am)).
  set (turns := imap (λ i role, (role, orders i)) (RoleList am)).
  set (roles := foldl (collectRole Host privs.1) (∅, privs.2) turns).
  set (step := λ gb perm, processPermission Host retrieveHosts perm roles.1 privs.1 gb).
  assert (grows gb privs.2) as G1.
  { apply (grows_foldl_snd (collectPrivilege Host) _ (∅, gb)).
    intros. apply grows_collectPrivilege. }
  assert (grows privs.2 roles.2) as G2.
  { apply (grows_foldl_snd (collectRole Host privs.1) _ (∅, privs.2)).
    intros. apply grows_collectRole. }
  assert (grows roles.2 (foldl step roles.2 (permissionsOf perms))) as G3.
  { apply grows_foldl. intros. apply grows_processPermission. }
  split_and!.
  - done.
  - eapply grows_trans; [|exact G3]. by eapply grows_trans.
  - intros Hc. destruct (privileges_loop Host (PrivilegeList am) gb Hc) as (P1 & P2 & _).
    destruct (roles_loop Host privs.1 turns (∅, privs.2) P2 P1) as [R1 _].
    by destruct (perms_loop Host retrieveHosts roles.1 privs.1 (permissionsOf perms) roles.2 R1).
  - intros p Hp. eapply grows_kinds; [exact G3|]. eapply grows_kinds; [exact G2|].
    by apply privileges_kinds.
  - intros role Hr. eapply grows_kinds; [exact G3|].
    destruct (turns_elem orders _ _ Hr) as [i Hi].
    apply (roles_kinds privs.1 turns (∅, privs.2) (role, orders i) Hi).
  - intros perm Hin. 
    assert (∀ l g, perm ∈ l → is_Some (NodesByID (foldl step g l) !! principalIDOf Host perm)) as H.
    { induction l as [|q l IH] using rev_ind; intros g Hl; [by apply elem_of_nil in Hl|].
      rewrite foldl_app. cbn [foldl]. apply elem_of_app in Hl as [Hl|Hl].
      - eapply grows_present; [apply grows_processPermission|]. by apply IH.
      - apply list_elem_of_singleton in Hl. subst q. apply processPermission_principal. }
    by apply H.
Qed.
End PermissionsResult.

Section IdentityPasses.
Variable Host : string.
Variable retrieveHosts : ManagedObjectReference → option (list ManagedObjectReference).
Variable retrieveUserGroups : string → string → bool → string + list BaseUserSearchResult.

(** X12.  How [CollectPermissions] ends.  Without an authorization manager,
    or when reading it fails, it returns the error and leaves the store
    as it was.  Otherwise it returns no error, whatever the permission
    query does: a failed permission query gives the same store as an
    empty answer.  Afterwards every listed privilege has a node of kind
    [vCenter_Privilege], every listed role a node of kind [vCenter_Role],
    and the principal of every returned assignment a node. *)
Theorem CollectPermissions_result
    (authManager : option (string + AuthorizationManager))
    (orders : nat → gmap string bool → list string)
    (perms : string + list Permission) (gb : GraphBuilder) :
  (authManager = None →
   CollectPermissions Host retrieveHosts authManager orders perms gb
   = (Some "no authorization manager found", gb))
  ∧ (∀ err, authManager = Some (inl err) →
       CollectPermissions Host retrieveHosts authManager orders perms gb = (Some err, gb))
  ∧ (∀ am, authManager = Some (inr am) →
       (CollectPermissions Host retrieveHosts authManager orders perms gb).1 = None
       ∧ (∀ p, p ∈ PrivilegeList am →
            "vCenter_Privilege"
            ∈ kindsOf (CollectPermissions Host retrieveHosts authManager orders perms gb).2
                      (privilegeNodeID Host (PrivId p)))
       ∧ (∀ role, role ∈ RoleList am →
            "vCenter_Role"
            ∈ kindsOf (CollectPermissions Host retrieveHosts authManager orders perms gb).2
                      (roleNodeID Host (RoleId role)))
       ∧ (∀ l perm, perms = inr l → perm ∈ l →
            is_Some (NodesByID (CollectPermissions Host retrieveHosts authManager orders
                                  perms gb).2 !! principalIDOf Host perm)))
  ∧ (∀ err, CollectPermissions Host retrieveHosts authManager orders (inl err) gb
            = CollectPermissions Host retrieveHosts authManager orders (inr []) gb).
Proof.
  split_and!.
  - by intros ->.
  - by intros err ->.
  - intros am ->.
    destruct (CollectPermissions_ok Host retrieveHosts am orders perms gb)
      as (H1 & _ & _ & H4 & H5 & H6).
    split_and!; [done|done|done|]. intros l perm -> Hin. by apply H6.
  - done.
Qed.

(** X13.  [CollectPermissions] leaves no edge dangling: if both ends of
    every edge were stored nodes before, they are afterwards, the new
    privilege and permission edges included; and the store has only
    grown. *)
Theorem CollectPermissions_closed
    (authManager : option (string + AuthorizationManager))
    (orders : nat → gmap string bool → list string)
    (perms : string + list Permission) (gb : GraphBuilder) :
  closed gb →
  closed (CollectPermissions Host retrieveHosts authManager orders perms gb).2
  ∧ grows gb (CollectPermissions Host retrieveHosts authManager orders perms gb).2.
Proof.
  intros Hc. destruct authManager as [[err|am]|]; try (split; [done|apply grows_refl]).
  destruct (CollectPermissions_ok Host retrieveHosts am orders perms gb)
    as (_ & H2 & H3 & _). auto.
Qed.

(** X14.  [CollectGroupMemberships], with an authorization manager present:
    it returns, with an error exactly when there is no user directory.
    The store only grows, and every edge it adds is a member edge into the
    node of a group that holds a permission.  With no user directory, an
    empty domain list, or no group among the assignments, the store is
    left as it was. *)
Theorem CollectGroupMemberships_adds (userDirectory : option (list string))
    (perms : string + list Permission)
    (visit : gmap string bool → list string) (gb : GraphBuilder) :
  (∀ m g, g ∈ visit m → is_Some (m !! g)) →
  ∃ err gb',
    CollectGroupMemberships Host retrieveUserGroups userDirectory true perms visit gb
    = Returns err gb'
    ∧ (err = None ↔ is_Some userDirectory)
    ∧ grows gb gb'
    ∧ (∀ e, e ∈ Edges gb' →
         e ∈ Edges gb
         ∨ (Kind e = "vCenter_MemberOf"
            ∧ ∃ perm, perm ∈ permissionsOf perms ∧ Group perm = true
                      ∧ endOf e = groupNodeID Host (Principal perm)))
    ∧ (userDirectory = None ∨ userDirectory = Some []
       ∨ Forall (λ perm, Group perm = false) (permissionsOf perms) → gb' = gb).
Proof.
  intros Hv. unfold CollectGroupMemberships. destruct userDirectory as [domains|].
  2:{ exists (Some "no user directory found"), gb. split_and!; [done| |apply grows_refl| |done].
      - split; [done|]. by intros [? ?].
      - intros e He. by left. }
  set (groups := visit (groupsWithPermissions (permissionsOf perms))).
  exists None, (foldl (scanGroup Host retrieveUserGroups domains) gb groups).
  destruct (groups_loop Host retrieveUserGroups domains groups gb) as (G1 & G2 & _).
  split_and!; [done| |done| |].
  - split; [eauto|done].
  - intros e He. destruct (G2 e He) as [H|(Hk & g & Hg & Hend)]; [by left|right].
    split; [done|]. apply Hv, groupsWithPermissions_spec in Hg as (perm & Hin & Hgr & <-).
    eauto.
  - intros [H|[H|H]]; [done| |].
    + injection H as ->. clear. generalize groups as l.
      induction l as [|g l IH] using rev_ind; [done|].
      rewrite foldl_app. cbn [foldl]. by rewrite scanGroup_nil.
    + assert (groups = []) as ->; [|done].
      assert (∀ g, g ∈ groups → False) as Hno.
      { intros g Hg. apply Hv, groupsWithPermissions_spec in Hg as (perm & Hin & Hgr & _).
        rewrite Forall_forall in H. apply H in Hin. congruence. }
      destruct groups as [|g l]; [done|]. exfalso. apply (Hno g). left.
Qed.

(** X15.  The permission pass and the membership pass fit together.  When
    both see the same answer to the permission query, [Collect] ends with
    a store in which no edge dangles, provided none did after the
    infrastructure pass: each member edge ends at the group node the
    permission pass made, also for a group whose only role is a no-access
    role. *)
Theorem Collect_closed (infrastructure : GraphBuilder → GraphBuilder)
    (am : AuthorizationManager) (orders : nat → gmap string bool → list string)
    (perms : string + list Permission) (domains : list string)
    (visit : gmap string bool → list string) (gb : GraphBuilder) :
  closed (infrastructure gb) →
  (∀ m g, g ∈ visit m → is_Some (m !! g)) →
  ∃ gb',
    Collect Host retrieveHosts retrieveUserGroups None infrastructure (Some (inr am))
            orders perms perms (Some domains) visit gb = Returns None gb'
    ∧ closed gb'
    ∧ grows (infrastructure gb) gb'.
Proof.
  intros Hc Hv. unfold Collect, CollectGroupMemberships.
  rewrite bool_decide_true by done.
  destruct (CollectPermissions_ok Host retrieveHosts am orders perms (infrastructure gb))
    as (_ & H2 & H3 & _ & _ & H6).
  set (gb1 := (CollectPermissions Host retrieveHosts (Some (inr am)) orders perms
                 (infrastructure gb)).2) in *.
  set (groups := visit (groupsWithPermissions (permissionsOf perms))).
  destruct (groups_loop Host retrieveUserGroups domains groups gb1) as (G1 & _ & G3).
  eexists. split_and!; [done| |by eapply grows_trans].
  apply G3; [by apply H3|]. intros g Hg.
  apply Hv, groupsWithPermissions_spec in Hg as (perm & Hin & Hgr & <-).
  specialize (H6 perm Hin). unfold principalIDOf in H6. by rewrite Hgr in H6.
Qed.

(** X16.  [Collect] reports nothing but a failed connection, and then
    leaves the store untouched.  After a connection it returns no error,
    whichever pass failed, with a store grown from the infrastructure
    pass; except that with a user directory and no authorization manager
    the membership pass dereferences the nil manager reference, and
    [Collect] panics. *)
Theorem Collect_outcome (connect : option string)
    (infrastructure : GraphBuilder → GraphBuilder)
    (authManager : option (string + AuthorizationManager))
    (orders : nat → gmap string bool → list string)
    (perms1 perms2 : string + list Permission)
    (userDirectory : option (list string))
    (visit : gmap string bool → list string) (gb : GraphBuilder) :
  (∀ err, connect = Some err →
     Collect Host retrieveHosts retrieveUserGroups connect infrastructure authManager
             orders perms1 perms2 userDirectory visit gb = Returns (Some err) gb)
  ∧ (connect = None → is_Some userDirectory → authManager = None →
     Collect Host retrieveHosts retrieveUserGroups connect infrastructure authManager
             orders perms1 perms2 userDirectory visit gb = Panics)
  ∧ (connect = None → userDirectory = None ∨ is_Some authManager →
     ∃ gb',
       Collect Host retrieveHosts retrieveUserGroups connect infrastructure authManager
               orders perms1 perms2 userDirectory visit gb = Returns None gb'
       ∧ grows (infrastructure gb) gb').
Proof.
  split_and!.
  - by intros err ->.
  - intros -> [domains ->] ->. done.
  - intros -> Hor. unfold Collect.
    assert (grows (infrastructure gb)
              (CollectPermissions Host retrieveHosts authManager orders perms1
                 (infrastructure gb)).2) as G1.
    { destruct authManager as [[err|am]|]; try apply grows_refl.
      apply (CollectPermissions_ok Host retrieveHosts am orders perms1 (infrastructure gb)). }
    unfold CollectGroupMemberships.
    destruct userDirectory as [domains|]; [|by eexists].
    destruct Hor as [?|[a ->]]; [done|]. rewrite bool_decide_true by done.
    eexists. split; [done|]. eapply grows_trans; [exact G1|].
    apply groups_loop.
Qed.

Lemma rolePrivilege_groups privMap X gb l :
  (foldl (rolePrivilege Host privMap X) (∅, gb) l).1 = (privilegeDetails privMap l).2.
Proof.
  induction l as [|pid l IH] using rev_ind; [done|].
  rewrite foldl_app, privilegeDetails_snoc. cbn [foldl]. unfold rolePrivilege at 1.
  destruct (privMap !! pid); cbn [fst snd]; by rewrite IH.
Qed.

(** X17.  A role's node and its permission edges agree.  After the turn of
    a role in [CollectPermissions], an assignment of that role gets an
    edge with the same role name and privilege count as the role's node,
    and with the privilege groups of the node, which the node lists in
    map order and the edge in ascending order. *)
Theorem collectRole_groups (privMap : gmap string AuthorizationPrivilege)
    (st : gmap Z AuthorizationRole * GraphBuilder) (role : AuthorizationRole)
    (order : gmap string bool → list string) (perm : Permission) :
  order (privilegeDetails privMap (Privilege role)).2
    ≡ₚ rangeKeys (privilegeDetails privMap (Privilege role)).2 →
  PermRoleId perm = RoleId role →
  ∃ pgList,
    propsOf (collectRole Host privMap st (role, order)).2
            (roleNodeID Host (RoleId role)) !! "privilegeGroups" = Some (VStrs pgList)
    ∧ grantProps (collectRole Host privMap st (role, order)).1 privMap perm
        !! "privilegeGroups" = Some (VStrs (sortStrings pgList))
    ∧ propsOf (collectRole Host privMap st (role, order)).2
              (roleNodeID Host (RoleId role)) !! "privilegeCount"
      = grantProps (collectRole Host privMap st (role, order)).1 privMap perm
          !! "privilegeCount"
    ∧ propsOf (collectRole Host privMap st (role, order)).2
              (roleNodeID Host (RoleId role)) !! "name"
      = grantProps (collectRole Host privMap st (role, order)).1 privMap perm
          !! "roleName".
Proof.
  intros Hord Hid. exists (order (privilegeDetails privMap (Privilege role)).2).
  unfold collectRole. cbn [fst snd]. rewrite rolePrivilege_groups.
  unfold grantProps, roleDetails. rewrite Hid, lookup_insert_eq.
  destruct (privilegeDetails privMap (Privilege role)) as [names groups] eqn:E.
  cbn [fst snd] in *. rewrite !EnsureNode_props.
  rewrite (sortStrings_perm _ _ Hord). unfold roleProps, edgeProps.
  split_and!; by simplify_map_eq.
Qed.
End IdentityPasses.

Lemma closed_new : closed NewGraphBuilder.
Proof. intros e He. by apply elem_of_nil in He. Qed.

(** The theorems at the sample service. *)
Lemma CollectPermissions_closed_witness :
  closed (CollectPermissions "vc" (λ _, None) (Some (inr demoManager)) (λ _, rangeKeys)
            (inr [demoGroupPerm]) NewGraphBuilder).2.
Proof.
  exact (proj1 (CollectPermissions_closed "vc" (λ _, None) (Some (inr demoManager))
                  (λ _, rangeKeys) (inr [demoGroupPerm]) NewGraphBuilder closed_new)).
Defined.

Lemma CollectGroupMemberships_adds_witness :
  ∃ err gb',
    CollectGroupMemberships "vc" demoDirectory (Some ["CORP"]) true
      (inr [demoGroupPerm]) rangeKeys NewGraphBuilder = Returns err gb'
    ∧ (err = None ↔ is_Some (Some ["CORP"])).
Proof.
  destruct (CollectGroupMemberships_adds "vc" demoDirectory (Some ["CORP"])
              (inr [demoGroupPerm]) rangeKeys NewGraphBuilder)
    as (err & gb' & H1 & H2 & _).
  - intros m g. apply rangeKeys_elem_of.
  - exists err, gb'. by split.
Defined.

Lemma Collect_closed_witness :
  ∃ gb', demoCollect = Returns None gb' ∧ closed gb'.
Proof.
  destruct (Collect_closed "vc" (λ _, None) demoDirectory (λ gb, gb) demoManager
              (λ _, rangeKeys) (inr [demoGroupPerm]) ["CORP"] rangeKeys NewGraphBuilder)
    as (gb' & H1 & H2 & _).
  - apply closed_new.
  - intros m g. apply rangeKeys_elem_of.
  - exists gb'. by split.
Defined.

Lemma collectRole_groups_witness :
  ∃ pgList,
    propsOf (collectRole "vc" demoPrivileges (∅, NewGraphBuilder)
               (adminRole, rangeKeys)).2 (roleNodeID "vc" 1) !! "privilegeGroups"
    = Some (VStrs pgList)
    ∧ grantProps (collectRole "vc" demoPrivileges (∅, NewGraphBuilder)
                    (adminRole, rangeKeys)).1 demoPrivileges (demoPerm 1 true)
        !! "privilegeGroups" = Some (VStrs (sortStrings pgList)).
Proof.
  destruct (collectRole_groups "vc" demoPrivileges (∅, NewGraphBuilder) adminRole
              rangeKeys (demoPerm 1 true)) as (pgList & H1 & H2 & _).
  - done.
  - done.
  - exists pgList. by split.
Defined.

End IdentityFacts.

(** ** Clients, uploads and the two sync passes *)

Section SetupFacts.
Import GoStrings Graph Crypto Bloodhound Postprocess Setup Neo4jSync.


Lemma TrimRight_cons c s cutset :
  TrimRight (String c s) cutset
  = match TrimRight s cutset with
    | EmptyString => if inCutset c cutset then EmptyString else String c EmptyString
    | t => String c t
    end.
Proof. done. Qed.

Lemma inCutset_slash c : inCutset c "/" = bool_decide (c = "/"%char).
Proof.
  unfold inCutset. cbn. apply bool_decide_ext. rewrite list_elem_of_singleton. done.
Qed.

Lemma TrimRight_slashes s : ∃ n, s = TrimRight s "/" +:+ slashes n.
Proof.
  induction s as [|c s [n IH]]; [by exists 0|].
  rewrite TrimRight_cons. destruct (TrimRight s "/") as [|d t] eqn:E.
  - rewrite inCutset_slash. case_bool_decide as Hc.
    + subst c. exists (S n). rewrite string_app_nil_l in *. cbn. by rewrite <- IH.
    + exists n. rewrite string_app_cons. by rewrite IH at 1.
  - exists n. rewrite string_app_cons. by rewrite IH at 1.
Qed.

Lemma lastByte_cons c s : s ≠ "" → lastByte (String c s) = lastByte s.
Proof. by destruct s. Qed.

Lemma TrimRight_last s : lastByte (TrimRight s "/") ≠ Some "/"%char.
Proof.
  induction s as [|c s IH]; [done|].
  rewrite TrimRight_cons. destruct (TrimRight s "/") as [|d t] eqn:E.
  - rewrite inCutset_slash. case_bool_decide as Hc; [done|]. cbn. congruence.
  - by rewrite lastByte_cons.
Qed.

Lemma TrimRight_fixed s : lastByte s ≠ Some "/"%char → TrimRight s "/" = s.
Proof.
  induction s as [|c s IH]; [done|]. intros H.
  rewrite TrimRight_cons. destruct s as [|d t].
  - cbn. rewrite inCutset_slash. rewrite bool_decide_false; [done|].
    cbn in H. congruence.
  - rewrite lastByte_cons in H by done. by rewrite IH.
Qed.

Lemma TrimRight_idem s : TrimRight (TrimRight s "/") "/" = TrimRight s "/".
Proof. apply TrimRight_fixed, TrimRight_last. Qed.

Lemma slashes_app_slash n : slashes n +:+ "/" = slashes (S n).
Proof.
  induction n as [|n IH]; [done|]. cbn [slashes]. rewrite string_app_cons, IH. done.
Qed.

(** X19.  [NewClient] strips every trailing slash from the URL and nothing
    else: the given URL is the stored one followed by slashes only, the
    stored URL does not end in a slash, URLs that differ only in trailing
    slashes give the same client, and the key id and secret are stored
    unchanged. *)
Theorem NewClient_url (url keyID keySecret : string) :
  (∃ n, url = URL (NewClient url keyID keySecret) +:+ slashes n)
  ∧ lastByte (URL (NewClient url keyID keySecret)) ≠ Some "/"%char
  ∧ NewClient (URL (NewClient url keyID keySecret)) keyID keySecret
    = NewClient url keyID keySecret
  ∧ (∀ n, NewClient (url +:+ slashes n) keyID keySecret = NewClient url keyID keySecret)
  ∧ KeyID (NewClient url keyID keySecret) = keyID
  ∧ KeySecret (NewClient url keyID keySecret) = keySecret.
Proof.
  unfold NewClient. cbn. split_and!; try done.
  - apply TrimRight_slashes.
  - apply TrimRight_last.
  - by rewrite TrimRight_idem.
  - intros n. f_equal. revert n.
    assert (∀ s, TrimRight (s +:+ "/") "/" = TrimRight s "/") as Hone.
    { induction s as [|c s IH]; [done|]. rewrite string_app_cons, !TrimRight_cons. by rewrite IH. }
    induction n as [|n IH]; [by rewrite string_app_nil_r|].
    rewrite <- slashes_app_slash, <- string_app_assoc, Hone. apply IH.
Qed.

Lemma TrimRight_keep c s : c ≠ "/"%char → TrimRight (String c s) "/" = String c (TrimRight s "/").
Proof.
  intros Hc. rewrite TrimRight_cons. destruct (TrimRight s "/"); [|done].
  by rewrite inCutset_slash, bool_decide_false.
Qed.

Lemma TrimRight_http s : HasPrefix s "http" = true → HasPrefix (TrimRight s "/") "http" = true.
Proof.
  intros H. apply HasPrefix_app in H. rewrite H.
  generalize (SliceFrom (String.length "http") s) as rest. intros rest.
  change ("http" +:+ rest) with (String "h" (String "t" (String "t" (String "p" rest)))).
  by rewrite !TrimRight_keep.
Qed.

(** X20.  The base URL [UploadSchema] sends its requests to always begins
    with [http] and never ends in a slash; it is the given URL, with
    [http://] put in front when the given URL does not begin with [http],
    less its trailing slashes; normalizing twice changes nothing. *)
Theorem uploadBaseURL_shape (baseURL : string) :
  HasPrefix (uploadBaseURL baseURL) "http" = true
  ∧ lastByte (uploadBaseURL baseURL) ≠ Some "/"%char
  ∧ uploadBaseURL (uploadBaseURL baseURL) = uploadBaseURL baseURL
  ∧ (∃ n, uploadBaseURL baseURL +:+ slashes n = baseURL
          ∨ uploadBaseURL baseURL +:+ slashes n = "http://" +:+ baseURL).
Proof.
  assert (HasPrefix (uploadBaseURL baseURL) "http" = true) as Hp.
  { unfold uploadBaseURL. destruct (HasPrefix baseURL "http") eqn:E.
    - by apply TrimRight_http.
    - apply TrimRight_http. done. }
  split_and!.
  - done.
  - apply TrimRight_last.
  - unfold uploadBaseURL at 1. rewrite Hp. unfold uploadBaseURL. apply TrimRight_idem.
  - unfold uploadBaseURL. destruct (HasPrefix baseURL "http").
    + destruct (TrimRight_slashes baseURL) as [n Hn]. exists n. left. by rewrite <- Hn.
    + destruct (TrimRight_slashes ("http://" +:+ baseURL)) as [n Hn]. exists n. right.
      by rewrite <- Hn.
Qed.

(** X21.  [UploadSchema] returns no error exactly when the login is
    answered with status 200 and a non-empty session token, the model file
    can be read, and the upload, sent with that token and the file's
    bytes, is answered with a status from 200 to 299.  The login accepts
    status 200 only; the upload accepts every 2xx status. *)
Theorem UploadSchema_succeeds
    (post : string → string + (Z * string * (string + string)))
    (readFile : string + string)
    (send : string → string → string → string + (Z * string))
    (baseURL : string) :
  UploadSchema post readFile send baseURL = None
  ↔ ∃ body token modelData status answer,
      post (uploadBaseURL baseURL +:+ "/api/v2/login") = inr (200%Z, body, inr token)
      ∧ token ≠ ""
      ∧ readFile = inr modelData
      ∧ send (uploadBaseURL baseURL +:+ "/api/v2/custom-nodes") token modelData
        = inr (status, answer)
      ∧ (200 ≤ status < 300)%Z.
Proof.
  unfold UploadSchema, login, upload. cbn zeta. split.
  - destruct (post _) as [err|[[status body] [err|token]]]; try done.
    + by case_decide.
    + case_decide; [done|]. case_decide; [done|].
      destruct readFile as [err|modelData]; [done|].
      destruct (send _ token modelData) as [err|[st answer]] eqn:E; [done|].
      case_decide; [done|]. intros _.
      exists body, token, modelData, st, answer.
      assert (status = 200%Z) as -> by (destruct (decide (status = 200%Z)); [done|tauto]).
      split_and!; [done|done|done|done|lia|lia].
  - intros (body & token & modelData & status & answer & Hpost & Ht & -> & Hsend & Hs).
    rewrite Hpost. rewrite decide_False by tauto. rewrite decide_False by done.
    rewrite Hsend. rewrite decide_False by lia. done.
Qed.









(** X24.  The two sync passes compared, on a user or group node.  When the
    node has both a name and a username, the processor's edge starts at
    exactly the principal name the Neo4j tool links.  They differ on what
    they require: the Neo4j tool skips a node without username, the
    processor a node without name; so a node with a name, a mapped domain
    and no username is skipped by the one and gets an edge from [@FQDN]
    in the other. *)
Theorem sync_paths_compare (D : gmap string string) (node : GraphNode) :
  "vCenter_User" ∈ Kinds node ∨ "vCenter_Group" ∈ Kinds node →
  (asString (Properties node !! "name") ≠ "" →
   asString (Properties node !! "username") ≠ "" →
   REStartID <$> syncEdgeFor D node = targetName D (Properties node))
  ∧ (asString (Properties node !! "username") = "" →
     targetName D (Properties node) = None)
  ∧ (asString (Properties node !! "name") = "" → syncEdgeFor D node = None)
  ∧ (asString (Properties node !! "name") ≠ "" →
     asString (Properties node !! "username") = "" →
     ∀ fqdn, D !! ToUpper (asString (Properties node !! "domain")) = Some fqdn →
             asString (Properties node !! "domain") ≠ "" →
             REStartID <$> syncEdgeFor D node = Some ("@" +:+ fqdn)).
Proof.
  intros Hkind. unfold syncEdgeFor, targetName.
  destruct (kindFlags_spec (Kinds node)) as [HU HG].
  destruct (kindFlags (Kinds node)) as [isUser isGroup]. cbn in HU, HG.
  assert (negb isUser && negb isGroup = false) as ->.
  { destruct Hkind as [H|H]; [apply HU in H|apply HG in H]; subst; [done|].
    by destruct isUser. }
  split_and!.
  - intros Hn Hu. destruct (decide (asString (Properties node !! "domain") = "")) as [Hd|Hd].
    + rewrite decide_True by auto. rewrite decide_True by auto. done.
    + rewrite decide_False by tauto. rewrite decide_False by tauto.
      destruct (D !! _) as [fqdn|]; [|done].
      destruct isUser; [done|]. destruct isGroup; [done|].
      destruct Hkind as [H|H]; [apply HU in H|apply HG in H]; done.
  - intros ->. by rewrite decide_True by auto.
  - intros ->. by rewrite decide_True by auto.
  - intros Hn Hu fqdn Hf Hd. rewrite decide_False by tauto. rewrite Hf, Hu.
    destruct isUser; [done|]. destruct isGroup; [done|].
    destruct Hkind as [H|H]; [apply HU in H|apply HG in H]; done.
Qed.

Section ProcessorFacts.
Variable Builder : Type.
Variable GraphData : Type.
Variable NewBuilder : Builder.
Variable AddRawNode : list string → string → gmap string value → Builder → Builder.
Variable AddRawEdgeWithMatch : RawEdge → Builder → Builder.
Variable Export : Builder → GraphData.
Variable encodeGraphData : GraphData → string.



End ProcessorFacts.

(** The comparison at the user CORP\admin. *)
Lemma sync_paths_compare_witness :
  REStartID <$> syncEdgeFor (domainMapOf ["CORP.LOCAL"]) Samples.adminNode
  = targetName (domainMapOf ["CORP.LOCAL"]) (Properties Samples.adminNode).
Proof.
  refine (proj1 (sync_paths_compare (domainMapOf ["CORP.LOCAL"]) Samples.adminNode _) _ _).
  - left. apply list_elem_of_here.
  - vm_compute. discriminate.
  - vm_compute. discriminate.
Defined.

End SetupFacts.

(** ** The merge and the sanitizer of [main.go] *)

Section MainFacts.
Import GoStrings Graph Runs Ops Main Sanitize.









Lemma mergeAll_snoc collected r :
  mergeAll (collected ++ [r])
  = match r with
    | Some gb => mergeInto (mergeAll collected) gb
    | None => mergeAll collected
    end.
Proof. unfold mergeAll. by rewrite foldl_app. Qed.

Lemma mergeInto_edges m gb : Edges (mergeInto m gb) = Edges m ++ Edges gb.
Proof.
  unfold mergeInto. cbn. generalize (Edges m) as acc.
  induction (Edges gb) as [|e l IH]; intros acc; cbn; [by rewrite app_nil_r|].
  rewrite IH. by rewrite <- (assoc_L (++)).
Qed.

Lemma mergeInto_lookup m gb id :
  keyedByID (NodesByID gb) →
  NodesByID (mergeInto m gb) !! id
  = match NodesByID gb !! id, NodesByID m !! id with
    | Some n, Some t => Some (mergedNode t n)
    | Some n, None => Some n
    | None, t => t
    end.
Proof. intros H. unfold mergeInto. cbn. by apply mergeNodes_lookup. Qed.

Lemma mergeInto_keyed m gb :
  keyedByID (NodesByID m) → keyedByID (NodesByID gb) → keyedByID (NodesByID (mergeInto m gb)).
Proof.
  intros Hm Hg id n. rewrite mergeInto_lookup by done.
  destruct (NodesByID gb !! id) as [x|] eqn:E1, (NodesByID m !! id) as [t|] eqn:E2;
    intros [= <-]; cbn; try (by eapply Hm); try (by eapply Hg).
Qed.

Lemma mergeInto_kept m gb id t :
  keyedByID (NodesByID gb) →
  NodesByID m !! id = Some t →
  ∃ x, NodesByID (mergeInto m gb) !! id = Some x ∧ kept t x.
Proof.
  intros Hg Ht. rewrite mergeInto_lookup, Ht by done.
  destruct (NodesByID gb !! id) as [n|].
  - eexists. split; [done|]. split_and!; [done|done|]. intros k v Hk. cbn.
    by rewrite mergeProperties_lookup, Hk.
  - exists t. by split_and!.
Qed.

(** X27.  The merge over all servers.  The merged graph holds the edges of
    every collection that succeeded, in order and with nothing dropped: no
    edge key is recorded, so an edge two servers share is there twice.  A
    failed collection changes nothing.  When every collected graph files
    its nodes under their ids, so does the merged graph; it holds exactly
    the ids some collected graph holds; and a node keeps the kinds, the id
    and every property of the first collection that has it. *)
Theorem mergeAll_sources (collected : list (option GraphBuilder)) :
  Edges (mergeAll collected) = omap id collected ≫= Edges
  ∧ EdgeKeys (mergeAll collected) = ∅
  ∧ mergeAll collected = mergeAll (Some <$> omap id collected)
  ∧ (Forall (λ gb, keyedByID (NodesByID gb)) (omap id collected) →
     keyedByID (NodesByID (mergeAll collected))
     ∧ (∀ nid, is_Some (NodesByID (mergeAll collected) !! nid)
              ↔ ∃ gb, gb ∈ omap id collected ∧ is_Some (NodesByID gb !! nid))
     ∧ (∀ nid before gb after n,
          omap id collected = before ++ gb :: after →
          Forall (λ g, NodesByID g !! nid = None) before →
          NodesByID gb !! nid = Some n →
          ∃ m, NodesByID (mergeAll collected) !! nid = Some m
               ∧ Kinds m = Kinds n ∧ ID m = ID n
               ∧ ∀ k v, Properties n !! k = Some v → Properties m !! k = Some v)).
Proof.
  split_and!.
  - induction collected as [|r collected IH] using rev_ind; [done|].
    rewrite mergeAll_snoc, omap_app, bind_app. destruct r as [gb|].
    + rewrite mergeInto_edges, IH. cbn. by rewrite app_nil_r.
    + rewrite IH. cbn. by rewrite app_nil_r.
  - induction collected as [|r collected IH] using rev_ind; [done|].
    rewrite mergeAll_snoc. by destruct r.
  - induction collected as [|r collected IH] using rev_ind; [done|].
    rewrite mergeAll_snoc, omap_app, fmap_app. destruct r as [gb|]; cbn.
    + by rewrite mergeAll_snoc, IH.
    + by rewrite app_nil_r.
  - induction collected as [|r collected IH] using rev_ind.
    + intros _. split_and!.
      * apply NewGraphBuilder_keyedByID.
      * intros id. cbn. rewrite lookup_empty. split; [by intros [? ?]|].
        intros (gb & H & _). by apply elem_of_nil in H.
      * intros id before gb after n H. by destruct before.
    + rewrite omap_app, mergeAll_snoc. destruct r as [gb|].
      2:{ cbn. rewrite app_nil_r. exact IH. }
      change (omap id [Some gb]) with [gb]. intros HF. apply Forall_app in HF as [HF1 HF2].
      apply Forall_cons in HF2 as [Hgb _].
      destruct (IH HF1) as (K & Hdom & Hfirst). split_and!.
      * by apply mergeInto_keyed.
      * intros id. rewrite mergeInto_lookup by done. split.
        -- destruct (NodesByID gb !! id) as [n|] eqn:E.
           ++ intros _. exists gb. split; [|by rewrite E]. apply elem_of_app. right. left.
           ++ intros H. apply Hdom in H as (g & Hg & Hid). exists g. split; [|done].
              apply elem_of_app. by left.
        -- intros (g & Hg & Hid). apply elem_of_app in Hg as [Hg|Hg].
           ++ assert (is_Some (NodesByID (mergeAll collected) !! id)) as [t Ht]
                by (apply Hdom; eauto).
              rewrite Ht. destruct (NodesByID gb !! id); eauto.
           ++ apply list_elem_of_singleton in Hg. subst g. destruct Hid as [n Hn].
              rewrite Hn. destruct (NodesByID (mergeAll collected) !! id); eauto.
      * intros id before g after n Heq Hbefore Hn.
        destruct after as [|a after _] using rev_ind.
        -- apply app_inj_tail in Heq as [Heq <-].
           assert (NodesByID (mergeAll collected) !! id = None) as Hnone.
           { apply eq_None_not_Some. intros H. apply Hdom in H as (x & Hx & Hid).
             rewrite Heq in Hx.
             rewrite Forall_forall in Hbefore. rewrite (Hbefore x Hx) in Hid.
             by destruct Hid. }
           exists n. rewrite mergeInto_lookup, Hn, Hnone by done. by split_and!.
        -- rewrite app_comm_cons, (assoc_L (++)) in Heq.
           apply app_inj_tail in Heq as [Heq <-].
           destruct (Hfirst id before g after n Heq Hbefore Hn) as (m & Hm & K1 & K2 & K3).
           destruct (mergeInto_kept (mergeAll collected) gb id m Hgb Hm)
             as (x & Hx & X1 & X2 & X3).
           exists x. split_and!; [done|congruence|congruence|auto].
Qed.

(** [sanitizeGraph] changes property values only: the ids and kinds of the
    nodes and the kinds and ends of the edges stay as they are, in order;
    afterwards no property of a node or an edge is nil; and running it
    again changes nothing. *)
Lemma sanitizeGraph_no_nil (out : list GraphNode * list GraphEdge) :
  ID <$> (sanitizeGraph out).1 = ID <$> out.1
  ∧ Kinds <$> (sanitizeGraph out).1 = Kinds <$> out.1
  ∧ (λ e, (Kind e, StartID e, EndID e)) <$> (sanitizeGraph out).2
    = (λ e, (Kind e, StartID e, EndID e)) <$> out.2
  ∧ (∀ n k, n ∈ (sanitizeGraph out).1 → Properties n !! k ≠ Some VNil)
  ∧ (∀ e k, e ∈ (sanitizeGraph out).2 → EdgeProperties e !! k ≠ Some VNil)
  ∧ sanitizeGraph (sanitizeGraph out) = sanitizeGraph out.
Proof.
  assert (∀ props k, sanitizeProperties props !! k ≠ Some VNil) as Hp.
  { intros props k. unfold sanitizeProperties. rewrite lookup_fmap.
    destruct (props !! k) as [[]|]; done. }
  assert (∀ props, sanitizeProperties (sanitizeProperties props) = sanitizeProperties props)
    as Hi.
  { intros props. unfold sanitizeProperties. rewrite <- map_fmap_compose.
    apply map_fmap_ext. intros k v _. by destruct v. }
  unfold sanitizeGraph. cbn [fst snd]. split_and!.
  - rewrite <- list_fmap_compose. by apply list_fmap_ext.
  - rewrite <- list_fmap_compose. by apply list_fmap_ext.
  - rewrite <- list_fmap_compose. by apply list_fmap_ext.
  - intros n k Hn. apply list_elem_of_fmap in Hn as (x & -> & _). apply Hp.
  - intros e k He. apply list_elem_of_fmap in He as (x & -> & _). apply Hp.
  - f_equal; rewrite <- list_fmap_compose; apply list_fmap_ext; intros i x _; cbn;
      by rewrite Hi.
Qed.

End MainFacts.

(** ** Virtual machines and their addresses *)

Section InventoryFacts.
Import GoStrings Graph Runs Ops Main Collector Permissions Identity Inventory.

Lemma unique_snoc l ip :
  unique (l ++ [ip])
  = if default false ((unique l).1 !! ip) then unique l
    else (<[ip := true]> (unique l).1, (unique l).2 ++ [ip]).
Proof. unfold unique. by rewrite foldl_app. Qed.

Lemma unique_inv l :
  (∀ x, default false ((unique l).1 !! x) = true ↔ x ∈ (unique l).2)
  ∧ NoDup (unique l).2
  ∧ (∀ x, x ∈ (unique l).2 ↔ x ∈ l).
Proof.
  induction l as [|ip l (IH1 & IH2 & IH3)] using rev_ind.
  - cbn. split_and!; [|constructor|done]. intros x. rewrite lookup_empty. cbn.
    split; [done|by intros H%elem_of_nil].
  - rewrite unique_snoc. destruct (default false ((unique l).1 !! ip)) eqn:E.
    + split_and!; [done|done|]. intros x. rewrite IH3, elem_of_app, list_elem_of_singleton.
      split; [auto|]. intros [H| ->]; [done|]. by apply IH3, IH1.
    + cbn [fst snd]. split_and!.
      * intros x. rewrite elem_of_app, list_elem_of_singleton.
        destruct (decide (ip = x)) as [->|Hne].
        -- rewrite lookup_insert_eq. cbn. tauto.
        -- rewrite lookup_insert_ne by done. rewrite IH1. split; [auto|].
           intros [H|H]; [done|congruence].
      * apply NoDup_app. split_and!; [done| |apply NoDup_singleton].
        intros x Hx Hx'. apply list_elem_of_singleton in Hx'. subst x.
        apply IH1 in Hx. congruence.
      * intros x. rewrite !elem_of_app, IH3. done.
Qed.

Lemma unique_head x l : head (unique (x :: l)).2 = Some x.
Proof.
  induction l as [|ip l IH] using rev_ind; [done|].
  change (x :: l ++ [ip]) with ((x :: l) ++ [ip]). rewrite unique_snoc.
  destruct (default false _); [done|]. cbn [snd].
  destruct ((unique (x :: l)).2); [done|]. done.
Qed.

Lemma allIPs_unfold guest :
  allIPs guest
  = (if decide (IpAddress guest ≠ "") then [IpAddress guest] else [])
    ++ mjoin (NicIpAddress <$> Net guest).
Proof.
  unfold allIPs. generalize (if decide (IpAddress guest ≠ "") then [IpAddress guest] else []).
  induction (Net guest) as [|nic nics IH]; intros init; cbn.
  - by rewrite app_nil_r.
  - rewrite IH. by rewrite <- (assoc_L (++)).
Qed.

Lemma ipSet_loop (nics : list GuestNicInfo) (init : gmap string bool) ip :
  is_Some (foldl (λ ipSet net, foldl (λ ipSet ip, <[ip := true]> ipSet) ipSet
                                 (NicIpAddress net)) init nics !! ip)
  ↔ is_Some (init !! ip) ∨ ip ∈ mjoin (NicIpAddress <$> nics).
Proof.
  assert (∀ (l : list string) (m : gmap string bool),
            is_Some (foldl (λ ipSet ip, <[ip := true]> ipSet) m l !! ip)
            ↔ is_Some (m !! ip) ∨ ip ∈ l) as Hin.
  { induction l as [|x l IH]; intros m; cbn.
    - rewrite elem_of_nil. tauto.
    - rewrite IH, elem_of_cons. destruct (decide (x = ip)) as [->|Hne].
      + rewrite lookup_insert_eq. split; [auto|]. intros _. left. eauto.
      + rewrite lookup_insert_ne by done. split; [tauto|].
        intros [H|[H|H]]; [tauto|congruence|tauto]. }
  revert init. induction nics as [|nic nics IH]; intros init; cbn.
  - rewrite elem_of_nil. tauto.
  - rewrite IH, Hin, elem_of_app. tauto.
Qed.

Lemma ipSetOf_elem guest ip : is_Some (ipSetOf guest !! ip) ↔ ip ∈ allIPs guest.
Proof.
  unfold ipSetOf. rewrite ipSet_loop, allIPs_unfold, elem_of_app.
  case_decide as Hne.
  - rewrite list_elem_of_singleton. split.
    + intros [H|H]; [left|by right]. apply lookup_singleton_is_Some in H. done.
    + intros [->|H]; [left|by right]. rewrite lookup_singleton_eq. eauto.
  - rewrite lookup_empty, elem_of_nil. split; [intros [[? ?]|?]; [done|tauto]|tauto].
Qed.

(** X28.  The addresses of a guest.  [getIPAddresses] returns every address
    of the guest once: the primary address, when it is not empty, and the
    addresses of the adapters; the primary address comes first.  The
    [ipAddresses] property of [processVM] is the same set in ascending
    order, whatever order the map of addresses is ranged over, and it is
    set exactly when [getIPAddresses] returns an address. *)
Theorem getIPAddresses_spec (guest : GuestInfo) (visit : gmap string bool → list string) :
  NoDup (getIPAddresses guest)
  ∧ (∀ ip, ip ∈ getIPAddresses guest
           ↔ (ip = IpAddress guest ∧ ip ≠ "")
             ∨ ∃ nic, nic ∈ Net guest ∧ ip ∈ NicIpAddress nic)
  ∧ (IpAddress guest ≠ "" → head (getIPAddresses guest) = Some (IpAddress guest))
  ∧ (size (ipSetOf guest) = 0%nat ↔ getIPAddresses guest = [])
  ∧ (visit (ipSetOf guest) ≡ₚ rangeKeys (ipSetOf guest) →
     sortStrings (visit (ipSetOf guest)) = sortStrings (getIPAddresses guest)
     ∧ NoDup (sortStrings (visit (ipSetOf guest)))
     ∧ Sorted String.le (sortStrings (visit (ipSetOf guest)))).
Proof.
  destruct (unique_inv (allIPs guest)) as (_ & Hnd & Hin). fold (getIPAddresses guest) in *.
  assert (∀ ip, ip ∈ rangeKeys (ipSetOf guest) ↔ ip ∈ getIPAddresses guest) as Hsame.
  { intros ip. by rewrite rangeKeys_elem_of, ipSetOf_elem, Hin. }
  split_and!.
  - done.
  - intros ip. rewrite Hin, allIPs_unfold, elem_of_app. 
    assert (ip ∈ mjoin (NicIpAddress <$> Net guest)
            ↔ ∃ nic, nic ∈ Net guest ∧ ip ∈ NicIpAddress nic) as ->.
    { rewrite list_elem_of_join. split.
      - intros (l & Hip & Hl). apply list_elem_of_fmap in Hl as (nic & -> & Hn). eauto.
      - intros (nic & Hn & Hip). exists (NicIpAddress nic). split; [done|].
        apply list_elem_of_fmap. eauto. }
    case_decide as Hp.
    + rewrite list_elem_of_singleton. split; [intros [->|?]; auto|intros [[-> _]|?]; auto].
    + rewrite elem_of_nil. split; [tauto|]. intros [[-> Hne]|?]; [|tauto].
      congruence.
  - intros Hne. unfold getIPAddresses. rewrite allIPs_unfold, decide_True by done.
    apply unique_head.
  - rewrite map_size_empty_iff. split.
    + intros He. destruct (getIPAddresses guest) as [|ip l] eqn:E; [done|].
      assert (ip ∈ rangeKeys (ipSetOf guest)) as H by (apply Hsame; left).
      apply rangeKeys_elem_of in H. rewrite He, lookup_empty in H. by destruct H.
    + intros He. apply map_empty. intros ip. apply eq_None_not_Some. intros H.
      apply rangeKeys_elem_of, Hsame in H. rewrite He in H. by apply elem_of_nil in H.
  - intros Hv. split_and!.
    + apply sortStrings_perm. rewrite Hv. apply NoDup_Permutation;
        [apply rangeKeys_NoDup_of|done|done].
    + apply sortStrings_NoDup. rewrite Hv. apply rangeKeys_NoDup_of.
    + apply Sorted_merge_sort. apply _.
Qed.

Lemma seen_grows gb gb' k : grows gb gb' → seen gb k = true → seen gb' k = true.
Proof. intros (_ & H & _). apply H. Qed.

Lemma seen_AddEdge kind s t P gb : seen (AddEdge kind s t P gb) (edgeKey kind s t P) = true.
Proof. unfold AddEdge. rewrite seen_AddEdgeIn. by rewrite bool_decide_true. Qed.

Lemma AddEdge_elem kind s t P gb e :
  e ∈ Edges (AddEdge kind s t P gb) → e ∈ Edges gb ∨ e = newEdge kind s t P.
Proof.
  unfold AddEdge, AddEdgeIn. destruct (seen gb _); [auto|]. cbn.
  rewrite elem_of_app, list_elem_of_singleton. tauto.
Qed.

Lemma AddEdge_fresh_elem kind s t P gb :
  seen gb (edgeKey kind s t P) = false → newEdge kind s t P ∈ Edges (AddEdge kind s t P gb).
Proof.
  intros H. unfold AddEdge. rewrite AddEdgeIn_fresh by done. cbn.
  apply elem_of_app. right. left.
Qed.

Lemma edgeKey_end kind s t1 t2 : edgeKey kind s t1 ∅ = edgeKey kind s t2 ∅ → t1 = t2.
Proof.
  unfold edgeKey, edgeKeyIn. intros H.
  do 4 apply string_app_inv_head in H. by apply string_app_inv_tail in H.
Qed.

Lemma seen_AddEdge_other kind s t P gb key :
  key ≠ edgeKey kind s t P → seen (AddEdge kind s t P gb) key = seen gb key.
Proof.
  intros H. unfold AddEdge. rewrite seen_AddEdgeIn. fold (edgeKey kind s t P).
  by rewrite bool_decide_false.
Qed.

Lemma Edges_grows gb gb' e : grows gb gb' → e ∈ Edges gb → e ∈ Edges gb'.
Proof. intros ([rest ->] & _) H. apply elem_of_app. by left. Qed.

Section VMFacts.
Variable Host : string.
Variable bytesToHuman : Z → string.
Variable retrieveDatastore : ManagedObjectReference → option Datastore.
Variable retrieveNetwork : ManagedObjectReference → option string.
Variable retrieveVM : ManagedObjectReference → option VirtualMachine.


Lemma grows_processDatastore ref parentID gb : grows gb (processDatastore Host retrieveDatastore ref parentID gb).
Proof.
  unfold processDatastore. destruct (retrieveDatastore ref);
    [apply grows_EnsureNode|apply grows_refl].
Qed.

Lemma grows_processNetwork ref parentID gb : grows gb (processNetwork Host retrieveNetwork ref parentID gb).
Proof. apply grows_EnsureNode. Qed.

Lemma processDatastore_edges ref parentID gb :
  Edges (processDatastore Host retrieveDatastore ref parentID gb) = Edges gb
  ∧ EdgeKeys (processDatastore Host retrieveDatastore ref parentID gb) = EdgeKeys gb.
Proof.
  unfold processDatastore. destruct (retrieveDatastore ref); [|done].
  apply EnsureNode_edges.
Qed.

Lemma processNetwork_edges ref parentID gb :
  Edges (processNetwork Host retrieveNetwork ref parentID gb) = Edges gb
  ∧ EdgeKeys (processNetwork Host retrieveNetwork ref parentID gb) = EdgeKeys gb.
Proof. apply EnsureNode_edges. Qed.

Lemma processNetwork_present ref parentID gb :
  is_Some (NodesByID (processNetwork Host retrieveNetwork ref parentID gb) !! networkID Host ref).
Proof. apply EnsureNode_present. Qed.

Lemma processDatastore_present ref parentID gb :
  is_Some (retrieveDatastore ref) →
  is_Some (NodesByID (processDatastore Host retrieveDatastore ref parentID gb) !! datastoreID Host ref).
Proof.
  intros [ds H]. unfold processDatastore. rewrite H. apply EnsureNode_present.
Qed.

Lemma processDatastore_other ref parentID gb id :
  id ≠ datastoreID Host ref →
  NodesByID (processDatastore Host retrieveDatastore ref parentID gb) !! id = NodesByID gb !! id.
Proof.
  intros H. unfold processDatastore. destruct (retrieveDatastore ref); [|done].
  by apply EnsureNode_other.
Qed.

Lemma processDatastore_failed ref parentID gb :
  retrieveDatastore ref = None → processDatastore Host retrieveDatastore ref parentID gb = gb.
Proof. intros H. unfold processDatastore. by rewrite H. Qed.

Lemma processVM_steps visit ref parentID gb vm :
  retrieveVM ref = Some vm →
  processVM Host bytesToHuman retrieveDatastore retrieveNetwork retrieveVM visit ref parentID gb
  = foldl (networkTurn Host retrieveNetwork (vmNodeID Host ref))
      (foldl (datastoreTurn Host retrieveDatastore (vmNodeID Host ref))
         (AddEdge "HOSTS" parentID (vmNodeID Host ref) ∅
            (EnsureNode ["VM"] (vmNodeID Host ref)
               (vmProps bytesToHuman visit ref vm) gb))
         (VmDatastore vm))
      (VmNetwork vm).
Proof. intros H. unfold processVM. by rewrite H. Qed.

Lemma grows_datastoreTurn vmID gb ds :
  grows gb (datastoreTurn Host retrieveDatastore vmID gb ds).
Proof. eapply grows_trans; [apply grows_processDatastore|apply grows_AddEdge]. Qed.

Lemma grows_networkTurn vmID gb net :
  grows gb (networkTurn Host retrieveNetwork vmID gb net).
Proof. eapply grows_trans; [apply grows_processNetwork|apply grows_AddEdge]. Qed.

Lemma closed_processDatastore ref parentID gb :
  closed gb → closed (processDatastore Host retrieveDatastore ref parentID gb).
Proof.
  intros H. unfold processDatastore. destruct (retrieveDatastore ref); [|done].
  by apply closed_EnsureNode.
Qed.

Lemma ds_loop vmID l gb :
  grows gb (foldl (datastoreTurn Host retrieveDatastore vmID) gb l)
  ∧ (∀ ds, ds ∈ l →
       seen (foldl (datastoreTurn Host retrieveDatastore vmID) gb l)
            (edgeKey "USES_DATASTORE" vmID (datastoreID Host ds) ∅) = true
       ∧ (is_Some (retrieveDatastore ds) →
          is_Some (NodesByID (foldl (datastoreTurn Host retrieveDatastore vmID) gb l) !! datastoreID Host ds)))
  ∧ (closed gb → is_Some (NodesByID gb !! vmID) →
     (∀ ds, ds ∈ l → is_Some (retrieveDatastore ds)
                     ∨ is_Some (NodesByID gb !! datastoreID Host ds)) →
     closed (foldl (datastoreTurn Host retrieveDatastore vmID) gb l)).
Proof.
  induction l as [|d l (IH1 & IH2 & IH3)] using rev_ind.
  - split_and!; [apply grows_refl| |done]. intros ds H. by apply elem_of_nil in H.
  - rewrite foldl_app. cbn [foldl]. split_and!.
    + eapply grows_trans; [exact IH1|apply grows_datastoreTurn].
    + intros ds Hin. apply elem_of_app in Hin as [Hin|Hin].
      * destruct (IH2 ds Hin) as [S1 S2]. split.
        -- eapply seen_grows; [apply grows_datastoreTurn|done].
        -- intros Hr. eapply grows_present; [apply grows_datastoreTurn|auto].
      * apply list_elem_of_singleton in Hin. subst ds. split.
        -- apply seen_AddEdge.
        -- intros Hr. eapply grows_present; [apply grows_AddEdge|].
           by apply processDatastore_present.
    + intros Hc Hvm Hds. unfold datastoreTurn at 1. apply closed_AddEdge.
      * apply closed_processDatastore, IH3; [done|done|].
        intros ds Hin. apply Hds. apply elem_of_app. by left.
      * eapply grows_present; [|exact Hvm].
        eapply grows_trans; [exact IH1|apply grows_processDatastore].
      * destruct (Hds d) as [Hr|Hn]; [apply elem_of_app; right; left| |].
        -- by apply processDatastore_present.
        -- eapply grows_present; [|exact Hn].
           eapply grows_trans; [exact IH1|apply grows_processDatastore].
Qed.

Lemma net_loop vmID l gb :
  grows gb (foldl (networkTurn Host retrieveNetwork vmID) gb l)
  ∧ (∀ net, net ∈ l →
       seen (foldl (networkTurn Host retrieveNetwork vmID) gb l)
            (edgeKey "USES_NETWORK" vmID (networkID Host net) ∅) = true
       ∧ is_Some (NodesByID (foldl (networkTurn Host retrieveNetwork vmID) gb l) !! networkID Host net))
  ∧ (closed gb → is_Some (NodesByID gb !! vmID) → closed (foldl (networkTurn Host retrieveNetwork vmID) gb l)).
Proof.
  induction l as [|d l (IH1 & IH2 & IH3)] using rev_ind.
  - split_and!; [apply grows_refl| |done]. intros ds H. by apply elem_of_nil in H.
  - rewrite foldl_app. cbn [foldl]. split_and!.
    + eapply grows_trans; [exact IH1|apply grows_networkTurn].
    + intros net Hin. apply elem_of_app in Hin as [Hin|Hin].
      * destruct (IH2 net Hin) as [S1 S2]. split.
        -- eapply seen_grows; [apply grows_networkTurn|done].
        -- eapply grows_present; [apply grows_networkTurn|auto].
      * apply list_elem_of_singleton in Hin. subst net. split.
        -- apply seen_AddEdge.
        -- eapply grows_present; [apply grows_AddEdge|]. apply processNetwork_present.
    + intros Hc Hvm. unfold networkTurn at 1. apply closed_AddEdge.
      * apply closed_EnsureNode. by apply IH3.
      * eapply grows_present; [|exact Hvm].
        eapply grows_trans; [exact IH1|apply grows_processNetwork].
      * apply processNetwork_present.
Qed.

(** X29.  What [processVM] leaves behind.  When the machine cannot be
    retrieved the store is as before.  Otherwise the store has only grown:
    the machine has a node of kind [vCenter_VM]; the edge key from the
    parent and one for every datastore and network of the machine are
    remembered; every network has a node, and so has every datastore that
    could be retrieved.  If no edge dangled before, the parent is stored,
    and every datastore can be retrieved or is stored already, then no
    edge dangles afterwards. *)
Theorem processVM_result (visit : gmap string bool → list string)
    (ref : ManagedObjectReference) (parentID : string) (gb : GraphBuilder) :
  (retrieveVM ref = None → processVM Host bytesToHuman retrieveDatastore retrieveNetwork retrieveVM visit ref parentID gb = gb)
  ∧ (∀ vm, retrieveVM ref = Some vm →
       grows gb (processVM Host bytesToHuman retrieveDatastore retrieveNetwork retrieveVM visit ref parentID gb)
       ∧ "vCenter_VM" ∈ kindsOf (processVM Host bytesToHuman retrieveDatastore retrieveNetwork retrieveVM visit ref parentID gb) (vmNodeID Host ref)
       ∧ seen (processVM Host bytesToHuman retrieveDatastore retrieveNetwork retrieveVM visit ref parentID gb)
              (edgeKey "HOSTS" parentID (vmNodeID Host ref) ∅) = true
       ∧ (∀ ds, ds ∈ VmDatastore vm →
            seen (processVM Host bytesToHuman retrieveDatastore retrieveNetwork retrieveVM visit ref parentID gb)
                 (edgeKey "USES_DATASTORE" (vmNodeID Host ref) (datastoreID Host ds) ∅)
            = true
            ∧ (is_Some (retrieveDatastore ds) →
               is_Some (NodesByID (processVM Host bytesToHuman retrieveDatastore retrieveNetwork retrieveVM visit ref parentID gb)
                        !! datastoreID Host ds)))
       ∧ (∀ net, net ∈ VmNetwork vm →
            seen (processVM Host bytesToHuman retrieveDatastore retrieveNetwork retrieveVM visit ref parentID gb)
                 (edgeKey "USES_NETWORK" (vmNodeID Host ref) (networkID Host net) ∅)
            = true
            ∧ is_Some (NodesByID (processVM Host bytesToHuman retrieveDatastore retrieveNetwork retrieveVM visit ref parentID gb)
                       !! networkID Host net))
       ∧ (closed gb → is_Some (NodesByID gb !! parentID) →
          (∀ ds, ds ∈ VmDatastore vm →
                 is_Some (retrieveDatastore ds)
                 ∨ is_Some (NodesByID gb !! datastoreID Host ds)) →
          closed (processVM Host bytesToHuman retrieveDatastore retrieveNetwork retrieveVM visit ref parentID gb))).
Proof.
  split.
  { intros H. unfold processVM. by rewrite H. }
  intros vm Hvm. rewrite (processVM_steps _ _ _ _ _ Hvm).
  set (vmID := vmNodeID Host ref).
  set (gb1 := EnsureNode ["VM"] vmID (vmProps bytesToHuman visit ref vm) gb).
  set (gb2 := AddEdge "HOSTS" parentID vmID ∅ gb1).
  destruct (ds_loop vmID (VmDatastore vm) gb2) as (D1 & D2 & D3).
  set (gb3 := foldl (datastoreTurn Host retrieveDatastore vmID) gb2 (VmDatastore vm)) in *.
  destruct (net_loop vmID (VmNetwork vm) gb3) as (N1 & N2 & N3).
  set (gb4 := foldl (networkTurn Host retrieveNetwork vmID) gb3 (VmNetwork vm)) in *.
  assert (grows gb gb1) as G1 by apply grows_EnsureNode.
  assert (grows gb1 gb2) as G2 by apply grows_AddEdge.
  assert (grows gb2 gb4) as G24 by (by eapply grows_trans).
  split_and!.
  - eapply grows_trans; [exact G1|]. by eapply grows_trans.
  - eapply grows_kinds; [exact G24|]. eapply grows_kinds; [exact G2|].
    apply EnsureNode_kinds. right. cbn. left.
  - eapply seen_grows; [exact G24|]. apply seen_AddEdge.
  - intros ds Hin. destruct (D2 ds Hin) as [S1 S2]. split.
    + eapply seen_grows; [exact N1|done].
    + intros Hr. eapply grows_present; [exact N1|auto].
  - done.
  - intros Hc Hp Hds. apply N3.
    + apply D3.
      * apply closed_AddEdge; [by apply closed_EnsureNode| |apply EnsureNode_present].
        eapply grows_present; [exact G1|done].
      * eapply grows_present; [exact G2|apply EnsureNode_present].
      * intros ds Hin. destruct (Hds ds Hin) as [?|Hn]; [by left|right].
        eapply grows_present; [|exact Hn]. by eapply grows_trans.
    + eapply grows_present; [exact D1|]. eapply grows_present; [exact G2|].
      apply EnsureNode_present.
Qed.
Lemma datastoreID_inj d1 d2 : datastoreID Host d1 = datastoreID Host d2 → Value d1 = Value d2.
Proof. unfold datastoreID, getID. intros H. by do 3 apply string_app_inv_head in H. Qed.

Lemma vm_not_datastore ref ds : vmNodeID Host ref ≠ datastoreID Host ds.
Proof. unfold vmNodeID, datastoreID. by rewrite !string_app_cons. Qed.

Lemma network_not_datastore net ds : networkID Host net ≠ datastoreID Host ds.
Proof. unfold networkID, datastoreID. by rewrite !string_app_cons. Qed.

(** X30.  A datastore that cannot be retrieved leaves an edge dangling.
    [processDatastore] returns without a node when the retrieval fails,
    and [processVM] adds the edge to the datastore all the same: if the
    store held neither the node nor the edge key before, then afterwards
    it holds the edge and still no node for its end. *)
Theorem processVM_dangling_datastore (visit : gmap string bool → list string)
    (ref : ManagedObjectReference) (parentID : string) (gb : GraphBuilder)
    (vm : VirtualMachine) (ds : ManagedObjectReference) :
  retrieveVM ref = Some vm →
  ds ∈ VmDatastore vm →
  (∀ d, d ∈ VmDatastore vm → Value d = Value ds → retrieveDatastore d = None) →
  NodesByID gb !! datastoreID Host ds = None →
  seen gb (edgeKey "USES_DATASTORE" (vmNodeID Host ref) (datastoreID Host ds) ∅) = false →
  newEdge "USES_DATASTORE" (vmNodeID Host ref) (datastoreID Host ds) ∅
    ∈ Edges (processVM Host bytesToHuman retrieveDatastore retrieveNetwork retrieveVM
               visit ref parentID gb)
  ∧ NodesByID (processVM Host bytesToHuman retrieveDatastore retrieveNetwork retrieveVM
                 visit ref parentID gb) !! datastoreID Host ds = None
  ∧ ¬ closed (processVM Host bytesToHuman retrieveDatastore retrieveNetwork retrieveVM
                visit ref parentID gb).
Proof.
  intros Hvm Hin Hfail Hnone Hseen.
  rewrite (processVM_steps _ _ _ _ _ Hvm).
  set (vmID := vmNodeID Host ref). set (dsID := datastoreID Host ds).
  set (key := edgeKey "USES_DATASTORE" vmID dsID ∅).
  set (gb1 := EnsureNode ["VM"] vmID (vmProps bytesToHuman visit ref vm) gb).
  set (gb2 := AddEdge "HOSTS" parentID vmID ∅ gb1).
  assert (NodesByID gb2 !! dsID = None ∧ seen gb2 key = false) as [Hn2 Hs2].
  { unfold gb2, AddEdge. rewrite AddEdgeIn_nodes. split.
    - unfold gb1. rewrite EnsureNode_other; [done|]. intros E. symmetry in E.
      by apply vm_not_datastore in E.
    - fold (AddEdge "HOSTS" parentID vmID ∅ gb1). rewrite seen_AddEdge_other.
      + unfold seen, gb1. destruct (EnsureNode_edges ["VM"] vmID
                                      (vmProps bytesToHuman visit ref vm) gb) as [_ ->].
        exact Hseen.
      + unfold key, edgeKey, edgeKeyIn. by rewrite !string_app_cons. }
  assert (∀ l g, (∀ d, d ∈ l → Value d = Value ds → retrieveDatastore d = None) →
                 NodesByID g !! dsID = None →
                 NodesByID (foldl (datastoreTurn Host retrieveDatastore vmID) g l) !! dsID
                 = None
                 ∧ (seen g key = false → ds ∈ l →
                    newEdge "USES_DATASTORE" vmID dsID ∅
                    ∈ Edges (foldl (datastoreTurn Host retrieveDatastore vmID) g l)))
    as Hloop.
  { induction l as [|d l IH]; intros g Hf Hn.
    - split; [done|]. intros _ H. by apply elem_of_nil in H.
    - cbn [foldl].
      assert (NodesByID (datastoreTurn Host retrieveDatastore vmID g d) !! dsID = None) as Hn'.
      { unfold datastoreTurn, AddEdge. rewrite AddEdgeIn_nodes.
        destruct (decide (datastoreID Host d = dsID)) as [E|E].
        - rewrite processDatastore_failed; [done|]. apply Hf; [left|].
          by apply datastoreID_inj.
        - by rewrite processDatastore_other. }
      destruct (IH (datastoreTurn Host retrieveDatastore vmID g d)) as [I1 I2];
        [intros d' Hd'; apply Hf; by right|done|].
      split; [done|]. intros Hs Hds.
      destruct (decide (datastoreID Host d = dsID)) as [E|E].
      + eapply Edges_grows.
        * apply grows_foldl. intros. apply grows_datastoreTurn.
        * unfold datastoreTurn. rewrite E. apply AddEdge_fresh_elem.
          unfold seen in *.
          destruct (processDatastore_edges d "" g) as [_ ->].
          exact Hs.
      + apply I2.
        * unfold datastoreTurn. rewrite seen_AddEdge_other.
          -- unfold seen in *.
             destruct (processDatastore_edges d "" g) as [_ ->].
             exact Hs.
          -- intros K. apply E. symmetry. by apply edgeKey_end in K.
        * apply elem_of_cons in Hds as [->|?]; [done|done]. }
  destruct (Hloop (VmDatastore vm) gb2 Hfail Hn2) as [L1 L2].
  set (gb3 := foldl (datastoreTurn Host retrieveDatastore vmID) gb2 (VmDatastore vm)) in *.
  assert (∀ l g, NodesByID g !! dsID = None →
                 NodesByID (foldl (networkTurn Host retrieveNetwork vmID) g l) !! dsID = None)
    as Hnet.
  { induction l as [|n l IH]; intros g Hn; [done|]. cbn [foldl]. apply IH.
    unfold networkTurn, AddEdge. rewrite AddEdgeIn_nodes.
    unfold processNetwork. rewrite EnsureNode_other; [done|].
    intros E. symmetry in E. by apply network_not_datastore in E. }
  assert (newEdge "USES_DATASTORE" vmID dsID ∅
          ∈ Edges (foldl (networkTurn Host retrieveNetwork vmID) gb3 (VmNetwork vm))) as He.
  { eapply Edges_grows; [|by apply L2]. apply grows_foldl. intros. apply grows_networkTurn. }
  split_and!; [done|by apply Hnet|].
  intros Hc. destruct (Hc _ He) as [_ [n Hn]].
  destruct (startOf_newEdge "USES_DATASTORE" vmID dsID ∅) as [_ Hend].
  rewrite Hend, (Hnet _ _ L1) in Hn. done.
Qed.

End VMFacts.

(** The theorem at the sample machine, with no datastore retrievable. *)
Lemma processVM_dangling_datastore_witness :
  newEdge "USES_DATASTORE" "vm:vc:vm-42" "datastore:vc:datastore-11" ∅
    ∈ Edges (processVM "vc" (λ _, "") (λ _, None) (λ _, None) (λ _, Some demoVM)
               rangeKeys {| RefType := "VirtualMachine"; Value := "vm-42" |}
               "folder:vc:group-v3" NewGraphBuilder)
  ∧ NodesByID (processVM "vc" (λ _, "") (λ _, None) (λ _, None) (λ _, Some demoVM)
                 rangeKeys {| RefType := "VirtualMachine"; Value := "vm-42" |}
                 "folder:vc:group-v3" NewGraphBuilder)
      !! "datastore:vc:datastore-11" = None.
Proof.
  destruct (processVM_dangling_datastore "vc" (λ _, "") (λ _, None) (λ _, None)
              (λ _, Some demoVM) rangeKeys
              {| RefType := "VirtualMachine"; Value := "vm-42" |} "folder:vc:group-v3"
              NewGraphBuilder demoVM {| RefType := "Datastore"; Value := "datastore-11" |})
    as (H1 & H2 & _).
  - reflexivity.
  - left.
  - reflexivity.
  - reflexivity.
  - reflexivity.
  - split; [exact H1|exact H2].
Defined.

End InventoryFacts.
